(** * The chat route: upstream SSE stream to UI message stream

    A shallow embedding of [app/(chat)/api/chat/route.ts] in its two
    versions: the current route, which reads node-tagged frames
    ([{"node": ..., "content": ...}]) and writes the UI message stream
    protocol, and the earlier route kept beside it, which reads whole-content
    frames and diffs them (module [Legacy]).  Beside the route stand the
    handler that deletes a chat ([DELETE]), the server component of the
    page of a chat (module [ChatPage]) and the component that lists the
    messages, [components/messages.tsx] (module [Messages]).

    Conventions of the embedding.
    - A JavaScript string is the list of its UTF-16 code units ([jsstring]).
    - Bytes are [Byte.byte]; a [Uint8Array] is a [list byte].
    - [JSON.parse], [JSON.stringify], [Date.now], the number-to-string and
      string-to-number conversions are built-ins of the language, not code
      of the route: they are the fields of the class [Builtins].
    - An async generator over a finite body is the list of the values it
      yields together with the way it completes ([Completion]).  Each
      string the current generator yields is a template literal around
      [JSON.stringify] of an object literal: the generator is written once
      with the events these literals stand for ([transcoded]) and once with
      the strings themselves ([transformBackendStream], through [sse]).
    - Collaborators (session lookup, message store, title service, the
      upstream HTTP call) are given by the values they return ([Env]); the
      calls that change something outside the handler are recorded, in
      order, as a list of [Effect].  Exceptions are modelled wherever the
      route has a dedicated handler for them; a collaborator that throws
      into one of the two catch-all handlers is outside the model.
    - [console.log] and [console.error] have no effect on any result and are
      left out. *)

From Stdlib Require Import Strings.String Strings.Ascii Strings.Byte.
From Stdlib Require Import DecimalString.
From Stdlib Require Import NArith ZArith Bool Lia Floats List.
Import ListNotations.

Set Implicit Arguments.
Set Warnings "-register-all".
Local Open Scope N_scope.

(** ** JavaScript strings *)

Definition jsstring := list N.

(** The code units of an (ASCII) literal of the source. *)
Definition lit (s : string) : jsstring :=
  map N_of_ascii (list_ascii_of_string s).

Fixpoint str_eqb (a b : jsstring) : bool :=
  match a, b with
  | [], [] => true
  | x :: a', y :: b' => (x =? y) && str_eqb a' b'
  | _, _ => false
  end.

(** [s.startsWith(p)] *)
Fixpoint startsWith (p s : jsstring) : bool :=
  match p, s with
  | [], _ => true
  | x :: p', y :: s' => (x =? y) && startsWith p' s'
  | _ :: _, [] => false
  end.

(** [s.slice(n)] for [0 <= n]. *)
Definition slice (n : nat) (s : jsstring) : jsstring := skipn n s.

(** White space and line terminators, as [String.prototype.trim] strips
    them: TAB, LF, VT, FF, CR, SP, NBSP, U+1680, U+2000..U+200A, U+2028,
    U+2029, U+202F, U+205F, U+3000 and U+FEFF. *)
Definition is_trimmed_unit (c : N) : bool :=
  ((9 <=? c) && (c <=? 13)) || (c =? 32) || (c =? 160) || (c =? 5760)
  || ((8192 <=? c) && (c <=? 8202)) || (c =? 8232) || (c =? 8233)
  || (c =? 8239) || (c =? 8287) || (c =? 12288) || (c =? 65279).

Fixpoint trimStart (s : jsstring) : jsstring :=
  match s with
  | c :: s' => if is_trimmed_unit c then trimStart s' else s
  | [] => []
  end.

Definition trimEnd (s : jsstring) : jsstring := rev (trimStart (rev s)).

Definition trim (s : jsstring) : jsstring := trimEnd (trimStart s).

Definition LF : N := 10.

(** [s.split("\n")]: the segments between line feeds; never empty. *)
Fixpoint split_LF (s : jsstring) : list jsstring :=
  match s with
  | [] => [[]]
  | c :: s' =>
      if c =? LF then [] :: split_LF s'
      else match split_LF s' with
           | seg :: rest => (c :: seg) :: rest
           | [] => [[c]]
           end
  end.

(** [parts.join(sep)] *)
Fixpoint join (sep : jsstring) (parts : list jsstring) : jsstring :=
  match parts with
  | [] => []
  | [p] => p
  | p :: rest => p ++ sep ++ join sep rest
  end.

(** ** TextDecoder and TextEncoder (UTF-8)

    The decoder is the one of the Encoding standard: a state machine fed
    one byte at a time, with replacement of malformed sequences by U+FFFD.
    The route only ever calls [decode(value, { stream: true })], so the
    machine is never flushed and keeps its state between calls. *)

Record Utf8Decoder := {
  code_point : N;
  bytes_seen : N;
  bytes_needed : N;
  lower_boundary : N;
  upper_boundary : N
}.

Definition utf8_idle : Utf8Decoder :=
  {| code_point := 0; bytes_seen := 0; bytes_needed := 0;
     lower_boundary := 128; upper_boundary := 191 |}.

Definition REPLACEMENT : N := 65533.

(** The handler when no sequence is in progress. *)
Definition utf8_lead (b : N) : Utf8Decoder * list N :=
  if b <=? 127 then (utf8_idle, [b])
  else if (194 <=? b) && (b <=? 223) then
    ({| code_point := N.land b 31; bytes_seen := 0; bytes_needed := 1;
        lower_boundary := 128; upper_boundary := 191 |}, [])
  else if (224 <=? b) && (b <=? 239) then
    ({| code_point := N.land b 15; bytes_seen := 0; bytes_needed := 2;
        lower_boundary := if b =? 224 then 160 else 128;
        upper_boundary := if b =? 237 then 159 else 191 |}, [])
  else if (240 <=? b) && (b <=? 244) then
    ({| code_point := N.land b 7; bytes_seen := 0; bytes_needed := 3;
        lower_boundary := if b =? 240 then 144 else 128;
        upper_boundary := if b =? 244 then 143 else 191 |}, [])
  else (utf8_idle, [REPLACEMENT]).

(** One byte through the decoder: the new state and the scalar values it
    emits.  A byte outside the expected range ends the sequence in progress
    with U+FFFD and is then read again as a lead byte. *)
Definition utf8_handler (d : Utf8Decoder) (b : N) : Utf8Decoder * list N :=
  if bytes_needed d =? 0 then utf8_lead b
  else if negb ((lower_boundary d <=? b) && (b <=? upper_boundary d)) then
    let '(d', out) := utf8_lead b in (d', REPLACEMENT :: out)
  else
    let cp := N.lor (N.shiftl (code_point d) 6) (N.land b 63) in
    let seen := bytes_seen d + 1 in
    if seen =? bytes_needed d then (utf8_idle, [cp])
    else ({| code_point := cp; bytes_seen := seen;
             bytes_needed := bytes_needed d;
             lower_boundary := 128; upper_boundary := 191 |}, []).

(** The UTF-16 code units of a scalar value. *)
Definition code_units (cp : N) : jsstring :=
  if cp <? 65536 then [cp]
  else let v := cp - 65536 in [55296 + N.shiftr v 10; 56320 + N.land v 1023].

Record TextDecoder := {
  utf8 : Utf8Decoder;
  BOM_seen : bool
}.

(** [new TextDecoder()] *)
Definition TextDecoder_new : TextDecoder :=
  {| utf8 := utf8_idle; BOM_seen := false |}.

(** Serialising the decoder's output: the first scalar value is dropped
    when it is the byte order mark. *)
Fixpoint serialize (bom_seen : bool) (cps : list N) : bool * jsstring :=
  match cps with
  | [] => (bom_seen, [])
  | cp :: rest =>
      if negb bom_seen && (cp =? 65279) then serialize true rest
      else let '(b, out) := serialize true rest in (b, code_units cp ++ out)
  end.

Definition decode_byte (d : TextDecoder) (b : byte) : TextDecoder * jsstring :=
  let '(u, cps) := utf8_handler (utf8 d) (Byte.to_N b) in
  let '(seen, out) := serialize (BOM_seen d) cps in
  ({| utf8 := u; BOM_seen := seen |}, out).

(** [decoder.decode(value, { stream: true })] *)
Fixpoint TextDecoder_decode (d : TextDecoder) (value : list byte)
  : TextDecoder * jsstring :=
  match value with
  | [] => (d, [])
  | b :: rest =>
      let '(d1, out1) := decode_byte d b in
      let '(d2, out2) := TextDecoder_decode d1 rest in
      (d2, out1 ++ out2)
  end.

(** [new TextDecoder().decode(value)]: a fresh decoder, flushed at the end
    (a sequence left unfinished gives one U+FFFD). *)
Definition TextDecoder_decode_all (value : list byte) : jsstring :=
  let '(d, out) := TextDecoder_decode TextDecoder_new value in
  if bytes_needed (utf8 d) =? 0 then out
  else out ++ snd (serialize (BOM_seen d) [REPLACEMENT]).

Definition byte_of_N (n : N) : byte :=
  match Byte.of_N (n mod 256) with Some b => b | None => x00 end.

(** The UTF-8 bytes of a scalar value. *)
Definition utf8_bytes (cp : N) : list byte :=
  if cp <? 128 then [byte_of_N cp]
  else if cp <? 2048 then
    [byte_of_N (192 + N.shiftr cp 6); byte_of_N (128 + N.land cp 63)]
  else if cp <? 65536 then
    [byte_of_N (224 + N.shiftr cp 12);
     byte_of_N (128 + N.land (N.shiftr cp 6) 63);
     byte_of_N (128 + N.land cp 63)]
  else
    [byte_of_N (240 + N.shiftr cp 18);
     byte_of_N (128 + N.land (N.shiftr cp 12) 63);
     byte_of_N (128 + N.land (N.shiftr cp 6) 63);
     byte_of_N (128 + N.land cp 63)].

Definition is_high_surrogate (c : N) : bool := (55296 <=? c) && (c <=? 56319).
Definition is_low_surrogate (c : N) : bool := (56320 <=? c) && (c <=? 57343).

(** [new TextEncoder().encode(s)]: surrogate pairs are joined, a lone
    surrogate becomes U+FFFD. *)
Fixpoint TextEncoder_encode (s : jsstring) : list byte :=
  match s with
  | [] => []
  | c :: s' =>
      if is_high_surrogate c then
        match s' with
        | c2 :: s'' =>
            if is_low_surrogate c2 then
              utf8_bytes (65536 + (c - 55296) * 1024 + (c2 - 56320))
                ++ TextEncoder_encode s''
            else utf8_bytes REPLACEMENT ++ TextEncoder_encode s'
        | [] => utf8_bytes REPLACEMENT
        end
      else if is_low_surrogate c then utf8_bytes REPLACEMENT ++ TextEncoder_encode s'
      else utf8_bytes c ++ TextEncoder_encode s'
  end.

(** ** JSON values and the built-ins *)

Inductive json :=
| JNull
| JBool (b : bool)
| JNum (n : float)
| JStr (s : jsstring)
| JArr (items : list json)
| JObj (props : list (jsstring * json)).

(** A JavaScript value read from a parsed payload: [None] is [undefined]. *)
Definition jsval := option json.

Class Builtins := {
  (** [JSON.parse(text)]; [None] when it throws a SyntaxError. *)
  JSON_parse : jsstring -> option json;
  (** [JSON.stringify(value)] of a value built from JSON data. *)
  JSON_stringify : json -> jsstring;
  (** [Date.now()]: the reading of the call number [k], counted from 0. *)
  Date_now : nat -> float;
  (** [Number::toString] *)
  Number_toString : float -> jsstring;
  (** [StringToNumber] *)
  StringToNumber : jsstring -> float
}.

(** The own property [k] of an object with the properties [props]. *)
Fixpoint own (props : list (jsstring * json)) (k : jsstring) : jsval :=
  match props with
  | [] => None
  | (k', v) :: rest => if str_eqb k' k then Some v else own rest k
  end.

(** [v.k] for a value [v] other than [null] and a key that no built-in
    prototype defines (every key the route reads by name is such a key). *)
Definition prop (v : json) (k : string) : jsval :=
  match v with
  | JObj props => own props (lit k)
  | _ => None
  end.

(** ToBoolean *)
Definition truthy (v : jsval) : bool :=
  match v with
  | None => false
  | Some JNull => false
  | Some (JBool b) => b
  | Some (JNum n) => negb (PrimFloat.eqb n 0%float || PrimFloat.is_nan n)
  | Some (JStr s) => negb (str_eqb s [])
  | Some (JArr _) => true
  | Some (JObj _) => true
  end.

(** [v === "literal"] *)
Definition is_string (v : jsval) (s : string) : bool :=
  match v with
  | Some (JStr t) => str_eqb t (lit s)
  | _ => false
  end.

Section Conversions.
Context {rt : Builtins}.

(** ToString of a value made of JSON data; [None] when it throws a
    TypeError (an object whose own [toString] property hides the method). *)
Fixpoint ToString (v : json) : option jsstring :=
  match v with
  | JNull => Some (lit "null")
  | JBool true => Some (lit "true")
  | JBool false => Some (lit "false")
  | JNum n => Some (Number_toString n)
  | JStr s => Some s
  | JArr items =>
      (fix join_items (l : list json) : option jsstring :=
         let element (x : json) :=
           match x with JNull => Some [] | _ => ToString x end in
         match l with
         | [] => Some []
         | [x] => element x
         | x :: rest =>
             match element x, join_items rest with
             | Some a, Some b => Some (a ++ lit "," ++ b)
             | _, _ => None
             end
         end) items
  | JObj props =>
      match own props (lit "toString") with
      | Some _ => None
      | None => Some (lit "[object Object]")
      end
  end.

(** ToNumber; [None] when ToPrimitive throws. *)
Definition ToNumber (v : jsval) : option float :=
  match v with
  | None => Some PrimFloat.nan
  | Some JNull => Some 0%float
  | Some (JBool true) => Some 1%float
  | Some (JBool false) => Some 0%float
  | Some (JNum n) => Some n
  | Some (JStr s) => Some (StringToNumber s)
  | Some w => option_map StringToNumber (ToString w)
  end.

End Conversions.

(** ** Normalized events and their wire form *)

Inductive NormalizedEvent :=
| Start (messageId : jsstring)
| TextStart (id : jsstring)
| TextDelta (id delta : jsstring)
| TextEnd (id : jsstring)
| Finish (finishReason : jsstring)
| Error (errorText : json)
| Heartbeat (timestamp : float)
| Done.

Definition field (k : string) (v : json) : jsstring * json := (lit k, v).

(** The object literal each event is serialised from. *)
Definition event_object (e : NormalizedEvent) : option json :=
  match e with
  | Start messageId =>
      Some (JObj [field "type" (JStr (lit "start")); field "messageId" (JStr messageId)])
  | TextStart id =>
      Some (JObj [field "type" (JStr (lit "text-start")); field "id" (JStr id)])
  | TextDelta id delta =>
      Some (JObj [field "type" (JStr (lit "text-delta")); field "id" (JStr id);
                  field "delta" (JStr delta)])
  | TextEnd id =>
      Some (JObj [field "type" (JStr (lit "text-end")); field "id" (JStr id)])
  | Finish reason =>
      Some (JObj [field "type" (JStr (lit "finish")); field "finishReason" (JStr reason)])
  | Error errorText =>
      Some (JObj [field "type" (JStr (lit "error")); field "errorText" errorText])
  | Heartbeat timestamp =>
      Some (JObj [field "type" (JStr (lit "data-heartbeat"));
                  field "data" (JObj [field "timestamp" (JNum timestamp)])])
  | Done => None
  end.

(** The SSE frame of an event: the template literal
    [`data: ${JSON.stringify({...})}\n\n`], or ["data: [DONE]\n\n"]. *)
Definition sse {rt : Builtins} (e : NormalizedEvent) : jsstring :=
  match event_object e with
  | Some o => lit "data: " ++ JSON_stringify o ++ [LF; LF]
  | None => lit "data: [DONE]" ++ [LF; LF]
  end.

(** ** transformBackendStream *)

Record Body := {
  (** the values [reader.read()] resolves with, in order *)
  chunks : list (list byte);
  (** whether the read after the last chunk rejects instead of reporting
      [done] (connection lost, request aborted) *)
  read_fails : bool
}.

Inductive Completion := Returned | Threw.

(** The variables of the generator: [decoder], [buffer], [textStarted], and
    the number of [Date.now()] calls made so far. *)
Record Session := {
  decoder : TextDecoder;
  buffer : jsstring;
  textStarted : bool;
  clock : nat
}.

Definition Session_new : Session :=
  {| decoder := TextDecoder_new; buffer := []; textStarted := false; clock := 0 |}.

Section Transcoder.
Context {rt : Builtins}.
Variable textId : jsstring.

(** The body of [if (line.startsWith("data: "))] for the payload [data]:
    the new [textStarted] and clock, and the events yielded. *)
Definition transcode (started : bool) (now : nat) (data : jsstring)
  : bool * nat * list NormalizedEvent :=
  if str_eqb data (lit "[DONE]") then (started, now, [])
  else
    match JSON_parse data with
    | None => (started, now, [])
    | Some JNull => (started, now, [])
    | Some parsed =>
        if is_string (prop parsed "type") "ping" then
          (started, S now, [Heartbeat (Date_now now)])
        else
          match prop parsed "content" with
          | Some (JStr (c :: content')) =>
              let content := c :: content' in
              if is_string (prop parsed "node") "agent"
                 || is_string (prop parsed "node") "model"
              then
                (true, now,
                 (if started then [] else [TextStart textId])
                   ++ [TextDelta textId content])
              else (started, now, [])
          | _ =>
              match prop parsed "error" with
              | Some e =>
                  if truthy (Some e) then (started, now, [Error e])
                  else (started, now, [])
              | None => (started, now, [])
              end
          end
    end.

(** The payload of a complete line: [line.slice(6).trim()] when the line
    starts with ["data: "]. *)
Definition payload (line : jsstring) : option jsstring :=
  if startsWith (lit "data: ") line then Some (trim (slice 6 line)) else None.

(** One turn of [for (const line of lines)]. *)
Definition process_line (acc : bool * nat * list NormalizedEvent) (line : jsstring)
  : bool * nat * list NormalizedEvent :=
  let '(started, now, out) := acc in
  match payload line with
  | Some data =>
      let '(started', now', evs) := transcode started now data in
      (started', now', out ++ evs)
  | None => acc
  end.

(** One turn of [while (true)] for a chunk [value] that was read. *)
Definition read_step (acc : Session * list NormalizedEvent) (value : list byte)
  : Session * list NormalizedEvent :=
  let '(s, out) := acc in
  let '(decoder', text) := TextDecoder_decode (decoder s) value in
  let lines := split_LF (buffer s ++ text) in
  let buffer' := last lines [] in
  let '(started, now, out') :=
    fold_left process_line (removelast lines) (textStarted s, clock s, out) in
  ({| decoder := decoder'; buffer := buffer'; textStarted := started; clock := now |},
   out').

(** The events of the generator, one per [yield], and how it completes. *)
Definition transcoded (body : option Body) : list NormalizedEvent * Completion :=
  match body with
  | None => ([], Threw)
  | Some b =>
      let '(s, out) := fold_left read_step (chunks b) (Session_new, []) in
      if read_fails b then (out, Threw)
      else (out ++ (if textStarted s then [TextEnd textId] else []), Returned)
  end.

End Transcoder.

(** [transformBackendStream(backendResponse, _messageId, textId)]: the
    strings it yields and how it completes.  [body] is
    [backendResponse.body]; without one the generator throws at once. *)
Definition transformBackendStream {rt : Builtins}
  (body : option Body) (_messageId textId : jsstring)
  : list jsstring * Completion :=
  let '(events, completion) := transcoded textId body in
  (map sse events, completion).

(** ** The output sink

    The [ReadableStreamDefaultController] the handler writes to.  [enqueue]
    and [close] throw once the stream has been closed, by the handler or,
    see [controller_cancel], by the consumer. *)

Inductive SinkOp :=
| Enqueue (chunk : list byte)
| Close
| Errored.

Record Controller := {
  written : list SinkOp;
  closed : bool
}.

Definition Controller_new : Controller := {| written := []; closed := false |}.

(** [controller.enqueue(chunk)]; [None] when it throws. *)
Definition controller_enqueue (c : Controller) (chunk : list byte) : option Controller :=
  if closed c then None
  else Some {| written := written c ++ [Enqueue chunk]; closed := false |}.

(** [controller.close()]; [None] when it throws. *)
Definition controller_close (c : Controller) : option Controller :=
  if closed c then None
  else Some {| written := written c ++ [Close]; closed := true |}.

(** [controller.error(e)] *)
Definition controller_error (c : Controller) : Controller :=
  if closed c then c
  else {| written := written c ++ [Errored]; closed := true |}.

(** ** Requests, collaborators and effects *)

(** A message part, [{ type: string; text?: string }]. *)
Record Part := {
  part_type : jsstring;
  part_text : option jsstring
}.

Record ChatMessage := {
  message_id : jsstring;
  role : jsstring;
  parts : option (list Part)
}.

Record PostRequestBody := {
  id : jsstring;
  message : option ChatMessage;
  selectedVisibilityType : jsstring
}.

Inductive UserType := guest | regular.

Record User := {
  user_id : jsstring;
  user_type : UserType
}.

Record Chat := {
  chat_userId : jsstring
}.

(** A row handed to [saveMessages] ([attachments] is always empty and
    [createdAt] is the time of the call; neither is kept). *)
Record DBMessage := {
  db_chatId : jsstring;
  db_id : jsstring;
  db_role : jsstring;
  db_parts : option (list Part)
}.

Inductive Effect :=
| SaveChat (chat_id userId title visibility : jsstring)
| GenerateTitle (m : ChatMessage)
| SaveMessages (messages : list DBMessage)
| Fetch (message_text thread_id : jsstring)
| UpdateChatTitle (chatId title : jsstring).

(** What [fetch] does: reject (no connection, abort on the timeout) or
    resolve with a response. *)
Inductive FetchOutcome :=
| FetchRejected
| FetchResponse (status : N) (body : option Body).

(** [response.ok] *)
Definition ok (status : N) : bool := (200 <=? status) && (status <=? 299).

Inductive ErrorCode :=
| bad_request_api
| unauthorized_chat
| rate_limit_chat
| forbidden_chat
| offline_chat.

Inductive Response :=
| ErrorResponse (code : ErrorCode)
| StreamResponse (sink : Controller).

(** What the handler reads from outside. *)
Record Env := {
  (** [postRequestBodySchema.parse(await request.json())]; [None] when
      either throws *)
  request_body : option PostRequestBody;
  (** [process.env.RENDER_BACKEND_URL] *)
  RENDER_BACKEND_URL : option jsstring;
  (** [(await auth())?.user] *)
  session_user : option User;
  (** [getMessageCountByUserId] over the last 24 hours *)
  messageCount : N;
  (** [entitlementsByUserType[userType].maxMessagesPerDay] *)
  maxMessagesPerDay : UserType -> N;
  (** [getChatById({ id })] *)
  stored_chat : option Chat;
  fetch : FetchOutcome;
  (** [generateUUID()], by call number *)
  generateUUID : nat -> jsstring;
  (** what [generateTitleFromUserMessage] resolves with *)
  generated_title : jsstring
}.

(** ** extractMessageText and callRenderBackend *)

Definition is_text_part (p : Part) : bool :=
  str_eqb (part_type p) (lit "text")
  && match part_text p with Some _ => true | None => false end.

Definition text_of (p : Part) : jsstring :=
  match part_text p with Some t => t | None => [] end.

Definition extractMessageText (m : ChatMessage) : jsstring :=
  match parts m with
  | None => []
  | Some ps => join [LF] (map text_of (filter is_text_part ps))
  end.

(** [!RENDER_BACKEND_URL] is false *)
Definition configured (url : option jsstring) : bool :=
  match url with
  | Some (_ :: _) => true
  | _ => false
  end.

(** The handler's monad: the effects performed so far, and either an early
    [return] of a response or a value to go on with. *)
Definition Handler (A : Type) : Type :=
  list Effect -> (Response + A) * list Effect.

Definition ret {A} (a : A) : Handler A := fun done => (inr a, done).

Definition bind {A B} (m : Handler A) (k : A -> Handler B) : Handler B :=
  fun done =>
    match m done with
    | (inl r, done') => (inl r, done')
    | (inr a, done') => k a done'
    end.

Definition respond {A} (r : Response) : Handler A := fun done => (inl r, done).

Definition perform (e : Effect) : Handler unit := fun done => (inr tt, done ++ [e]).

Definition run (m : Handler Response) : Response * list Effect :=
  match m [] with
  | (inl r, done) => (r, done)
  | (inr r, done) => (r, done)
  end.

Declare Scope handler_scope.
Delimit Scope handler_scope with handler.
Notation "x <- c ;; k" := (bind c (fun x => k))
  (at level 61, c at next level, right associativity) : handler_scope.
Notation "c ;; k" := (bind c (fun _ => k))
  (at level 61, right associativity) : handler_scope.

(** [callRenderBackend(messageText, threadId)]: the response body, or
    [None] when the call throws. *)
Definition callRenderBackend (env : Env) (messageText threadId : jsstring)
  : Handler (option (option Body)) :=
  (if negb (configured (RENDER_BACKEND_URL env)) then ret None
   else
     perform (Fetch messageText threadId) ;;
     match fetch env with
     | FetchRejected => ret None
     | FetchResponse status body =>
         if negb (ok status) then ret None else ret (Some body)
     end)%handler.

(** ** The stream of the response: [start(controller)] *)

(** The variables of [start]: the controller, [isClosed], [fullContent]. *)
Record Mux := {
  controller : Controller;
  isClosed : bool;
  fullContent : jsstring
}.

Definition Mux_new : Mux :=
  {| controller := Controller_new; isClosed := false; fullContent := [] |}.

Definition safeEnqueue (m : Mux) (data : jsstring) : Mux :=
  if isClosed m then m
  else
    match controller_enqueue (controller m) (TextEncoder_encode data) with
    | Some c => {| controller := c; isClosed := isClosed m; fullContent := fullContent m |}
    | None => m
    end.

Definition safeClose (m : Mux) : Mux :=
  if isClosed m then m
  else
    match controller_close (controller m) with
    | Some c => {| controller := c; isClosed := true; fullContent := fullContent m |}
    | None => {| controller := controller m; isClosed := true; fullContent := fullContent m |}
    end.

Definition set_fullContent (m : Mux) (s : jsstring) : Mux :=
  {| controller := controller m; isClosed := isClosed m; fullContent := s |}.

Definition stream_error_text : jsstring :=
  lit "Backend connection error. Please try again.".

Section Multiplexer.
Context {rt : Builtins}.

(** The inner [try] of the loop body: [fullContent] after the chunk. *)
Definition accumulate (content chunk : jsstring) : jsstring :=
  if startsWith (lit "data: ") chunk then
    let jsonStr := trim (slice 6 chunk) in
    if negb (str_eqb jsonStr []) && negb (str_eqb jsonStr (lit "[DONE]")) then
      match JSON_parse jsonStr with
      | None => content
      | Some JNull => content
      | Some parsed =>
          if is_string (prop parsed "type") "text-delta" && truthy (prop parsed "delta")
          then
            match prop parsed "delta" with
            | Some delta =>
                match ToString delta with
                | Some text => content ++ text
                | None => content
                end
            | None => content
            end
          else content
      end
    else content
  else content.

(** One turn of [for await (const chunk of transformBackendStream(...))]. *)
Definition forward (m : Mux) (chunk : jsstring) : Mux :=
  let m' := safeEnqueue m chunk in
  set_fullContent m' (accumulate (fullContent m') chunk).

(** The assistant message handed to [saveMessages]. *)
Definition assistant_message (chatId assistantMessageId content : jsstring) : DBMessage :=
  {| db_chatId := chatId; db_id := assistantMessageId; db_role := lit "assistant";
     db_parts := Some [{| part_type := lit "text"; part_text := Some content |}] |}.

(** [start(controller)] for the chat [chatId], with [titlePromise] given by
    the title it resolves with: the controller at the end and the effects
    performed. *)
Definition start (env : Env) (chatId : jsstring) (titlePromise : option jsstring)
  (body : option Body) : Controller * list Effect :=
  let assistantMessageId := generateUUID env 0 in
  let textId := generateUUID env 1 in
  let m1 := safeEnqueue Mux_new (sse (Start assistantMessageId)) in
  let '(yielded, completion) := transformBackendStream body assistantMessageId textId in
  let m2 := fold_left forward yielded m1 in
  let m3 :=
    match completion with
    | Returned => m2
    | Threw =>
        set_fullContent (safeEnqueue m2 (sse (Error (JStr stream_error_text))))
          stream_error_text
    end in
  let m4 := safeEnqueue m3 (sse (Finish (lit "stop"))) in
  let m5 := safeEnqueue m4 (sse Done) in
  let saved :=
    if negb (str_eqb (fullContent m5) []) then
      [SaveMessages [assistant_message chatId assistantMessageId (fullContent m5)]]
    else [] in
  let titled :=
    match titlePromise with
    | Some title => [UpdateChatTitle chatId title]
    | None => []
    end in
  (controller (safeClose m5), saved ++ titled).

End Multiplexer.

(** ** POST *)

Definition user_message (chatId : jsstring) (m : ChatMessage) : DBMessage :=
  {| db_chatId := chatId; db_id := message_id m; db_role := lit "user";
     db_parts := parts m |}.

(** [message ? extractMessageText(message) : ""] *)
Definition messageText (rb : PostRequestBody) : jsstring :=
  match message rb with
  | Some m => extractMessageText m
  | None => []
  end.

Local Open Scope handler_scope.

(** The handler up to the backend call, which reads the same in both
    versions of the route: the request body, the title promise (by the
    title it resolves with) and the backend response (by its body). *)
Definition prelude (env : Env)
  : Handler (PostRequestBody * option jsstring * option Body) :=
  match request_body env with
  | None => respond (ErrorResponse bad_request_api)
  | Some rb =>
  if negb (configured (RENDER_BACKEND_URL env)) then
    respond (ErrorResponse bad_request_api)
  else
  match session_user env with
  | None => respond (ErrorResponse unauthorized_chat)
  | Some user =>
  if maxMessagesPerDay env (user_type user) <? messageCount env then
    respond (ErrorResponse rate_limit_chat)
  else
  titlePromise <-
    match stored_chat env with
    | Some chat =>
        if negb (str_eqb (chat_userId chat) (user_id user)) then
          respond (ErrorResponse forbidden_chat)
        else ret None
    | None =>
        match message rb with
        | Some m =>
            if str_eqb (role m) (lit "user") then
              perform (SaveChat (id rb) (user_id user) (lit "New chat")
                         (selectedVisibilityType rb)) ;;
              perform (GenerateTitle m) ;;
              ret (Some (generated_title env))
            else ret None
        | None => ret None
        end
    end ;;
  match message rb with
  | Some m =>
      if str_eqb (role m) (lit "user") then
        perform (SaveMessages [user_message (id rb) m])
      else ret tt
  | None => ret tt
  end ;;
  if str_eqb (messageText rb) [] then respond (ErrorResponse bad_request_api)
  else
  backendResponse <- callRenderBackend env (messageText rb) (id rb) ;;
  match backendResponse with
  | None => respond (ErrorResponse offline_chat)
  | Some body => ret (rb, titlePromise, body)
  end
  end
  end.

Definition POST {rt : Builtins} (env : Env) : Response * list Effect :=
  run (
    passed <- prelude env ;;
    let '(rb, titlePromise, body) := passed in
    match body with
    | None => respond (ErrorResponse offline_chat)
    | Some _ =>
        let '(sink, effects) := start env (id rb) titlePromise body in
        fun done => (inr (StreamResponse sink), done ++ effects)
    end).

Local Close Scope handler_scope.

(** ** An executable instance of the built-ins

    [Reference] implements the built-ins on the part of JSON needed to run
    the route on concrete streams: [parse] and [stringify] follow the
    ECMAScript algorithms for strings, arrays, objects, booleans and
    [null]; a number is read and printed exactly when it is an integer
    written without fraction or exponent and of magnitude below 2^53 (any
    other number literal is refused by [parse]).  The clock starts at a
    fixed instant and advances by one millisecond per reading. *)

Module Reference.

Definition QUOTE : N := 34.
Definition BACKSLASH : N := 92.

Definition is_json_space (c : N) : bool :=
  (c =? 32) || (c =? 9) || (c =? 10) || (c =? 13).

Fixpoint skip_space (s : jsstring) : jsstring :=
  match s with
  | c :: s' => if is_json_space c then skip_space s' else s
  | [] => []
  end.

Definition hex_value (c : N) : option N :=
  if (48 <=? c) && (c <=? 57) then Some (c - 48)
  else if (97 <=? c) && (c <=? 102) then Some (c - 87)
  else if (65 <=? c) && (c <=? 70) then Some (c - 55)
  else None.

Definition hex_digit (n : N) : N := if n <? 10 then 48 + n else 87 + n.

(** The characters of a string literal after its opening quote. *)
Fixpoint parse_chars (fuel : nat) (s : jsstring) : option (jsstring * jsstring) :=
  match fuel with
  | O => None
  | S fuel' =>
      match s with
      | [] => None
      | c :: r =>
          if c =? QUOTE then Some ([], r)
          else if c <? 32 then None
          else if c =? BACKSLASH then
            match r with
            | e :: r' =>
                let simple (u : N) :=
                  match parse_chars fuel' r' with
                  | Some (t, rest) => Some (u :: t, rest)
                  | None => None
                  end in
                if e =? QUOTE then simple QUOTE
                else if e =? BACKSLASH then simple BACKSLASH
                else if e =? 47 then simple 47
                else if e =? 98 then simple 8
                else if e =? 102 then simple 12
                else if e =? 110 then simple 10
                else if e =? 114 then simple 13
                else if e =? 116 then simple 9
                else if e =? 117 then
                  match r' with
                  | h1 :: h2 :: h3 :: h4 :: r'' =>
                      match hex_value h1, hex_value h2, hex_value h3, hex_value h4 with
                      | Some a, Some b, Some c', Some d =>
                          match parse_chars fuel' r'' with
                          | Some (t, rest) =>
                              Some (((a * 16 + b) * 16 + c') * 16 + d :: t, rest)
                          | None => None
                          end
                      | _, _, _, _ => None
                      end
                  | _ => None
                  end
                else None
            | [] => None
            end
          else
            match parse_chars fuel' r with
            | Some (t, rest) => Some (c :: t, rest)
            | None => None
            end
      end
  end.

Definition is_digit (c : N) : bool := (48 <=? c) && (c <=? 57).

Fixpoint take_digits (s : jsstring) (acc : N) : N * jsstring :=
  match s with
  | c :: s' => if is_digit c then take_digits s' (acc * 10 + (c - 48)) else (acc, s)
  | [] => (acc, [])
  end.

Definition float_of_N (n : N) : float := PrimFloat.of_uint63 (Uint63.of_Z (Z.of_N n)).

Definition MAX_EXACT : N := 9007199254740992.

(** An integer literal; refused when followed by a fraction or exponent. *)
Definition parse_number (s : jsstring) : option (float * jsstring) :=
  let '(negative, s1) :=
    match s with
    | 45 :: r => (true, r)
    | _ => (false, s)
    end in
  match s1 with
  | d :: r =>
      if is_digit d then
        let '(n, rest) := take_digits s1 0 in
        let leading_zero := (d =? 48) && match r with d2 :: _ => is_digit d2 | [] => false end in
        let continues :=
          match rest with
          | c :: _ => (c =? 46) || (c =? 101) || (c =? 69)
          | [] => false
          end in
        if leading_zero || continues || (MAX_EXACT <=? n) then None
        else Some (if negative then PrimFloat.opp (float_of_N n) else float_of_N n, rest)
      else None
  | [] => None
  end.

(** [CreateDataProperty]: a repeated key keeps its place and takes the
    later value. *)
Fixpoint define (props : list (jsstring * json)) (k : jsstring) (v : json)
  : list (jsstring * json) :=
  match props with
  | [] => [(k, v)]
  | (k', v') :: rest =>
      if str_eqb k' k then (k', v) :: rest else (k', v') :: define rest k v
  end.

Fixpoint parse_value (fuel : nat) (s : jsstring) {struct fuel} : option (json * jsstring) :=
  match fuel with
  | O => None
  | S fuel' =>
      match skip_space s with
      | [] => None
      | c :: r =>
          if c =? QUOTE then
            match parse_chars (S (List.length r)) r with
            | Some (t, rest) => Some (JStr t, rest)
            | None => None
            end
          else if c =? 91 then
            match skip_space r with
            | 93 :: rest => Some (JArr [], rest)
            | _ => parse_elements fuel' r []
            end
          else if c =? 123 then
            match skip_space r with
            | 125 :: rest => Some (JObj [], rest)
            | _ => parse_members fuel' r []
            end
          else if startsWith (lit "true") (c :: r) then Some (JBool true, skipn 4 (c :: r))
          else if startsWith (lit "false") (c :: r) then Some (JBool false, skipn 5 (c :: r))
          else if startsWith (lit "null") (c :: r) then Some (JNull, skipn 4 (c :: r))
          else
            match parse_number (c :: r) with
            | Some (n, rest) => Some (JNum n, rest)
            | None => None
            end
      end
  end
with parse_elements (fuel : nat) (s : jsstring) (acc : list json) {struct fuel}
  : option (json * jsstring) :=
  match fuel with
  | O => None
  | S fuel' =>
      match parse_value fuel' s with
      | Some (v, r) =>
          match skip_space r with
          | 44 :: r' => parse_elements fuel' r' (acc ++ [v])
          | 93 :: r' => Some (JArr (acc ++ [v]), r')
          | _ => None
          end
      | None => None
      end
  end
with parse_members (fuel : nat) (s : jsstring) (acc : list (jsstring * json)) {struct fuel}
  : option (json * jsstring) :=
  match fuel with
  | O => None
  | S fuel' =>
      match skip_space s with
      | 34 :: r =>
          match parse_chars (S (List.length r)) r with
          | Some (k, r1) =>
              match skip_space r1 with
              | 58 :: r2 =>
                  match parse_value fuel' r2 with
                  | Some (v, r3) =>
                      match skip_space r3 with
                      | 44 :: r4 => parse_members fuel' r4 (define acc k v)
                      | 125 :: r4 => Some (JObj (define acc k v), r4)
                      | _ => None
                      end
                  | None => None
                  end
              | _ => None
              end
          | None => None
          end
      | _ => None
      end
  end.

Definition parse (text : jsstring) : option json :=
  match parse_value (2 * List.length text + 2) text with
  | Some (v, rest) =>
      match skip_space rest with
      | [] => Some v
      | _ :: _ => None
      end
  | None => None
  end.

(** The integer a number is, when it is one. *)
Definition integer_of (n : float) : option Z :=
  match Prim2SF n with
  | S754_zero _ => Some 0%Z
  | S754_finite negative m e =>
      let magnitude :=
        if (0 <=? e)%Z then Some (Z.pos m * 2 ^ e)%Z
        else if (Z.pos m mod 2 ^ (- e) =? 0)%Z then Some (Z.pos m / 2 ^ (- e))%Z
        else None in
      option_map (fun z => if negative then (- z)%Z else z) magnitude
  | _ => None
  end.

Definition digits (n : N) : jsstring :=
  lit (NilEmpty.string_of_uint (N.to_uint n)).

Definition print_number (n : float) : jsstring :=
  match integer_of n with
  | Some z =>
      if (z <? 0)%Z then 45 :: digits (Z.to_N (- z)) else digits (Z.to_N z)
  | None =>
      if PrimFloat.is_nan n then lit "NaN"
      else if PrimFloat.ltb n 0%float then lit "-Infinity" else lit "Infinity"
  end.

Fixpoint quote_chars (s : jsstring) : jsstring :=
  match s with
  | [] => []
  | c :: s' =>
      let escape (u : N) :=
        [BACKSLASH; 117; hex_digit (N.shiftr u 12); hex_digit (N.land (N.shiftr u 8) 15);
         hex_digit (N.land (N.shiftr u 4) 15); hex_digit (N.land u 15)] in
      if c =? 8 then BACKSLASH :: 98 :: quote_chars s'
      else if c =? 9 then BACKSLASH :: 116 :: quote_chars s'
      else if c =? 10 then BACKSLASH :: 110 :: quote_chars s'
      else if c =? 12 then BACKSLASH :: 102 :: quote_chars s'
      else if c =? 13 then BACKSLASH :: 114 :: quote_chars s'
      else if c =? QUOTE then BACKSLASH :: QUOTE :: quote_chars s'
      else if c =? BACKSLASH then BACKSLASH :: BACKSLASH :: quote_chars s'
      else if c <? 32 then escape c ++ quote_chars s'
      else if is_high_surrogate c then
        match s' with
        | c2 :: s'' =>
            if is_low_surrogate c2 then c :: c2 :: quote_chars s''
            else escape c ++ quote_chars s'
        | [] => escape c
        end
      else if is_low_surrogate c then escape c ++ quote_chars s'
      else c :: quote_chars s'
  end.

Definition quote (s : jsstring) : jsstring := QUOTE :: quote_chars s ++ [QUOTE].

Fixpoint stringify (v : json) : jsstring :=
  match v with
  | JNull => lit "null"
  | JBool true => lit "true"
  | JBool false => lit "false"
  | JNum n =>
      match integer_of n with
      | Some _ => print_number n
      | None => lit "null"
      end
  | JStr s => quote s
  | JArr items =>
      91 :: join [44] (map stringify items) ++ [93]
  | JObj props =>
      123 :: join [44] (map (fun kv => quote (fst kv) ++ 58 :: stringify (snd kv)) props)
        ++ [125]
  end.

Definition string_to_number (s : jsstring) : float :=
  match trim s with
  | [] => 0%float
  | t =>
      match parse_number t with
      | Some (n, []) => n
      | _ => PrimFloat.nan
      end
  end.

Definition EPOCH : N := 1700000000000.

Definition runtime : Builtins := {|
  JSON_parse := parse;
  JSON_stringify := stringify;
  Date_now := fun k => float_of_N (EPOCH + N.of_nat k);
  Number_toString := print_number;
  StringToNumber := string_to_number
|}.

End Reference.

(** ** The earlier version of the route: whole-content frames

    The second copy of the route reads frames that carry the whole text so
    far ([{"agent": {"messages": [..., {"content": ...}]}}], or
    [{"output": ...}], or a bare JSON string) and sends the part that is new.
    Its handler is the same up to the backend call ([prelude]). *)

Module Legacy.

(** The frames this version writes, by their [type]. *)
Inductive Event :=
| message_start (messageId : jsstring)
| text_delta (textDelta : jsstring)
| finish
| data_chat_title (title : jsstring).

Definition event_object (e : Event) : json :=
  match e with
  | message_start messageId =>
      JObj [field "type" (JStr (lit "message-start"));
            field "message"
              (JObj [field "id" (JStr messageId); field "role" (JStr (lit "assistant"));
                     field "parts" (JArr [])])]
  | text_delta delta =>
      JObj [field "type" (JStr (lit "text-delta")); field "textDelta" (JStr delta)]
  | finish =>
      JObj [field "type" (JStr (lit "finish")); field "finishReason" (JStr (lit "stop"))]
  | data_chat_title title =>
      JObj [field "type" (JStr (lit "data-chat-title")); field "data" (JStr title)]
  end.

(** The generator's variables: [decoder], [buffer], [lastContent]. *)
Record Session := {
  decoder : TextDecoder;
  buffer : jsstring;
  lastContent : jsstring
}.

Definition Session_new : Session :=
  {| decoder := TextDecoder_new; buffer := []; lastContent := [] |}.

Section Transcoder.
Context {rt : Builtins}.

Definition sse (e : Event) : jsstring :=
  lit "data: " ++ JSON_stringify (event_object e) ++ [LF; LF].

(** [messages[messages.length - 1]]; the outer [None] when it throws. *)
Definition last_of (messages : json) : option jsval :=
  match messages with
  | JArr items => Some (last (map Some items) None)
  | JStr s => Some (last (map (fun c => Some (JStr [c])) s) None)
  | JObj props =>
      match ToNumber (own props (lit "length")) with
      | Some n => Some (own props (Number_toString (PrimFloat.sub n 1%float)))
      | None => None
      end
  | _ => Some None
  end.

(** [v?.k] *)
Definition optional_prop (v : jsval) (k : string) : jsval :=
  match v with
  | None => None
  | Some JNull => None
  | Some w => prop w k
  end.

(** The variable [content] after the three cases that fill it, for a
    parsed payload other than [null]; the outer [None] when reading it
    throws. *)
Definition extract_content (parsed : json) : option jsval :=
  let messages := optional_prop (prop parsed "agent") "messages" in
  if truthy messages then
    match messages with
    | Some ms =>
        match last_of ms with
        | Some lastMessage =>
            match optional_prop lastMessage "content" with
            | Some (JStr (c :: rest)) => Some (Some (JStr (c :: rest)))
            | _ => Some None
            end
        | None => None
        end
    | None => Some None
    end
  else if truthy (prop parsed "output") then Some (prop parsed "output")
  else
    match parsed with
    | JStr s => Some (Some parsed)
    | _ => Some None
    end.

(** [if (content && content !== lastContent) { ... }]: the new
    [lastContent] and the events yielded.  A [content] that is not a string
    has no [startsWith]; the call throws and the payload is dropped. *)
Definition send_new (last_content : jsstring) (content : jsval)
  : jsstring * list Event :=
  match content with
  | Some (JStr content) =>
      if negb (str_eqb content []) && negb (str_eqb content last_content) then
        let delta :=
          if startsWith last_content content
          then slice (List.length last_content) content
          else content in
        if negb (str_eqb delta []) then (content, [text_delta delta])
        else (last_content, [])
      else (last_content, [])
  | _ => (last_content, [])
  end.

Definition transcode (last_content : jsstring) (data : jsstring)
  : jsstring * list Event :=
  if str_eqb data (lit "[DONE]") then (last_content, [finish])
  else
    match JSON_parse data with
    | None => (last_content, [])
    | Some JNull => (last_content, [])
    | Some parsed =>
        match extract_content parsed with
        | Some content => send_new last_content content
        | None => (last_content, [])
        end
    end.

Definition process_line (acc : jsstring * list Event) (line : jsstring)
  : jsstring * list Event :=
  let '(last_content, out) := acc in
  match payload line with
  | Some data =>
      let '(last_content', evs) := transcode last_content data in
      (last_content', out ++ evs)
  | None => acc
  end.

Definition read_step (acc : Session * list Event) (value : list byte)
  : Session * list Event :=
  let '(s, out) := acc in
  let '(decoder', text) := TextDecoder_decode (decoder s) value in
  let lines := split_LF (buffer s ++ text) in
  let buffer' := last lines [] in
  let '(last_content, out') :=
    fold_left process_line (removelast lines) (lastContent s, out) in
  ({| decoder := decoder'; buffer := buffer'; lastContent := last_content |}, out').

Definition transcoded (body : option Body) : list Event * Completion :=
  match body with
  | None => ([], Threw)
  | Some b =>
      let '(_, out) := fold_left read_step (chunks b) (Session_new, []) in
      (out, if read_fails b then Threw else Returned)
  end.

(** [transformBackendStream(backendResponse)]: the byte chunks it yields. *)
Definition transformBackendStream (body : option Body) : list (list byte) * Completion :=
  let '(events, completion) := transcoded body in
  (map (fun e => TextEncoder_encode (sse e)) events, completion).

(** The rest of [s] after the leftmost occurrence of [p]. *)
Fixpoint after_first (p s : jsstring) : option jsstring :=
  if startsWith p s then Some (skipn (List.length p) s)
  else
    match s with
    | [] => None
    | _ :: s' => after_first p s'
    end.

(** The longest run without a quote, when a quote ends it. *)
Fixpoint up_to_quote (s : jsstring) : option jsstring :=
  match s with
  | [] => None
  | c :: s' =>
      if c =? 34 then Some []
      else option_map (cons c) (up_to_quote s')
  end.

(** [chunkStr.match(re)] for the pattern of the source, which is the key
    [textDelta] in quotes, a colon, and a quoted run of characters other
    than the quote: the captured run. *)
Definition match_textDelta (chunkStr : jsstring) : option jsstring :=
  match after_first ([34] ++ lit "textDelta" ++ [34; 58; 34]) chunkStr with
  | Some rest => up_to_quote rest
  | None => None
  end.

(** The loop body of [start]: the controller and [fullContent] after the
    chunk; [None] when [enqueue] throws. *)
Definition forward (acc : option (Controller * jsstring)) (chunk : list byte)
  : option (Controller * jsstring) :=
  match acc with
  | None => None
  | Some (c, content) =>
      match controller_enqueue c chunk with
      | None => None
      | Some c' =>
          match match_textDelta (TextDecoder_decode_all chunk) with
          | Some captured => Some (c', content ++ captured)
          | None => Some (c', content)
          end
      end
  end.

(** [start(controller)]: the controller at the end and the effects
    performed.  Whatever is thrown inside ends in [controller.error]. *)
Definition start (env : Env) (chatId : jsstring) (titlePromise : option jsstring)
  (body : option Body) : Controller * list Effect :=
  let assistantMessageId := generateUUID env 0 in
  match controller_enqueue Controller_new
          (TextEncoder_encode (sse (message_start assistantMessageId))) with
  | None => (controller_error Controller_new, [])
  | Some c1 =>
      let '(yielded, completion) := transformBackendStream body in
      match fold_left forward yielded (Some (c1, [])), completion with
      | Some (c2, content), Returned =>
          let saved :=
            if negb (str_eqb content []) then
              [SaveMessages [assistant_message chatId assistantMessageId content]]
            else [] in
          match titlePromise with
          | Some title =>
              match controller_enqueue c2 (TextEncoder_encode (sse (data_chat_title title))) with
              | Some c3 =>
                  match controller_close c3 with
                  | Some c4 => (c4, saved ++ [UpdateChatTitle chatId title])
                  | None => (controller_error c3, saved ++ [UpdateChatTitle chatId title])
                  end
              | None => (controller_error c2, saved)
              end
          | None =>
              match controller_close c2 with
              | Some c3 => (c3, saved)
              | None => (controller_error c2, saved)
              end
          end
      | Some (c2, _), Threw => (controller_error c2, [])
      | None, _ => (controller_error c1, [])
      end
  end.

Local Open Scope handler_scope.

Definition POST (env : Env) : Response * list Effect :=
  run (
    passed <- prelude env ;;
    let '(rb, titlePromise, body) := passed in
    let '(sink, effects) := start env (id rb) titlePromise body in
    fun done => (inr (StreamResponse sink), done ++ effects)).

Local Close Scope handler_scope.

End Transcoder.

End Legacy.

(** ** DELETE

    The handler that deletes a chat reads the same in both versions of the
    route. *)

Inductive DeleteResponse :=
| DeleteRefused (code : ErrorCode)
(** [Response.json(deletedChat, { status: 200 })] *)
| DeletedChat (deletedChat : Chat).

(** What [DELETE] reads from outside. *)
Record DeleteEnv := {
  (** [(await auth())?.user] *)
  delete_session_user : option User;
  (** [getChatById({ id })] *)
  getChatById : jsstring -> option Chat;
  (** what [deleteChatById({ id })] resolves with *)
  deleteChatById : jsstring -> Chat
}.

(** [DELETE(request)], for the [id] parameter of the request's URL ([None]
    when the URL has none): the response, and the ids [deleteChatById] was
    called with. *)
Definition DELETE (env : DeleteEnv) (idParam : option jsstring)
  : DeleteResponse * list jsstring :=
  match idParam with
  | None | Some [] => (DeleteRefused bad_request_api, [])
  | Some chatId =>
      match delete_session_user env with
      | None => (DeleteRefused unauthorized_chat, [])
      | Some user =>
          let owner :=
            match getChatById env chatId with
            | Some chat => str_eqb (chat_userId chat) (user_id user)
            | None => false
            end in
          if negb owner then (DeleteRefused forbidden_chat, [])
          else (DeletedChat (deleteChatById env chatId), [chatId])
      end
  end.

(** ** The chat page

    The server component [ChatPage] of the page of one chat: what it
    answers a visitor with.  [redirect] and [notFound] do not return. *)

Module ChatPage.

Record StoredChat := {
  chat_id : jsstring;
  userId : jsstring;
  visibility : jsstring
}.

Section Page.
(** The type of [convertToUIMessages(messagesFromDb)], a function of
    [lib/utils], and the constant [DEFAULT_CHAT_MODEL] of [lib/ai/models]. *)
Variable UIMessages : Type.
Variable DEFAULT_CHAT_MODEL : jsstring.

(** The props of [<Chat>]. *)
Record ChatProps := {
  autoResume : bool;
  id : jsstring;
  initialChatModel : jsstring;
  initialMessages : UIMessages;
  initialVisibilityType : jsstring;
  isReadonly : bool
}.

Inductive Outcome :=
| Redirect (path : jsstring)
| NotFound
| Rendered (props : ChatProps).

Record Inputs := {
  (** [getChatById({ id })] *)
  chat : option StoredChat;
  (** [auth()]: no session, or a session and its [user], if any *)
  session : option (option User);
  (** [convertToUIMessages(await getMessagesByChatId({ id }))] *)
  uiMessages : UIMessages;
  (** the [value] of the cookie [chat-model], when there is such a cookie *)
  chatModelFromCookie : option jsstring
}.

(** [session?.user?.id !== chat.userId], with a session *)
Definition not_owner (user : option User) (c : StoredChat) : bool :=
  match user with
  | Some u => negb (str_eqb (user_id u) (userId c))
  | None => true
  end.

Definition ChatPage (i : Inputs) : Outcome :=
  match chat i with
  | None => Redirect (lit "/")
  | Some c =>
  match session i with
  | None => Redirect (lit "/api/auth/guest")
  | Some user =>
  if str_eqb (visibility c) (lit "private")
     && match user with
        | None => true
        | Some u => negb (str_eqb (user_id u) (userId c))
        end
  then NotFound
  else
  match chatModelFromCookie i with
  | None =>
      Rendered
        {| autoResume := false;
           id := chat_id c;
           initialChatModel := DEFAULT_CHAT_MODEL;
           initialMessages := uiMessages i;
           initialVisibilityType := visibility c;
           isReadonly := not_owner user c |}
  | Some value =>
      Rendered
        {| autoResume := false;
           id := chat_id c;
           initialChatModel := value;
           initialMessages := uiMessages i;
           initialVisibilityType := visibility c;
           isReadonly := not_owner user c |}
  end
  end
  end.

End Page.

End ChatPage.

(** ** The list of messages

    [components/messages.tsx]: what [PureMessages] and [WorkingIndicator]
    render, as the list of the children with their props.  Class names and
    event handlers are left out; what the hook [useMessages] returns is an
    input. *)

Module Messages.

Record Indicator := {
  label : jsstring;
  emojiDisplay : jsstring
}.

(** The six emoji of the source, by their code units: hammer, wrench, gear,
    hammer and wrench, pick, screwdriver (the third, fourth and fifth are
    followed by the variation selector U+FE0F). *)
Definition workEmojis : list jsstring :=
  [[55357; 56616]; [55357; 56615]; [9881; 65039]; [55357; 57056; 65039];
   [9935; 65039]; [55358; 56987]].

(** [items.slice(0, end)] for an integer [end]; a negative [end] counts
    from the end of the array. *)
Definition slice_to {A} (final : Z) (items : list A) : list A :=
  let len := Z.of_nat (List.length items) in
  let k := if (final <? 0)%Z then Z.max (len + final) 0 else Z.min final len in
  firstn (Z.to_nat k) items.

(** [WorkingIndicator({ heartbeatCount })] for an integer count; [None] is
    [null]. *)
Definition WorkingIndicator (heartbeatCount : Z) : option Indicator :=
  if (heartbeatCount =? 0)%Z then None
  else
    Some {| label := [27491; 22312; 21162; 21147; 24037; 20316];
            emojiDisplay :=
              join (lit " ")
                (slice_to (Z.min heartbeatCount (Z.of_nat (List.length workEmojis)))
                   workEmojis) |}.

Record Vote := {
  vote_chatId : jsstring;
  messageId : jsstring;
  isUpvoted : bool
}.

(** A part of a message, as far as the component looks at it: [state] is
    [None] when the part has no such property. *)
Record UIPart := {
  state : option jsstring
}.

Record UIMessage := {
  ui_id : jsstring;
  ui_parts : option (list UIPart)
}.

Record MessagesProps := {
  heartbeatCount : Z;
  status : jsstring;
  votes : option (list Vote);
  messages : list UIMessage;
  isReadonly : bool
}.

(** What [useMessages({ status })] returns, as far as it is rendered. *)
Record UseMessages := {
  isAtBottom : bool;
  hasSentMessage : bool
}.

Record PreviewMessageProps := {
  key : jsstring;
  message : UIMessage;
  isLoading : bool;
  preview_isReadonly : bool;
  requiresScrollPadding : bool;
  vote : option Vote
}.

Inductive Element :=
| Greeting
| PreviewMessage (props : PreviewMessageProps)
| ThinkingMessage
| Working (rendered : option Indicator).

(** [items.map((item, index) => f(item, index))], counting from [index]. *)
Fixpoint map_indexed {A B} (f : A -> nat -> B) (index : nat) (items : list A) : list B :=
  match items with
  | [] => []
  | item :: rest => f item index :: map_indexed f (S index) rest
  end.

(** [part => "state" in part && part.state === "approval-responded"] *)
Definition approval_responded (part : UIPart) : bool :=
  match state part with
  | Some s => str_eqb s (lit "approval-responded")
  | None => false
  end.

(** [msg => msg.parts?.some(...)], as a condition *)
Definition has_approval_response (msg : UIMessage) : bool :=
  match ui_parts msg with
  | Some ps => existsb approval_responded ps
  | None => false
  end.

Definition preview (p : MessagesProps) (hooks : UseMessages) (m : UIMessage) (index : nat)
  : PreviewMessageProps :=
  {| key := ui_id m;
     message := m;
     isLoading :=
       str_eqb (status p) (lit "streaming")
       && (Z.of_nat (List.length (messages p)) - 1 =? Z.of_nat index)%Z;
     preview_isReadonly := isReadonly p;
     requiresScrollPadding :=
       hasSentMessage hooks
       && (Z.of_nat index =? Z.of_nat (List.length (messages p)) - 1)%Z;
     vote :=
       match votes p with
       | Some vs => find (fun v => str_eqb (messageId v) (ui_id m)) vs
       | None => None
       end |}.

(** The children of the list, in order, and whether the button that
    scrolls to the bottom is hidden. *)
Definition PureMessages (p : MessagesProps) (hooks : UseMessages) : list Element * bool :=
  ((if (List.length (messages p) =? 0)%nat then [Greeting] else [])
     ++ map PreviewMessage (map_indexed (preview p hooks) 0 (messages p))
     ++ (if str_eqb (status p) (lit "submitted")
            && negb (existsb has_approval_response (messages p))
         then [ThinkingMessage] else [])
     ++ (if str_eqb (status p) (lit "streaming")
         then [Working (WorkingIndicator (heartbeatCount p))] else []),
   isAtBottom hooks).

End Messages.

(** ** The consumer of the response

    The client that reads the response may cancel it while the handler is
    still writing.  From then on the stream is closed to the handler:
    [controller.enqueue] and [controller.close] throw, [controller.error]
    does nothing, and nothing more is written. *)

Definition controller_cancel (c : Controller) : Controller :=
  {| written := written c; closed := true |}.

(** A consumer is given by the number of chunks it takes before it
    cancels; [None] is the consumer that stays to the end.  It acts
    between the calls of the handler: this is the controller as the
    handler finds it at its next call. *)
Definition consumer_acts (cancel_at : option nat) (c : Controller) : Controller :=
  match cancel_at with
  | Some n => if (n <=? List.length (written c))%nat then controller_cancel c else c
  | None => c
  end.

(** The [start] of the earlier route against a consumer.  Its calls of
    [controller.enqueue] and [controller.close] are not guarded: one that
    throws leaves the loop, or the statements after it, for the [catch],
    which calls [controller.error]. *)
Section EarlierStartAndConsumer.
Context {rt : Builtins}.
Variable cancel_at : option nat.

(** The loop body: the controller, [fullContent], and whether
    [controller.enqueue] has thrown, which ends the loop. *)
Definition legacy_forward_against (acc : Controller * jsstring * bool) (chunk : list byte)
  : Controller * jsstring * bool :=
  let '(c, content, thrown) := acc in
  if thrown then acc
  else
    match controller_enqueue (consumer_acts cancel_at c) chunk with
    | None => (consumer_acts cancel_at c, content, true)
    | Some c' =>
        match Legacy.match_textDelta (TextDecoder_decode_all chunk) with
        | Some captured => (c', content ++ captured, false)
        | None => (c', content, false)
        end
    end.

Definition legacy_start_against (env : Env) (chatId : jsstring)
  (titlePromise : option jsstring) (body : option Body) : Controller * list Effect :=
  let assistantMessageId := generateUUID env 0 in
  let c0 := consumer_acts cancel_at Controller_new in
  match controller_enqueue c0
          (TextEncoder_encode (Legacy.sse (Legacy.message_start assistantMessageId))) with
  | None => (controller_error c0, [])
  | Some c1 =>
      let '(yielded, completion) := Legacy.transformBackendStream body in
      let '(c2, content, thrown) :=
        fold_left legacy_forward_against yielded (c1, [], false) in
      if thrown then (controller_error c2, [])
      else
        match completion with
        | Threw => (controller_error (consumer_acts cancel_at c2), [])
        | Returned =>
            let saved :=
              if negb (str_eqb content []) then
                [SaveMessages [assistant_message chatId assistantMessageId content]]
              else [] in
            match titlePromise with
            | Some title =>
                match controller_enqueue (consumer_acts cancel_at c2)
                        (TextEncoder_encode (Legacy.sse (Legacy.data_chat_title title))) with
                | Some c3 =>
                    match controller_close (consumer_acts cancel_at c3) with
                    | Some c4 => (c4, saved ++ [UpdateChatTitle chatId title])
                    | None =>
                        (controller_error (consumer_acts cancel_at c3),
                         saved ++ [UpdateChatTitle chatId title])
                    end
                | None => (controller_error (consumer_acts cancel_at c2), saved)
                end
            | None =>
                match controller_close (consumer_acts cancel_at c2) with
                | Some c3 => (c3, saved)
                | None => (controller_error (consumer_acts cancel_at c2), saved)
                end
            end
        end
  end.

End EarlierStartAndConsumer.

(** ** Vocabulary of the properties *)

(** The loop of either generator, for any per-line action [on_line] on a
    state [St]: decode the chunk, split the buffer, keep the last segment,
    run the action over the complete lines. *)
Section LineReader.
Variable St : Type.
Variable on_line : St -> jsstring -> St.

Definition reader_step (acc : TextDecoder * jsstring * St) (value : list byte)
  : TextDecoder * jsstring * St :=
  let '(d, buf, st) := acc in
  let '(d', text) := TextDecoder_decode d value in
  let lines := split_LF (buf ++ text) in
  (d', last lines [], fold_left on_line (removelast lines) st).

End LineReader.

Definition payload_list (line : jsstring) : list jsstring :=
  match payload line with
  | Some data => [data]
  | None => []
  end.

(** The SSE frame decoder on its own: the payloads ([data]) the loop hands
    to the transcoder, in order, for the chunks read. *)
Definition decoded_payloads (chunks : list (list byte)) : list jsstring :=
  snd (fold_left (reader_step (fun out line => out ++ payload_list line)) chunks
         (TextDecoder_new, [], [])).

(** The transcoder over a sequence of payloads. *)
Definition transcode_all {rt : Builtins} (textId : jsstring)
  (acc : bool * nat * list NormalizedEvent) (payloads : list jsstring)
  : bool * nat * list NormalizedEvent :=
  fold_left
    (fun acc data =>
       let '(started, now, out) := acc in
       let '(started', now', evs) := transcode textId started now data in
       (started', now', out ++ evs))
    payloads acc.

(** The frames written for a list of events. *)
Definition frames_of {rt : Builtins} (events : list NormalizedEvent) : list SinkOp :=
  map (fun e => Enqueue (TextEncoder_encode (sse e))) events.

(** The events the current route sends for a backend response. *)
Definition client_events {rt : Builtins} (env : Env) (body : option Body)
  : list NormalizedEvent :=
  let '(events, completion) := transcoded (generateUUID env 1) body in
  Start (generateUUID env 0)
    :: events
    ++ match completion with
       | Returned => []
       | Threw => [Error (JStr stream_error_text)]
       end
    ++ [Finish (lit "stop"); Done].

(** The ordering invariant of the normalized event stream. *)
Definition ordering_invariant (events : list NormalizedEvent) : Prop :=
  (forall pre i delta post,
      events = pre ++ TextDelta i delta :: post -> In (TextStart i) pre)
  /\ (forall pre i post,
         events = pre ++ TextEnd i :: post ->
         (forall delta, ~ In (TextDelta i delta) post) /\ ~ In (TextEnd i) post)
  /\ (exists pre reason,
         events = pre ++ [Finish reason; Done]
         /\ (forall r, ~ In (Finish r) pre) /\ ~ In Done pre).

(** The frames of the earlier route that are normalized events: [finish]
    has the wire form of [Finish]; its [text-delta] carries no [id] and
    names its text [textDelta], and the two other frames are of no
    normalized type. *)
Definition legacy_normalized (e : Legacy.Event) : list NormalizedEvent :=
  match e with
  | Legacy.finish => [Finish (lit "stop")]
  | _ => []
  end.

Definition legacy_frames_of {rt : Builtins} (events : list Legacy.Event) : list SinkOp :=
  map (fun e => Enqueue (TextEncoder_encode (Legacy.sse e))) events.

(** A payload that is a node-tagged content frame with node [node] and
    content [content]. *)
Definition content_frame {rt : Builtins} (data node content : jsstring) : Prop :=
  str_eqb data (lit "[DONE]") = false
  /\ exists parsed,
       JSON_parse data = Some parsed
       /\ prop parsed "node" = Some (JStr node)
       /\ prop parsed "content" = Some (JStr content)
       /\ is_string (prop parsed "type") "ping" = false.

Definition agent_or_model (node : jsstring) : Prop :=
  node = lit "agent" \/ node = lit "model".

(** The chunk of an event parses back to a value with the [type] and the
    [delta] of the object it was built from (as [JSON.parse] does with what
    [JSON.stringify] printed). *)
Definition reparses {rt : Builtins} (e : NormalizedEvent) : Prop :=
  match event_object e with
  | Some o =>
      exists parsed,
        JSON_parse (trim (slice 6 (sse e))) = Some parsed
        /\ prop parsed "type" = prop o "type"
        /\ prop parsed "delta" = prop o "delta"
  | None => True
  end.

(** A call of [saveMessages] that stores an assistant message. *)
Definition is_assistant_save (e : Effect) : bool :=
  match e with
  | SaveMessages messages =>
      existsb (fun m => str_eqb (db_role m) (lit "assistant")) messages
  | _ => false
  end.

(** The delta against [lastEmitted], in the words of the specification:
    nothing for equal content, the suffix for a prefix-extension, the whole
    new content otherwise. *)
Definition spec_delta (lastEmitted content : jsstring) : jsstring :=
  if str_eqb content lastEmitted then []
  else if startsWith lastEmitted content then skipn (List.length lastEmitted) content
  else content.

(** One step of whole-content diffing in the words of the specification: a
    non-empty delta is emitted and [lastEmitted] becomes the new content. *)
Definition spec_diff_step (lastEmitted content : jsstring)
  : jsstring * list Legacy.Event :=
  match spec_delta lastEmitted content with
  | [] => (lastEmitted, [])
  | delta => (content, [Legacy.text_delta delta])
  end.

(** A text-typed part's text, in the words of the specification: the text
    of a part whose type is text, nothing for any other part. *)
Definition spec_part_text (p : Part) : option jsstring :=
  if str_eqb (part_type p) (lit "text") then part_text p else None.

(** The texts of the text-typed parts of a message, in order. *)
Fixpoint spec_texts (ps : list Part) : list jsstring :=
  match ps with
  | [] => []
  | p :: rest =>
      match spec_part_text p with
      | Some t => t :: spec_texts rest
      | None => spec_texts rest
      end
  end.

(** The text of a message in the words of the specification: the text of
    every text-typed part, in order, with a newline between one and the
    next, the other parts being ignored.  It is written by recursion on
    the parts, apart from the functions of the route. *)
Fixpoint spec_message_text (ps : list Part) : jsstring :=
  match ps with
  | [] => []
  | p :: rest =>
      match spec_part_text p with
      | None => spec_message_text rest
      | Some t =>
          match spec_texts rest with
          | [] => t
          | _ :: _ => t ++ LF :: spec_message_text rest
          end
      end
  end.

(** Modelled from the spec: the class of an error response.  The status of
    a [ChatSDKError] is fixed in [lib/errors], which is not among the
    sources; the specification counts the request-validation, authorization
    and rate-limit errors as errors of the client and [offline] as the
    backend being unavailable. *)
Definition client_error (code : ErrorCode) : bool :=
  match code with
  | bad_request_api | unauthorized_chat | rate_limit_chat | forbidden_chat => true
  | offline_chat => false
  end.

Definition is_fetch (e : Effect) : bool :=
  match e with
  | Fetch _ _ => true
  | _ => false
  end.

(** The request passes every check before the text is looked at. *)
Definition reaches_validation (env : Env) (rb : PostRequestBody) (user : User) : Prop :=
  request_body env = Some rb
  /\ configured (RENDER_BACKEND_URL env) = true
  /\ session_user env = Some user
  /\ (messageCount env <= maxMessagesPerDay env (user_type user))
  /\ (forall chat, stored_chat env = Some chat -> chat_userId chat = user_id user).

(** What the handler has stored when it reaches the text validation. *)
Definition stored_before_validation (env : Env) (rb : PostRequestBody) (user : User)
  (m : ChatMessage) : list Effect :=
  match stored_chat env with
  | Some _ => []
  | None =>
      [SaveChat (id rb) (user_id user) (lit "New chat") (selectedVisibilityType rb);
       GenerateTitle m]
  end
  ++ [SaveMessages [user_message (id rb) m]].

(** The title promise and the effects of the handler when it reaches the
    text validation. *)
Definition title_promise (env : Env) (rb : PostRequestBody) : option jsstring :=
  match stored_chat env, message rb with
  | None, Some m =>
      if str_eqb (role m) (lit "user") then Some (generated_title env) else None
  | _, _ => None
  end.

Definition effects_before_validation (env : Env) (rb : PostRequestBody) (user : User)
  : list Effect :=
  match message rb with
  | Some m =>
      if str_eqb (role m) (lit "user") then stored_before_validation env rb user m
      else []
  | None => []
  end.

(** [callRenderBackend] throws: the request is rejected or the status is
    not a success. *)
Definition backend_call_throws (env : Env) : Prop :=
  fetch env = FetchRejected
  \/ exists status body, fetch env = FetchResponse status body /\ ok status = false.

(** The sink holds [Start], one text span with one [TextDelta] per frame
    carrying that frame's content, [Finish], [Done], and is closed. *)
Definition one_span_written {rt : Builtins} (env : Env) (chatId : jsstring)
  (titlePromise : option jsstring) (pieces : list (list byte))
  (frames : list (jsstring * jsstring)) : Prop :=
  written
    (fst (start env chatId titlePromise
            (Some {| chunks := pieces; read_fails := false |})))
  = frames_of
      ([Start (generateUUID env 0); TextStart (generateUUID env 1)]
         ++ map (fun f => TextDelta (generateUUID env 1) (snd f)) frames
         ++ [TextEnd (generateUUID env 1); Finish (lit "stop"); Done])
    ++ [Close].

Definition is_close (op : SinkOp) : bool :=
  match op with
  | Close => true
  | _ => false
  end.

(** ** Notions used in the proofs *)

(** Pushing a code unit onto the first segment. *)
Definition onto_first (c : N) (segs : list jsstring) : list jsstring :=
  match segs with
  | seg :: rest => (c :: seg) :: rest
  | [] => [[c]]
  end.

(** The generator's variables as a state of the line reader. *)
Definition pack (x : TextDecoder * jsstring * (bool * nat * list NormalizedEvent))
  : Session * list NormalizedEvent :=
  let '(d, buf, (started, now, out)) := x in
  ({| decoder := d; buffer := buf; textStarted := started; clock := now |}, out).

(** The complete lines of a body, whatever its chunking. *)
Definition complete_lines (chunks : list (list byte)) : list jsstring :=
  removelast (split_LF (snd (TextDecoder_decode TextDecoder_new (concat chunks)))).

(** The sink is open and holds the operations [w]. *)
Definition open_with (m : Mux) (w : list SinkOp) : Prop :=
  isClosed m = false /\ closed (controller m) = false /\ written (controller m) = w.

(** Events outside a text span. *)
Definition quiet (e : NormalizedEvent) : Prop :=
  match e with
  | Heartbeat _ | Error _ => True
  | _ => False
  end.

(** Events inside the text span [t]. *)
Definition flowing (t : jsstring) (e : NormalizedEvent) : Prop :=
  match e with
  | Heartbeat _ | Error _ => True
  | TextDelta i _ => i = t
  | _ => False
  end.

(** What one payload may add to the output, from either state. *)
Definition step_shape (t : jsstring) (started : bool)
  (r : bool * nat * list NormalizedEvent) : Prop :=
  let '(started', _, evs) := r in
  (started = true -> started' = true /\ Forall (flowing t) evs)
  /\ (started = false ->
      (started' = false /\ Forall quiet evs)
      \/ (started' = true /\ exists d, evs = [TextStart t; TextDelta t d])).

(** What a run of payloads may add to the output, from either state. *)
Definition span_shape (t : jsstring) (started started' : bool)
  (evs : list NormalizedEvent) : Prop :=
  (started = true -> started' = true /\ Forall (flowing t) evs)
  /\ (started = false ->
      (started' = false /\ Forall quiet evs)
      \/ (started' = true
          /\ exists pre d post,
               evs = pre ++ TextStart t :: TextDelta t d :: post
               /\ Forall quiet pre /\ Forall (flowing t) post)).

(** [fullContent] when the loop over the generator is over. *)
Definition content_after {rt : Builtins} (events : list NormalizedEvent)
  (completion : Completion) : jsstring :=
  match completion with
  | Returned => fold_left accumulate (map sse events) []
  | Threw => stream_error_text
  end.

(** Membership facts that contradict the shape of the events. *)
Ltac sort_out :=
  repeat match goal with
    | H : In _ (_ ++ _) |- _ => apply in_app_or in H as [H|H]
    | H : In _ (_ :: _) |- _ => destruct H as [H|H]
    | H : In _ [] |- _ => destruct H
    | H : ?a = ?b :> NormalizedEvent |- _ => discriminate H
    | F : Forall ?P ?l, H : In _ ?l |- _ =>
        let Q := fresh in pose proof (proj1 (Forall_forall P l) F _ H) as Q; clear H;
                          try contradiction Q
    end.

(** A concrete payload is a content frame, by running the parser. *)
Ltac frame_by_computation :=
  split;
  [ split; [vm_compute; reflexivity|];
    eexists; split; [vm_compute; reflexivity|];
    repeat split; vm_compute; reflexivity
  | split; [(left; reflexivity) || (right; reflexivity)|discriminate] ].

(** ** Sample data

    Concrete frames, bodies and requests, run with the [Reference]
    built-ins. *)

Module Sample.

Definition quoted (s : string) : jsstring := [34] ++ lit s ++ [34].

(** The line of a node-tagged frame and the blank line after it. *)
Definition node_frame (node content : string) : jsstring :=
  lit "data: {" ++ quoted "node" ++ lit ":" ++ quoted node ++ lit ","
    ++ quoted "content" ++ lit ":" ++ quoted content ++ lit "}" ++ [LF; LF].

(** The line of a whole-content frame of the earlier protocol. *)
Definition output_frame (content : string) : jsstring :=
  lit "data: {" ++ quoted "output" ++ lit ":" ++ quoted content ++ lit "}" ++ [LF; LF].

Definition ping_frame : jsstring :=
  lit "data: {" ++ quoted "type" ++ lit ":" ++ quoted "ping" ++ lit "}" ++ [LF; LF].

Definition done_frame : jsstring := lit "data: [DONE]" ++ [LF; LF].

(** A body delivered in one chunk. *)
Definition body_of (text : jsstring) (fails : bool) : Body :=
  {| chunks := [TextEncoder_encode text]; read_fails := fails |}.

(** A body delivered one byte per chunk. *)
Definition trickle (text : jsstring) (fails : bool) : Body :=
  {| chunks := map (fun b => [b]) (TextEncoder_encode text); read_fails := fails |}.

Definition question (text : string) : ChatMessage :=
  {| message_id := lit "m-1"; role := lit "user";
     parts := Some [{| part_type := lit "text"; part_text := Some (lit text) |}] |}.

(** A message of four parts: a text, a file, a part typed text that has no
    text, and a second text. *)
Definition mixed_parts : list Part :=
  [{| part_type := lit "text"; part_text := Some (lit "What is") |};
   {| part_type := lit "file"; part_text := Some (lit "sum.png") |};
   {| part_type := lit "text"; part_text := None |};
   {| part_type := lit "text"; part_text := Some (lit "2+2?") |}].

Definition mixed : ChatMessage :=
  {| message_id := lit "m-2"; role := lit "user"; parts := Some mixed_parts |}.

Definition request (text : string) : PostRequestBody :=
  {| id := lit "chat-1"; message := Some (question text);
     selectedVisibilityType := lit "private" |}.

Definition someone : User := {| user_id := lit "user-1"; user_type := regular |}.

Definition uuid (k : nat) : jsstring :=
  match k with
  | O => lit "assistant-1"
  | _ => lit "text-1"
  end.

(** A signed-in user, under the daily limit, asking [text] in a chat of
    their own that exists already. *)
Definition env (text : string) (outcome : FetchOutcome) : Env :=
  {| request_body := Some (request text);
     RENDER_BACKEND_URL := Some (lit "https://agent.example");
     session_user := Some someone;
     messageCount := 3;
     maxMessagesPerDay := fun _ => 100;
     stored_chat := Some {| chat_userId := lit "user-1" |};
     fetch := outcome;
     generateUUID := uuid;
     generated_title := lit "Sums" |}.

(** The same request for a chat that does not exist yet. *)
Definition env_new_chat (text : string) (outcome : FetchOutcome) : Env :=
  {| request_body := Some (request text);
     RENDER_BACKEND_URL := Some (lit "https://agent.example");
     session_user := Some someone;
     messageCount := 3;
     maxMessagesPerDay := fun _ => 100;
     stored_chat := None;
     fetch := outcome;
     generateUUID := uuid;
     generated_title := lit "Sums" |}.

End Sample.

(** ** Vocabulary of the further properties *)

Definition is_heartbeat (e : NormalizedEvent) : bool :=
  match e with
  | Heartbeat _ => true
  | _ => false
  end.

(** The payload is a keep-alive of the backend: it is not the done marker
    and parses to a value whose [type] is ping. *)
Definition is_ping {rt : Builtins} (data : jsstring) : bool :=
  negb (str_eqb data (lit "[DONE]"))
  && match JSON_parse data with
     | Some parsed => is_string (prop parsed "type") "ping"
     | None => false
     end.

(** The texts of the [TextDelta] events, in order. *)
Definition deltas_of (events : list NormalizedEvent) : list jsstring :=
  flat_map (fun e => match e with TextDelta _ delta => [delta] | _ => [] end) events.

(** A payload the transcoder passes over: the done marker, a text that
    [JSON.parse] refuses, or the JSON value [null]. *)
Definition passed_over {rt : Builtins} (data : jsstring) : Prop :=
  data = lit "[DONE]" \/ JSON_parse data = None \/ JSON_parse data = Some JNull.







(** A state of the UTF-8 decoder from which the sequence in progress, if
    any, can only end in a scalar value of more than one byte: the bits
    read so far are not all zero, or the next byte is bound to bring some. *)
Definition well_begun (d : Utf8Decoder) : bool :=
  (bytes_needed d =? 0)
  || ((bytes_seen d <? bytes_needed d)
      && (negb (code_point d =? 0)
          || ((bytes_seen d + 1 <? bytes_needed d)
              && (144 <=? lower_boundary d) && (upper_boundary d <=? 191)))).

(** The variables of the earlier generator as a state of the line reader. *)
Definition legacy_pack (x : TextDecoder * jsstring * (jsstring * list Legacy.Event))
  : Legacy.Session * list Legacy.Event :=
  let '(d, buf, (last_content, out)) := x in
  ({| Legacy.decoder := d; Legacy.buffer := buf; Legacy.lastContent := last_content |},
   out).

(** The earlier transcoder over a sequence of payloads. *)
Definition legacy_transcode_all {rt : Builtins} (acc : jsstring * list Legacy.Event)
  (payloads : list jsstring) : jsstring * list Legacy.Event :=
  fold_left
    (fun acc data =>
       let '(last_content, out) := acc in
       let '(last_content', evs) := Legacy.transcode last_content data in
       (last_content', out ++ evs))
    payloads acc.

Definition is_finish (e : Legacy.Event) : bool :=
  match e with
  | Legacy.finish => true
  | _ => false
  end.

Definition is_done_marker (data : jsstring) : bool := str_eqb data (lit "[DONE]").

(** What the pattern of the earlier [start] captures in a chunk, if it
    matches. *)
Definition captured (chunk : list byte) : jsstring :=
  match Legacy.match_textDelta (TextDecoder_decode_all chunk) with
  | Some run => run
  | None => []
  end.

(** The whole texts a backend sends when each frame repeats the text so
    far and adds a piece to it. *)
Fixpoint running (so_far : jsstring) (pieces : list jsstring) : list jsstring :=
  match pieces with
  | [] => []
  | piece :: rest => (so_far ++ piece) :: running (so_far ++ piece) rest
  end.

(** The diffing step over a sequence of whole texts. *)
Definition send_all (last_content : jsstring) (contents : list jsstring)
  : jsstring * list Legacy.Event :=
  fold_left
    (fun acc content =>
       let '(last, out) := acc in
       let '(last', evs) := Legacy.send_new last (Some (JStr content)) in
       (last', out ++ evs))
    contents (last_content, []).

Definition nonempty (s : jsstring) : bool := negb (str_eqb s []).

Definition CR : N := 13.

(** The text with a carriage return put before each of its line feeds. *)
Definition with_CR (s : jsstring) : jsstring :=
  flat_map (fun c => if c =? LF then [CR; LF] else [c]) s.

(** * Properties *)

(** ** Strings and lines *)

Lemma str_eqb_eq (a b : jsstring) : str_eqb a b = true <-> a = b.
Proof.
  revert b; induction a as [|x a IH]; intros [|y b]; simpl; split;
    try discriminate; try reflexivity.
  - intros E. apply andb_true_iff in E as [E1 E2].
    apply N.eqb_eq in E1. apply IH in E2. congruence.
  - intros E. injection E as -> ->. rewrite N.eqb_refl. simpl. now apply IH.
Qed.

Lemma str_eqb_refl (a : jsstring) : str_eqb a a = true.
Proof. now apply str_eqb_eq. Qed.

Lemma str_eqb_neq (a b : jsstring) : str_eqb a b = false <-> a <> b.
Proof.
  split.
  - intros E ->. now rewrite str_eqb_refl in E.
  - intros N. destruct (str_eqb a b) eqn:E; [|reflexivity].
    apply str_eqb_eq in E. contradiction.
Qed.

Lemma str_eqb_nil (a : jsstring) : str_eqb a [] = match a with [] => true | _ => false end.
Proof. now destruct a. Qed.

Lemma split_LF_not_nil (s : jsstring) : split_LF s <> [].
Proof.
  destruct s as [|c s]; simpl; [discriminate|].
  destruct (c =? LF); [discriminate|].
  destruct (split_LF s); discriminate.
Qed.

Lemma split_LF_cons (c : N) (s : jsstring) :
  split_LF (c :: s) = if c =? LF then [] :: split_LF s else onto_first c (split_LF s).
Proof. reflexivity. Qed.

Lemma removelast_cons_not_nil {A} (x : A) (l : list A) :
  l <> [] -> removelast (x :: l) = x :: removelast l.
Proof. destruct l; [contradiction|reflexivity]. Qed.

Lemma last_cons_not_nil {A} (x d : A) (l : list A) :
  l <> [] -> last (x :: l) d = last l d.
Proof. destruct l; [contradiction|reflexivity]. Qed.

Lemma onto_first_app (c : N) (l1 l2 : list jsstring) :
  l1 <> [] -> onto_first c (l1 ++ l2) = onto_first c l1 ++ l2.
Proof. destruct l1; [contradiction|reflexivity]. Qed.

(** Splitting a concatenation: the complete lines of the first part, then
    the lines of its unfinished rest followed by the second part. *)
Lemma split_LF_app (x y : jsstring) :
  split_LF (x ++ y)
  = removelast (split_LF x) ++ split_LF (last (split_LF x) [] ++ y).
Proof.
  induction x as [|c x IH]; [reflexivity|].
  rewrite <- app_comm_cons, !split_LF_cons.
  pose proof (split_LF_not_nil x) as Hx.
  destruct (c =? LF) eqn:Ec.
  - rewrite removelast_cons_not_nil, last_cons_not_nil by assumption.
    simpl. now rewrite IH.
  - rewrite IH. destruct (split_LF x) as [|s1 [|s2 r]]; [contradiction| |].
    + simpl. now rewrite Ec.
    + change (removelast (s1 :: s2 :: r)) with (s1 :: removelast (s2 :: r)).
      change (last (onto_first c (s1 :: s2 :: r)) []) with (last (s2 :: r) []).
      change (last (s1 :: s2 :: r) []) with (last (s2 :: r) []).
      reflexivity.
Qed.

Lemma split_LF_one (s : jsstring) : ~ In LF s -> split_LF s = [s].
Proof.
  induction s as [|c s IH]; [reflexivity|]. intros Hn.
  rewrite split_LF_cons. destruct (c =? LF) eqn:Ec.
  - apply N.eqb_eq in Ec. destruct Hn. now left.
  - rewrite IH; [reflexivity|]. intros I. apply Hn. now right.
Qed.

(** A line without a line feed, ended by one, is the first segment. *)
Lemma split_LF_line (t s : jsstring) :
  ~ In LF t -> split_LF (t ++ LF :: s) = t :: split_LF s.
Proof.
  induction t as [|c t IH]; intros Hn; [reflexivity|].
  rewrite <- app_comm_cons, split_LF_cons.
  destruct (c =? LF) eqn:Ec.
  - apply N.eqb_eq in Ec. destruct Hn. now left.
  - rewrite IH; [reflexivity|]. intros I. apply Hn. now right.
Qed.

Lemma removelast_app_not_nil {A} (l1 l2 : list A) :
  l2 <> [] -> removelast (l1 ++ l2) = l1 ++ removelast l2.
Proof. intros; now apply removelast_app. Qed.

Lemma last_app_not_nil {A} (l1 l2 : list A) (d : A) :
  l2 <> [] -> last (l1 ++ l2) d = last l2 d.
Proof.
  intros Hn. induction l1 as [|a l1 IH]; [reflexivity|].
  simpl. destruct (l1 ++ l2) eqn:E; [|exact IH].
  apply app_eq_nil in E as [_ ->]. contradiction.
Qed.

(** ** The decoder and the reading loop do not depend on the chunking *)

Lemma TextDecoder_decode_app (d : TextDecoder) (a b : list byte) :
  TextDecoder_decode d (a ++ b)
  = let '(d1, out1) := TextDecoder_decode d a in
    let '(d2, out2) := TextDecoder_decode d1 b in
    (d2, out1 ++ out2).
Proof.
  revert d; induction a as [|x a IH]; intros d; simpl.
  - now destruct (TextDecoder_decode d b).
  - destruct (decode_byte d x) as [d1 o1]. rewrite IH.
    destruct (TextDecoder_decode d1 a) as [d2 o2].
    destruct (TextDecoder_decode d2 b) as [d3 o3].
    now rewrite app_assoc.
Qed.

Section LineReaderFacts.
Variable St : Type.
Variable on_line : St -> jsstring -> St.

Lemma reader_step_app (acc : TextDecoder * jsstring * St) (a b : list byte) :
  reader_step on_line (reader_step on_line acc a) b = reader_step on_line acc (a ++ b).
Proof.
  destruct acc as [[d buf] st]. unfold reader_step.
  rewrite TextDecoder_decode_app.
  destruct (TextDecoder_decode d a) as [d1 t1].
  destruct (TextDecoder_decode d1 b) as [d2 t2].
  rewrite (app_assoc buf t1 t2), (split_LF_app (buf ++ t1) t2).
  pose proof (split_LF_not_nil (last (split_LF (buf ++ t1)) [] ++ t2)) as Hn.
  rewrite removelast_app_not_nil, last_app_not_nil, fold_left_app by assumption.
  reflexivity.
Qed.

Lemma reader_fold (chunks : list (list byte)) (acc : TextDecoder * jsstring * St)
  (a : list byte) :
  fold_left (reader_step on_line) chunks (reader_step on_line acc a)
  = reader_step on_line acc (a ++ concat chunks).
Proof.
  revert a; induction chunks as [|c chunks IH]; intros a; simpl.
  - now rewrite app_nil_r.
  - now rewrite reader_step_app, IH, app_assoc.
Qed.

Lemma reader_step_idle (d : TextDecoder) (st : St) :
  reader_step on_line (d, [], st) [] = (d, [], st).
Proof. reflexivity. Qed.

(** Reading chunk by chunk is reading the whole body at once. *)
Lemma reader_whole (chunks : list (list byte)) (d : TextDecoder) (st : St) :
  fold_left (reader_step on_line) chunks (d, [], st)
  = reader_step on_line (d, [], st) (concat chunks).
Proof.
  rewrite <- (reader_step_idle d st) at 1.
  now rewrite reader_fold.
Qed.

End LineReaderFacts.

Section TranscoderFacts.
Context {rt : Builtins}.
Variable textId : jsstring.

Lemma read_step_pack x (value : list byte) :
  read_step textId (pack x) value = pack (reader_step (process_line textId) x value).
Proof.
  destruct x as [[d buf] [[started now] out]]. unfold read_step, reader_step, pack.
  cbn [decoder buffer textStarted clock].
  destruct (TextDecoder_decode d value) as [d' text].
  now destruct (fold_left (process_line textId) _ _) as [[s n] o].
Qed.

Lemma read_loop_pack (chunks : list (list byte)) x :
  fold_left (read_step textId) chunks (pack x)
  = pack (fold_left (reader_step (process_line textId)) chunks x).
Proof.
  revert x; induction chunks as [|c chunks IH]; intros x; simpl; [reflexivity|].
  now rewrite read_step_pack, IH.
Qed.

Lemma process_lines_payloads (lines : list jsstring) acc :
  fold_left (process_line textId) lines acc
  = transcode_all textId acc (flat_map payload_list lines).
Proof.
  revert acc; induction lines as [|l lines IH]; intros acc; [reflexivity|].
  simpl. rewrite IH. unfold transcode_all. rewrite fold_left_app. f_equal.
  destruct acc as [[started now] out]. unfold process_line, payload_list.
  now destruct (payload l).
Qed.

Lemma collect_payloads (lines : list jsstring) (out : list jsstring) :
  fold_left (fun out line => out ++ payload_list line) lines out
  = out ++ flat_map payload_list lines.
Proof.
  revert out; induction lines as [|l lines IH]; intros out; simpl.
  - now rewrite app_nil_r.
  - now rewrite IH, app_assoc.
Qed.

Lemma decoded_payloads_lines (chunks : list (list byte)) :
  decoded_payloads chunks = flat_map payload_list (complete_lines chunks).
Proof.
  unfold decoded_payloads, complete_lines. rewrite reader_whole. unfold reader_step.
  destruct (TextDecoder_decode TextDecoder_new (concat chunks)) as [d text].
  simpl. now rewrite collect_payloads.
Qed.

Lemma read_loop_lines (chunks : list (list byte)) :
  exists s,
    fold_left (read_step textId) chunks (Session_new, [])
    = (s, snd (transcode_all textId (false, 0%nat, []) (decoded_payloads chunks)))
    /\ textStarted s
       = fst (fst (transcode_all textId (false, 0%nat, []) (decoded_payloads chunks))).
Proof.
  change (Session_new, @nil NormalizedEvent)
    with (pack (TextDecoder_new, [], (false, 0%nat, []))).
  rewrite read_loop_pack, reader_whole, decoded_payloads_lines.
  unfold reader_step, complete_lines.
  destruct (TextDecoder_decode TextDecoder_new (concat chunks)) as [d text].
  cbn [app snd]. rewrite process_lines_payloads.
  destruct (transcode_all textId _ _) as [[started now] out].
  eexists. split; reflexivity.
Qed.

(** The events of the generator are those of the transcoder run over the
    payloads of the frame decoder. *)
Lemma transcoded_by_payloads (b : Body) :
  transcoded textId (Some b)
  = let '(started, _, out) :=
      transcode_all textId (false, 0%nat, []) (decoded_payloads (chunks b)) in
    if read_fails b then (out, Threw)
    else (out ++ (if started then [TextEnd textId] else []), Returned).
Proof.
  unfold transcoded.
  destruct (read_loop_lines (chunks b)) as (s & -> & Hs).
  destruct (transcode_all textId _ _) as [[started now] out].
  cbn [fst snd] in *. now rewrite Hs.
Qed.

Lemma decoded_payloads_whole (chunks : list (list byte)) :
  decoded_payloads chunks = decoded_payloads [concat chunks].
Proof.
  rewrite !decoded_payloads_lines. unfold complete_lines.
  simpl. now rewrite app_nil_r.
Qed.

End TranscoderFacts.

(** C7: the frame decoder hands over the same payloads, and the generator
    yields the same strings and completes the same way, whether the
    upstream bytes arrive in chunks (of any sizes, cutting lines and
    multi-byte characters anywhere) or as one chunk. *)
Theorem chunking_independence {rt : Builtins} (pieces : list (list byte)) (fails : bool)
  (messageId textId : jsstring) :
  decoded_payloads pieces = decoded_payloads [concat pieces]
  /\ transformBackendStream (Some {| chunks := pieces; read_fails := fails |})
       messageId textId
     = transformBackendStream (Some {| chunks := [concat pieces]; read_fails := fails |})
         messageId textId.
Proof.
  split; [apply decoded_payloads_whole|].
  unfold transformBackendStream. rewrite !transcoded_by_payloads.
  cbn [chunks read_fails]. now rewrite <- decoded_payloads_whole.
Qed.

(** ** The sink *)

Section SinkFacts.
Context {rt : Builtins}.

Lemma open_new : open_with Mux_new [].
Proof. now repeat split. Qed.

Lemma safeEnqueue_open (m : Mux) (w : list SinkOp) (data : jsstring) :
  open_with m w ->
  open_with (safeEnqueue m data) (w ++ [Enqueue (TextEncoder_encode data)])
  /\ fullContent (safeEnqueue m data) = fullContent m.
Proof.
  intros (Hc & Hs & Hw). unfold safeEnqueue, controller_enqueue.
  rewrite Hc, Hs. cbn. rewrite Hw. now repeat split.
Qed.

Lemma forward_open (m : Mux) (w : list SinkOp) (chunk : jsstring) :
  open_with m w ->
  open_with (forward m chunk) (w ++ [Enqueue (TextEncoder_encode chunk)])
  /\ fullContent (forward m chunk) = accumulate (fullContent m) chunk.
Proof.
  intros Ho. destruct (safeEnqueue_open chunk Ho) as ((Hc & Hs & Hw) & Hf).
  unfold forward. cbn. rewrite Hf. now repeat split.
Qed.

Lemma forward_all_open (yielded : list jsstring) (m : Mux) (w : list SinkOp) :
  open_with m w ->
  open_with (fold_left forward yielded m)
    (w ++ map (fun chunk => Enqueue (TextEncoder_encode chunk)) yielded)
  /\ fullContent (fold_left forward yielded m)
     = fold_left accumulate yielded (fullContent m).
Proof.
  revert m w; induction yielded as [|y ys IH]; intros m w Ho; simpl.
  - now rewrite app_nil_r.
  - destruct (forward_open y Ho) as (Ho' & Hf).
    destruct (IH _ _ Ho') as (Ho'' & Hf'). rewrite <- app_assoc in Ho''.
    split; [exact Ho''|]. now rewrite Hf', Hf.
Qed.

Lemma set_fullContent_open (m : Mux) (w : list SinkOp) (s : jsstring) :
  open_with m w -> open_with (set_fullContent m s) w.
Proof. intros (Hc & Hs & Hw). now repeat split. Qed.

Lemma safeClose_open (m : Mux) (w : list SinkOp) :
  open_with m w ->
  written (controller (safeClose m)) = w ++ [Close]
  /\ closed (controller (safeClose m)) = true.
Proof.
  intros (Hc & Hs & Hw). unfold safeClose, controller_close.
  rewrite Hc, Hs. cbn. now rewrite Hw.
Qed.

(** What [start] writes: the frames of [client_events], then one close. *)
Lemma start_written (env : Env) (chatId : jsstring) (titlePromise : option jsstring)
  (body : option Body) :
  written (fst (start env chatId titlePromise body))
  = frames_of (client_events env body) ++ [Close]
  /\ closed (fst (start env chatId titlePromise body)) = true.
Proof.
  unfold start, client_events, transformBackendStream.
  destruct (transcoded (generateUUID env 1) body) as [events completion].
  cbn [fst].
  destruct (safeEnqueue_open (sse (Start (generateUUID env 0))) open_new) as (H1 & _).
  destruct (forward_all_open (map sse events) H1) as (H2 & _).
  set (m2 := fold_left forward (map sse events) _) in *.
  assert (H3 : exists m3,
             match completion with
             | Returned => m2
             | Threw =>
                 set_fullContent
                   (safeEnqueue m2 (sse (Error (JStr stream_error_text))))
                   stream_error_text
             end = m3
             /\ open_with m3
                  (frames_of
                     (Start (generateUUID env 0) :: events
                        ++ match completion with
                           | Returned => []
                           | Threw => [Error (JStr stream_error_text)]
                           end))).
  { eexists; split; [reflexivity|]. unfold frames_of. rewrite map_cons, map_app.
    rewrite map_map in H2. cbn [app] in H2.
    destruct completion; cbn [map].
    - now rewrite app_nil_r.
    - apply set_fullContent_open.
      destruct (safeEnqueue_open (sse (Error (JStr stream_error_text))) H2) as (H3 & _).
      exact H3. }
  destruct H3 as (m3 & -> & H3).
  destruct (safeEnqueue_open (sse (Finish (lit "stop"))) H3) as (H4 & _).
  destruct (safeEnqueue_open (sse Done) H4) as (H5 & _).
  destruct (safeClose_open H5) as (Hw & Hc).
  split; [|exact Hc]. rewrite Hw. unfold frames_of in *.
  rewrite !app_comm_cons, !map_app. cbn [map]. rewrite <- !app_assoc. reflexivity.
Qed.

End SinkFacts.

(** ** The shape of the transcoder's output *)

Lemma quiet_flowing (t : jsstring) (e : NormalizedEvent) : quiet e -> flowing t e.
Proof. now destruct e. Qed.

Section ShapeFacts.
Context {rt : Builtins}.
Variable t : jsstring.

Lemma step_shape_none (started : bool) (now : nat) : step_shape t started (started, now, []).
Proof. split; intros; [split|left; split]; auto. Qed.

Lemma step_shape_quiet (started : bool) (now : nat) (e : NormalizedEvent) :
  quiet e -> step_shape t started (started, now, [e]).
Proof.
  intros Q. split; intros; [split|left; split]; auto.
  constructor; [now apply quiet_flowing|constructor].
Qed.

Lemma step_shape_text (started : bool) (now : nat) (d : jsstring) :
  step_shape t started
    (true, now, (if started then [] else [TextStart t]) ++ [TextDelta t d]).
Proof.
  split; intros ->; [split; [reflexivity|]|right; split; [reflexivity|]].
  - repeat constructor.
  - now eexists.
Qed.

Lemma transcode_shape (started : bool) (now : nat) (data : jsstring) :
  step_shape t started (transcode t started now data).
Proof.
  unfold transcode.
  destruct (str_eqb data (lit "[DONE]")); [apply step_shape_none|].
  destruct (JSON_parse data) as [parsed|]; [|apply step_shape_none].
  assert (Herr : step_shape t started
            match prop parsed "error" with
            | Some e => if truthy (Some e) then (started, now, [Error e]) else (started, now, [])
            | None => (started, now, [])
            end).
  { destruct (prop parsed "error") as [e|]; [|apply step_shape_none].
    destruct (truthy (Some e)); [now apply step_shape_quiet|apply step_shape_none]. }
  assert (Hrest : step_shape t started
            (if is_string (prop parsed "type") "ping"
             then (started, S now, [Heartbeat (Date_now now)])
             else
               match prop parsed "content" with
               | Some (JStr (c :: content')) =>
                   if is_string (prop parsed "node") "agent"
                      || is_string (prop parsed "node") "model"
                   then (true, now,
                         (if started then [] else [TextStart t])
                           ++ [TextDelta t (c :: content')])
                   else (started, now, [])
               | _ =>
                   match prop parsed "error" with
                   | Some e =>
                       if truthy (Some e) then (started, now, [Error e])
                       else (started, now, [])
                   | None => (started, now, [])
                   end
               end)).
  { destruct (is_string (prop parsed "type") "ping"); [now apply step_shape_quiet|].
    destruct (prop parsed "content") as [[| | |[|c content']| |]|]; try exact Herr.
    destruct (is_string (prop parsed "node") "agent" || is_string (prop parsed "node") "model");
      [apply step_shape_text|apply step_shape_none]. }
  destruct parsed; exact Hrest.
Qed.

Lemma transcode_all_shape (payloads : list jsstring) (started : bool) (now : nat)
  (out : list NormalizedEvent) :
  exists started' now' evs,
    transcode_all t (started, now, out) payloads = (started', now', out ++ evs)
    /\ span_shape t started started' evs.
Proof.
  revert started now out; induction payloads as [|p ps IH]; intros started now out.
  - exists started, now, []. rewrite app_nil_r. split; [reflexivity|].
    split; intros; [split|left; split]; auto.
  - unfold transcode_all in *. cbn [fold_left].
    pose proof (transcode_shape started now p) as Hp. unfold step_shape in Hp.
    destruct (transcode t started now p) as [[s1 n1] e1].
    destruct (IH s1 n1 (out ++ e1)) as (s2 & n2 & e2 & -> & H2).
    exists s2, n2, (e1 ++ e2). rewrite app_assoc. split; [reflexivity|].
    destruct Hp as (Hp1 & Hp0), H2 as (H21 & H20). split.
    + intros Hs. destruct (Hp1 Hs) as (-> & F1). destruct (H21 eq_refl) as (-> & F2).
      split; [reflexivity|]. now apply Forall_app.
    + intros Hs. destruct (Hp0 Hs) as [(-> & Q1)|(-> & d & ->)].
      * destruct (H20 eq_refl) as [(-> & Q2)|(-> & pre & d & post & -> & Qp & Fp)].
        -- left. split; [reflexivity|]. now apply Forall_app.
        -- right. split; [reflexivity|]. exists (e1 ++ pre), d, post.
           rewrite app_assoc. repeat split; auto. now apply Forall_app.
      * destruct (H21 eq_refl) as (-> & F2). right. split; [reflexivity|].
        exists [], d, e2. repeat split; auto.
Qed.

End ShapeFacts.

(** ** The ordering invariant *)

Lemma split_at_app {A} (l1 l2 p s : list A) (x : A) :
  l1 ++ l2 = p ++ x :: s ->
  (exists m, l1 = p ++ x :: m /\ s = m ++ l2)
  \/ (exists m, p = l1 ++ m /\ l2 = m ++ x :: s).
Proof.
  revert p; induction l1 as [|a l1 IH]; intros p E.
  - right. now exists p.
  - destruct p as [|b p]; simpl in E.
    + injection E as -> <-. left. now exists l1.
    + injection E as -> E. destruct (IH _ E) as [(m & -> & ->)|(m & -> & ->)].
      * left. now exists m.
      * right. now exists m.
Qed.

Lemma in_middle {A} (l p s : list A) (x : A) : l = p ++ x :: s -> In x l.
Proof. intros ->. apply in_elt. Qed.

Lemma ordering_quiet (a r : jsstring) (q : list NormalizedEvent) :
  Forall quiet q -> ordering_invariant (Start a :: q ++ [Finish r; Done]).
Proof.
  intros Q. split; [|split].
  - intros pre i delta post E. apply in_middle in E. sort_out.
  - intros pre i post E. apply in_middle in E. sort_out.
  - exists (Start a :: q), r. split; [reflexivity|].
    split; [intros r'|]; intros I; sort_out.
Qed.

Lemma ordering_span (a r t : jsstring) (pre f e : list NormalizedEvent) :
  Forall quiet pre -> Forall (flowing t) f -> e = [] \/ e = [TextEnd t] ->
  ordering_invariant (Start a :: pre ++ TextStart t :: f ++ e ++ [Finish r; Done]).
Proof.
  intros Q F He. split; [|split].
  - intros p i delta s E.
    change (Start a :: pre ++ TextStart t :: f ++ e ++ [Finish r; Done])
      with ((Start a :: pre) ++ TextStart t :: f ++ e ++ [Finish r; Done]) in E.
    apply split_at_app in E as [(m & E & _)|(m & -> & E)].
    + apply in_middle in E. sort_out.
    + destruct m as [|x m]; [discriminate E|].
      injection E as <- E. apply in_middle in E.
      assert (i = t) as ->.
      { destruct He as [-> | ->]; sort_out; assumption. }
      apply in_or_app. right. now left.
  - intros p i s E.
    replace (Start a :: pre ++ TextStart t :: f ++ e ++ [Finish r; Done])
      with ((Start a :: pre ++ TextStart t :: f) ++ e ++ [Finish r; Done]) in E
      by (cbn; now rewrite <- app_assoc).
    apply split_at_app in E as [(m & E & _)|(m & _ & E)].
    + apply in_middle in E. sort_out.
    + destruct He as [-> | ->].
      * apply in_middle in E. sort_out.
      * destruct m as [|x m].
        -- injection E as _ <-. split; [intros delta|]; intros I; sort_out.
        -- injection E as _ E. apply in_middle in E. sort_out.
  - exists (Start a :: pre ++ TextStart t :: f ++ e), r. split.
    + cbn. f_equal. rewrite <- app_assoc. cbn. now rewrite <- app_assoc.
    + split; [intros r'|]; intros I; destruct He as [-> | ->]; sort_out.
Qed.

Section OrderingFacts.
Context {rt : Builtins}.

Lemma client_events_ordered (env : Env) (body : option Body) :
  ordering_invariant (client_events env body).
Proof.
  unfold client_events. destruct body as [b|];
    [|apply (ordering_quiet _ _ (q := [Error (JStr stream_error_text)]));
      now repeat constructor].
  rewrite transcoded_by_payloads.
  destruct (transcode_all_shape (generateUUID env 1) (decoded_payloads (chunks b))
              false 0 []) as (started & now & evs & -> & _ & Hs).
  cbn [app]. destruct (Hs eq_refl) as [(-> & Q)|(-> & pre & d & post & -> & Q & F)].
  - destruct (read_fails b).
    + rewrite app_assoc. apply ordering_quiet. apply Forall_app. split; [exact Q|].
      now repeat constructor.
    + rewrite app_nil_r. cbn [app]. now apply ordering_quiet.
  - destruct (read_fails b).
    + replace ((pre ++ TextStart (generateUUID env 1)
                  :: TextDelta (generateUUID env 1) d :: post)
               ++ [Error (JStr stream_error_text)] ++ [Finish (lit "stop"); Done])
        with (pre ++ TextStart (generateUUID env 1)
                :: (TextDelta (generateUUID env 1) d :: post
                      ++ [Error (JStr stream_error_text)])
                ++ [] ++ [Finish (lit "stop"); Done]).
      * apply ordering_span; auto.
        constructor; [reflexivity|]. apply Forall_app. split; [exact F|].
        now repeat constructor.
      * rewrite <- (app_assoc pre). cbn. now rewrite <- app_assoc.
    + replace (((pre ++ TextStart (generateUUID env 1)
                   :: TextDelta (generateUUID env 1) d :: post)
                ++ [TextEnd (generateUUID env 1)])
               ++ [] ++ [Finish (lit "stop"); Done])
        with (pre ++ TextStart (generateUUID env 1)
                :: (TextDelta (generateUUID env 1) d :: post)
                ++ [TextEnd (generateUUID env 1)] ++ [Finish (lit "stop"); Done]).
      * apply ordering_span; auto. now constructor.
      * rewrite <- !(app_assoc pre). cbn. now rewrite <- app_assoc.
Qed.

End OrderingFacts.

(** ** The claims about the event stream *)

(** C4, as amended: for every backend response, what the current route
    writes to the client is the frames of [client_events] followed by one
    close, and these events keep the ordering invariant: a [TextStart]
    precedes every [TextDelta] of its id, a [TextEnd] comes after the last
    [TextDelta] of its id and at most once, and [Finish] and [Done] occur
    once each, as the last two events. *)
Theorem current_route_ordering {rt : Builtins} (env : Env) (chatId : jsstring)
  (titlePromise : option jsstring) (body : option Body) :
  written (fst (start env chatId titlePromise body))
  = frames_of (client_events env body) ++ [Close]
  /\ ordering_invariant (client_events env body).
Proof.
  split; [apply start_written|apply client_events_ordered].
Qed.

(** C4 as stated fails on the earlier route: for an upstream that sends
    one whole-content frame and the done marker, the client is sent a
    message start, a text delta and a finish, and no done marker; the
    normalized events among them do not keep the invariant. *)
Lemma legacy_stream_has_no_done :
  exists sink effects,
    Legacy.POST (rt := Reference.runtime)
      (Sample.env "What is 2+2?"
         (FetchResponse 200
            (Some (Sample.body_of (Sample.output_frame "4" ++ Sample.done_frame) false))))
    = (StreamResponse sink, effects)
    /\ written sink
       = legacy_frames_of (rt := Reference.runtime)
           [Legacy.message_start (lit "assistant-1"); Legacy.text_delta (lit "4");
            Legacy.finish]
         ++ [Close]
    /\ ~ ordering_invariant
           (flat_map legacy_normalized
              [Legacy.message_start (lit "assistant-1"); Legacy.text_delta (lit "4");
               Legacy.finish]).
Proof.
  eexists. eexists. split; [vm_compute; reflexivity|].
  split; [vm_compute; reflexivity|].
  intros (_ & _ & pre & r & E & _). cbn in E.
  destruct pre as [|x [|y pre]]; discriminate E.
Qed.

(** C6: when the transcoding session raises, the client is still sent what
    was yielded before, then the synthetic [Error], then [Finish] with
    reason stop, then [Done], and the sink is closed after them. *)
Theorem stream_error_terminal_sequence {rt : Builtins} (env : Env) (chatId : jsstring)
  (titlePromise : option jsstring) (body : option Body) :
  snd (transcoded (generateUUID env 1) body) = Threw ->
  written (fst (start env chatId titlePromise body))
  = frames_of
      (Start (generateUUID env 0)
         :: fst (transcoded (generateUUID env 1) body)
         ++ [Error (JStr stream_error_text); Finish (lit "stop"); Done])
    ++ [Close]
  /\ closed (fst (start env chatId titlePromise body)) = true.
Proof.
  intros Hthrew. destruct (start_written env chatId titlePromise body) as (Hw & Hc).
  split; [|exact Hc]. rewrite Hw. unfold client_events.
  destruct (transcoded (generateUUID env 1) body) as [events completion].
  cbn in Hthrew. now subst completion.
Qed.

Lemma stream_error_terminal_sequence_witness :
  snd (transcoded (rt := Reference.runtime) (lit "text-1")
         (Some (Sample.trickle (Sample.node_frame "agent" "4") true))) = Threw
  /\ written
       (fst (start (rt := Reference.runtime)
               (Sample.env "What is 2+2?" FetchRejected) (lit "chat-1") None
               (Some (Sample.trickle (Sample.node_frame "agent" "4") true))))
     = frames_of (rt := Reference.runtime)
         [Start (lit "assistant-1"); TextStart (lit "text-1");
          TextDelta (lit "text-1") (lit "4");
          Error (JStr stream_error_text); Finish (lit "stop"); Done]
       ++ [Close].
Proof.
  split; [vm_compute; reflexivity|].
  apply (proj1 (@stream_error_terminal_sequence Reference.runtime
                  (Sample.env "What is 2+2?" FetchRejected) (lit "chat-1") None
                  (Some (Sample.trickle (Sample.node_frame "agent" "4") true))
                  ltac:(vm_compute; reflexivity))).
Defined.

Section ContentFrames.
Context {rt : Builtins}.
Variable t : jsstring.

Lemma transcode_content_frame (started : bool) (now : nat) (data node content : jsstring) :
  content_frame data node content -> agent_or_model node -> content <> [] ->
  transcode t started now data
  = (true, now, (if started then [] else [TextStart t]) ++ [TextDelta t content]).
Proof.
  intros (Hd & parsed & Hp & Hn & Hc & Ht) Hnode Hne. unfold transcode.
  rewrite Hd, Hp, Ht, Hc, Hn.
  assert (Hobj : exists props, parsed = JObj props).
  { destruct parsed; try discriminate Hn. now eexists. }
  destruct Hobj as (props & ->).
  destruct content as [|c content]; [contradiction|].
  destruct Hnode as [-> | ->]; reflexivity.
Qed.

Lemma transcode_all_content_frames (payloads : list jsstring)
  (frames : list (jsstring * jsstring)) :
  Forall2
    (fun data f =>
       content_frame data (fst f) (snd f) /\ agent_or_model (fst f) /\ snd f <> [])
    payloads frames ->
  forall started now out,
    transcode_all t (started, now, out) payloads
    = (match frames with [] => started | _ => true end, now,
       out ++ (match frames with
               | [] => []
               | _ => if started then [] else [TextStart t]
               end)
           ++ map (fun f => TextDelta t (snd f)) frames).
Proof.
  induction 1 as [|data f payloads frames (Hf & Hn & Hc) _ IH]; intros started now out.
  - cbn. now rewrite app_nil_r.
  - unfold transcode_all in *. cbn [fold_left].
    rewrite (transcode_content_frame started now Hf Hn Hc), IH.
    destruct frames; cbn [map app]; rewrite <- !app_assoc; reflexivity.
Qed.

End ContentFrames.

(** C1, as amended: when the frame decoder's payloads are node-tagged
    content frames, at least one of them, each with node agent or model and
    a non-empty content, the client is sent [Start], one [TextStart], one
    [TextDelta] per frame carrying that frame's content, one [TextEnd],
    then [Finish] and [Done]. *)
Theorem agent_frames_one_span {rt : Builtins} (env : Env) (chatId : jsstring)
  (titlePromise : option jsstring) (pieces : list (list byte))
  (frames : list (jsstring * jsstring)) :
  frames <> [] ->
  Forall2
    (fun data f =>
       content_frame data (fst f) (snd f) /\ agent_or_model (fst f) /\ snd f <> [])
    (decoded_payloads pieces) frames ->
  one_span_written env chatId titlePromise pieces frames.
Proof.
  intros Hne Hframes. unfold one_span_written.
  rewrite (proj1 (start_written env chatId titlePromise _)). f_equal. f_equal.
  unfold client_events. rewrite transcoded_by_payloads. cbn [chunks read_fails].
  rewrite (transcode_all_content_frames (generateUUID env 1) Hframes).
  destruct frames as [|f frames]; [contradiction|].
  cbn [app]. rewrite <- !app_assoc. reflexivity.
Qed.

Lemma agent_frames_one_span_witness :
  one_span_written (rt := Reference.runtime)
    (Sample.env "What is 2+2?" FetchRejected) (lit "chat-1") None
    (chunks (Sample.trickle
               (Sample.node_frame "agent" "2+2" ++ Sample.node_frame "model" " is 4")
               false))
    [(lit "agent", lit "2+2"); (lit "model", lit " is 4")].
Proof.
  apply agent_frames_one_span; [discriminate|].
  replace (decoded_payloads
             (chunks (Sample.trickle
                        (Sample.node_frame "agent" "2+2"
                           ++ Sample.node_frame "model" " is 4") false)))
    with [skipn 6 (removelast (removelast (Sample.node_frame "agent" "2+2")));
          skipn 6 (removelast (removelast (Sample.node_frame "model" " is 4")))]
    by (vm_compute; reflexivity).
  constructor; [frame_by_computation|].
  constructor; [frame_by_computation|].
  constructor.
Defined.

(** C1 as stated fails for a frame with empty content (and for no frame at
    all): the single payload read is a node-tagged content frame of the
    agent, yet the client is sent [Start], [Finish], [Done] and no text
    span, which is not the sequence of the claim. *)
Lemma empty_content_opens_no_span :
  Forall2
    (fun data f => content_frame (rt := Reference.runtime) data (fst f) (snd f)
                   /\ agent_or_model (fst f))
    (decoded_payloads (chunks (Sample.body_of (Sample.node_frame "agent" "") false)))
    [(lit "agent", [])]
  /\ written
       (fst (start (rt := Reference.runtime)
               (Sample.env "What is 2+2?" FetchRejected) (lit "chat-1") None
               (Some (Sample.body_of (Sample.node_frame "agent" "") false))))
     = frames_of (rt := Reference.runtime)
         [Start (lit "assistant-1"); Finish (lit "stop"); Done]
       ++ [Close]
  /\ ~ one_span_written (rt := Reference.runtime)
         (Sample.env "What is 2+2?" FetchRejected) (lit "chat-1") None
         (chunks (Sample.body_of (Sample.node_frame "agent" "") false))
         [(lit "agent", [])].
Proof.
  split; [|split].
  - replace (decoded_payloads
               (chunks (Sample.body_of (Sample.node_frame "agent" "") false)))
      with [skipn 6 (removelast (removelast (Sample.node_frame "agent" "")))]
      by (vm_compute; reflexivity).
    constructor; [|constructor].
    split; [|left; reflexivity].
    split; [vm_compute; reflexivity|].
    eexists; split; [vm_compute; reflexivity|].
    repeat split; vm_compute; reflexivity.
  - vm_compute. reflexivity.
  - unfold one_span_written. vm_compute. discriminate.
Qed.

(** C8: a frame whose node is the tool node yields no [TextDelta],
    whatever its other fields and whatever state the transcoder is in. *)
Theorem tools_frame_yields_no_text {rt : Builtins} (textId : jsstring) (started : bool)
  (now : nat) (data : jsstring) (parsed : json) :
  JSON_parse data = Some parsed ->
  prop parsed "node" = Some (JStr (lit "tools")) ->
  forall i delta, ~ In (TextDelta i delta) (snd (transcode textId started now data)).
Proof.
  intros Hp Hn i delta. unfold transcode.
  destruct (str_eqb data (lit "[DONE]")); [intros []|].
  rewrite Hp.
  assert (Hobj : exists props, parsed = JObj props).
  { destruct parsed; try discriminate Hn. now eexists. }
  destruct Hobj as (props & ->). rewrite Hn.
  destruct (is_string (prop (JObj props) "type") "ping"); [intros [E|[]]; discriminate E|].
  assert (Herr : ~ In (TextDelta i delta)
                     (snd match prop (JObj props) "error" with
                          | Some e =>
                              if truthy (Some e) then (started, now, [Error e])
                              else (started, now, [])
                          | None => (started, now, [])
                          end)).
  { destruct (prop (JObj props) "error") as [e|]; [|intros []].
    destruct (truthy (Some e)); [intros [E|[]]; discriminate E|intros []]. }
  destruct (prop (JObj props) "content") as [[| | |[|c content]| |]|]; try exact Herr.
  cbn. intros [].
Qed.

Lemma tools_frame_yields_no_text_witness :
  JSON_parse (Builtins := Reference.runtime)
    (skipn 6 (removelast (removelast (Sample.node_frame "tools" "rows: 42"))))
  = Some (JObj [field "node" (JStr (lit "tools")); field "content" (JStr (lit "rows: 42"))])
  /\ ~ In (TextDelta (lit "text-1") (lit "rows: 42"))
         (snd (transcode (rt := Reference.runtime) (lit "text-1") true 0
                 (skipn 6 (removelast (removelast (Sample.node_frame "tools" "rows: 42")))))).
Proof.
  split; [vm_compute; reflexivity|].
  apply (@tools_frame_yields_no_text Reference.runtime (lit "text-1") true 0%nat
           (skipn 6 (removelast (removelast (Sample.node_frame "tools" "rows: 42"))))
           (JObj [field "node" (JStr (lit "tools"));
                  field "content" (JStr (lit "rows: 42"))])).
  - vm_compute. reflexivity.
  - vm_compute. reflexivity.
Defined.

(** ** Persistence of the assistant message *)

Section PersistenceFacts.
Context {rt : Builtins}.

Lemma start_effects (env : Env) (chatId : jsstring) (titlePromise : option jsstring)
  (body : option Body) :
  snd (start env chatId titlePromise body)
  = (let content :=
       content_after (fst (transcoded (generateUUID env 1) body))
         (snd (transcoded (generateUUID env 1) body)) in
     if negb (str_eqb content []) then
       [SaveMessages [assistant_message chatId (generateUUID env 0) content]]
     else [])
    ++ match titlePromise with
       | Some title => [UpdateChatTitle chatId title]
       | None => []
       end.
Proof.
  unfold start, transformBackendStream.
  destruct (transcoded (generateUUID env 1) body) as [events completion].
  cbn [fst snd].
  destruct (safeEnqueue_open (sse (Start (generateUUID env 0))) open_new) as (H1 & F1).
  destruct (forward_all_open (map sse events) H1) as (H2 & F2).
  rewrite F1 in F2. cbn [fullContent Mux_new] in F2.
  set (m2 := fold_left forward (map sse events) _) in *.
  assert (H3 : exists m3 w,
             match completion with
             | Returned => m2
             | Threw =>
                 set_fullContent
                   (safeEnqueue m2 (sse (Error (JStr stream_error_text))))
                   stream_error_text
             end = m3
             /\ open_with m3 w /\ fullContent m3 = content_after events completion).
  { destruct completion.
    - exists m2. eexists. split; [reflexivity|]. split; [exact H2|exact F2].
    - eexists. eexists. split; [reflexivity|]. split; [|reflexivity].
      apply set_fullContent_open.
      apply (safeEnqueue_open (sse (Error (JStr stream_error_text))) H2). }
  destruct H3 as (m3 & w & -> & H3 & F3).
  destruct (safeEnqueue_open (sse (Finish (lit "stop"))) H3) as (H4 & F4).
  destruct (safeEnqueue_open (sse Done) H4) as (H5 & F5).
  rewrite F5, F4, F3. reflexivity.
Qed.

Lemma sse_starts_with_data (e : NormalizedEvent) :
  startsWith (lit "data: ") (sse e) = true.
Proof. destruct e; reflexivity. Qed.

(** A chunk that is not a text delta leaves [fullContent] as it is. *)
Lemma accumulate_other (content : jsstring) (e : NormalizedEvent) :
  reparses e -> (forall i delta, e <> TextDelta i delta) ->
  accumulate content (sse e) = content.
Proof.
  intros Hr Hn.
  destruct e as [a|i|i delta|i|r|v|ts|]; [| |now destruct (Hn i delta)| | | | |reflexivity];
    unfold accumulate; rewrite sse_starts_with_data;
    (match goal with
     | |- (if ?c then _ else _) = _ => destruct c; [|reflexivity]
     end);
    destruct Hr as (parsed & -> & Ht & _);
    destruct parsed; try reflexivity; cbn in Ht |- *; now rewrite Ht.
Qed.

Lemma accumulate_all_other (events : list NormalizedEvent) (content : jsstring) :
  Forall reparses events ->
  (forall i delta, ~ In (TextDelta i delta) events) ->
  fold_left accumulate (map sse events) content = content.
Proof.
  revert content; induction events as [|e events IH]; intros content Hr Hn; [reflexivity|].
  inversion Hr as [|? ? Hre Hrs]; subst. cbn [map fold_left].
  rewrite accumulate_other; [|exact Hre|].
  - apply IH; [exact Hrs|]. intros i delta I. apply (Hn i delta). now right.
  - intros i delta ->. apply (Hn i delta). now left.
Qed.

Lemma has_text_delta_dec (events : list NormalizedEvent) :
  (exists i delta, In (TextDelta i delta) events)
  \/ (forall i delta, ~ In (TextDelta i delta) events).
Proof.
  induction events as [|e events [(i & delta & I)|IH]].
  - right. intros i delta [].
  - left. exists i, delta. now right.
  - destruct e as [| |j d| | | | |];
      try (right; intros i delta [E|I]; [discriminate E|exact (IH i delta I)]).
    left. exists j, d. now left.
Qed.

End PersistenceFacts.

(** ** The handler before the stream *)

Section HandlerFacts.
Context {rt : Builtins}.

Lemma prelude_reached (env : Env) (rb : PostRequestBody) (user : User) :
  reaches_validation env rb user ->
  prelude env []
  = if str_eqb (messageText rb) [] then
      (inl (ErrorResponse bad_request_api), effects_before_validation env rb user)
    else
      match fetch env with
      | FetchRejected =>
          (inl (ErrorResponse offline_chat),
           effects_before_validation env rb user ++ [Fetch (messageText rb) (id rb)])
      | FetchResponse status body =>
          if ok status then
            (inr (rb, title_promise env rb, body),
             effects_before_validation env rb user ++ [Fetch (messageText rb) (id rb)])
          else
            (inl (ErrorResponse offline_chat),
             effects_before_validation env rb user ++ [Fetch (messageText rb) (id rb)])
      end.
Proof.
  intros (Hb & Hu & Hs & Hc & Ho).
  unfold prelude, callRenderBackend, effects_before_validation, title_promise,
    stored_before_validation.
  rewrite Hb, Hu, Hs. cbn [negb].
  apply N.ltb_ge in Hc. rewrite Hc.
  unfold bind, perform, ret, respond.
  destruct (stored_chat env) as [chat|].
  - rewrite (Ho chat eq_refl), str_eqb_refl. cbn [negb].
    destruct (message rb) as [m|]; [destruct (str_eqb (role m) (lit "user"))|];
      cbn [app]; destruct (str_eqb (messageText rb) []); try reflexivity;
      destruct (fetch env) as [|status body]; try reflexivity;
      destruct (ok status); reflexivity.
  - destruct (message rb) as [m|]; [destruct (str_eqb (role m) (lit "user"))|];
      cbn [app]; destruct (str_eqb (messageText rb) []); try reflexivity;
      destruct (fetch env) as [|status body]; try reflexivity;
      destruct (ok status); reflexivity.
Qed.

Lemma frames_never_close (events : list NormalizedEvent) :
  filter is_close (frames_of events) = [].
Proof. induction events as [|e events IH]; [reflexivity|exact IH]. Qed.

(** Without a text the handler answers with an error of the client and
    performs no fetch, wherever it stops. *)
Lemma prelude_without_text (env : Env) (rb : PostRequestBody) :
  request_body env = Some rb -> messageText rb = [] ->
  exists code effects,
    prelude env [] = (inl (ErrorResponse code), effects)
    /\ client_error code = true /\ filter is_fetch effects = [].
Proof.
  intros Hb Ht. unfold prelude. rewrite Hb, Ht. cbn [str_eqb].
  destruct (negb (configured (RENDER_BACKEND_URL env))); [now eexists; eexists|].
  destruct (session_user env) as [user|]; [|now eexists; eexists].
  destruct (maxMessagesPerDay env (user_type user) <? messageCount env);
    [now eexists; eexists|].
  unfold bind, perform, ret, respond.
  destruct (stored_chat env) as [chat|].
  - destruct (negb (str_eqb (chat_userId chat) (user_id user))); [now eexists; eexists|].
    destruct (message rb) as [m|]; [destruct (str_eqb (role m) (lit "user"))|];
      now eexists; eexists.
  - destruct (message rb) as [m|]; [destruct (str_eqb (role m) (lit "user"))|];
      now eexists; eexists.
Qed.

(** Before the stream the handler stores no assistant message. *)
Lemma prelude_stores_no_assistant_message (env : Env) r (effects : list Effect) :
  prelude env [] = (r, effects) -> filter is_assistant_save effects = [].
Proof.
  unfold prelude, callRenderBackend, bind, perform, ret, respond.
  destruct (request_body env) as [rb|]; [|now intros [= <- <-]].
  destruct (negb (configured (RENDER_BACKEND_URL env))); [now intros [= <- <-]|].
  destruct (session_user env) as [user|]; [|now intros [= <- <-]].
  destruct (maxMessagesPerDay env (user_type user) <? messageCount env);
    [now intros [= <- <-]|].
  destruct (stored_chat env) as [chat|];
    [destruct (negb (str_eqb (chat_userId chat) (user_id user))); [now intros [= <- <-]|]|];
    (destruct (message rb) as [m|]; [destruct (str_eqb (role m) (lit "user"))|]);
    cbn [app]; (destruct (str_eqb (messageText rb) []); [now intros [= <- <-]|]);
    cbn [negb]; (destruct (fetch env) as [|status response]; [now intros [= <- <-]|]);
    destruct (negb (ok status)); now intros [= <- <-].
Qed.

End HandlerFacts.

(** C3, as amended: the assistant message is handed to [saveMessages] at
    most once per request (over the whole handler, and so by the stream);
    when the transcoding session raises, the fixed
    error text is saved as the assistant message; when it completes
    without raising (and the chunks it yielded parse back to the events
    they were built from), a message is saved only if some [TextDelta] was
    emitted. *)
Theorem assistant_message_saved_at_most_once {rt : Builtins} (env : Env) (chatId : jsstring)
  (titlePromise : option jsstring) (body : option Body) :
  (length (filter is_assistant_save (snd (POST env))) <= 1)%nat
  /\ (length (filter is_assistant_save (snd (start env chatId titlePromise body))) <= 1)%nat
  /\ (snd (transcoded (generateUUID env 1) body) = Threw ->
      In (SaveMessages
            [assistant_message chatId (generateUUID env 0) stream_error_text])
         (snd (start env chatId titlePromise body)))
  /\ (snd (transcoded (generateUUID env 1) body) = Returned ->
      Forall reparses (fst (transcoded (generateUUID env 1) body)) ->
      forall messages,
        In (SaveMessages messages) (snd (start env chatId titlePromise body)) ->
        exists i delta,
          In (TextDelta i delta) (fst (transcoded (generateUUID env 1) body))).
Proof.
  assert (Honce : forall chat title response,
             (length (filter is_assistant_save (snd (start env chat title response)))
              <= 1)%nat).
  { intros chat title response. rewrite start_effects.
    cbv zeta.
    match goal with |- context [if ?c then _ else _] => destruct c end;
      destruct title; cbn; lia. }
  split.
  { unfold POST, run, bind.
    destruct (prelude env []) as [[r|[[rb title] response]] effects] eqn:Ep;
      pose proof (prelude_stores_no_assistant_message env Ep) as Hp.
    - cbn. rewrite Hp. cbn. lia.
    - destruct response as [b|]; [|cbn; rewrite Hp; cbn; lia].
      pose proof (Honce (id rb) title (Some b)) as Hs.
      destruct (start env (id rb) title (Some b)) as [sink effects'].
      cbn [snd] in *. now rewrite filter_app, Hp. }
  rewrite start_effects.
  destruct (transcoded (generateUUID env 1) body) as [events completion].
  cbn [fst snd]. split; [|split].
  - destruct (negb (str_eqb (content_after events completion) []));
      destruct titlePromise; cbn; lia.
  - intros ->. cbn. now left.
  - intros -> Hr messages I.
    destruct (has_text_delta_dec events) as [Hex|Hno]; [exact Hex|].
    cbn [content_after] in I. rewrite (accumulate_all_other [] Hr Hno) in I.
    cbn in I. destruct titlePromise; cbn in I; [destruct I as [E|[]]; discriminate E|destruct I].
Qed.

Lemma assistant_message_saved_at_most_once_witness :
  snd (transcoded (rt := Reference.runtime) (lit "text-1")
         (Some (Sample.body_of (Sample.node_frame "agent" "4" ++ Sample.done_frame) false)))
  = Returned
  /\ Forall (reparses (rt := Reference.runtime))
       (fst (transcoded (rt := Reference.runtime) (lit "text-1")
               (Some (Sample.body_of
                        (Sample.node_frame "agent" "4" ++ Sample.done_frame) false))))
  /\ In (SaveMessages [assistant_message (lit "chat-1") (lit "assistant-1") (lit "4")])
       (snd (start (rt := Reference.runtime)
               (Sample.env "What is 2+2?" FetchRejected) (lit "chat-1") None
               (Some (Sample.body_of
                        (Sample.node_frame "agent" "4" ++ Sample.done_frame) false))))
  /\ (exists i delta,
         In (TextDelta i delta)
           (fst (transcoded (rt := Reference.runtime) (lit "text-1")
                   (Some (Sample.body_of
                            (Sample.node_frame "agent" "4" ++ Sample.done_frame) false)))))
  /\ In (SaveMessages
           [assistant_message (lit "chat-1") (lit "assistant-1") stream_error_text])
       (snd (start (rt := Reference.runtime)
               (Sample.env "What is 2+2?" FetchRejected) (lit "chat-1") None
               (Some (Sample.trickle (Sample.node_frame "agent" "4") true)))).
Proof.
  assert (Hr : Forall (reparses (rt := Reference.runtime))
                 (fst (transcoded (rt := Reference.runtime) (lit "text-1")
                         (Some (Sample.body_of
                                  (Sample.node_frame "agent" "4" ++ Sample.done_frame)
                                  false))))).
  { replace (fst (transcoded (rt := Reference.runtime) (lit "text-1")
                    (Some (Sample.body_of
                             (Sample.node_frame "agent" "4" ++ Sample.done_frame) false))))
      with [TextStart (lit "text-1"); TextDelta (lit "text-1") (lit "4");
            TextEnd (lit "text-1")]
      by (vm_compute; reflexivity).
    repeat (constructor;
            [red; cbn [event_object]; eexists;
             split; [vm_compute; reflexivity|split; vm_compute; reflexivity]|]).
    constructor. }
  assert (Hs : In (SaveMessages
                     [assistant_message (lit "chat-1") (lit "assistant-1") (lit "4")])
                 (snd (start (rt := Reference.runtime)
                         (Sample.env "What is 2+2?" FetchRejected) (lit "chat-1") None
                         (Some (Sample.body_of
                                  (Sample.node_frame "agent" "4" ++ Sample.done_frame)
                                  false)))))
    by (vm_compute; left; reflexivity).
  split; [vm_compute; reflexivity|]. split; [exact Hr|]. split; [exact Hs|].
  split.
  - exact (proj2 (proj2 (proj2 (@assistant_message_saved_at_most_once Reference.runtime
                           (Sample.env "What is 2+2?" FetchRejected) (lit "chat-1") None
                           (Some (Sample.body_of
                                    (Sample.node_frame "agent" "4" ++ Sample.done_frame)
                                    false)))))
             ltac:(vm_compute; reflexivity) Hr _ Hs).
  - exact (proj1 (proj2 (proj2 (@assistant_message_saved_at_most_once Reference.runtime
                           (Sample.env "What is 2+2?" FetchRejected) (lit "chat-1") None
                           (Some (Sample.trickle (Sample.node_frame "agent" "4") true)))))
             ltac:(vm_compute; reflexivity)).
Defined.

(** C3 as stated fails when the body cannot be read: no event is yielded,
    so no text was produced, and the assistant message is saved all the
    same, holding the error text. *)
Lemma error_text_saved_without_content :
  transcoded (rt := Reference.runtime) (lit "text-1")
    (Some {| chunks := []; read_fails := true |})
  = ([], Threw)
  /\ snd (start (rt := Reference.runtime)
            (Sample.env "What is 2+2?" FetchRejected) (lit "chat-1") None
            (Some {| chunks := []; read_fails := true |}))
     = [SaveMessages
          [assistant_message (lit "chat-1") (lit "assistant-1") stream_error_text]].
Proof. split; vm_compute; reflexivity. Qed.

(** C2, as amended: when [callRenderBackend] throws, the request is
    answered with the offline error response and nothing is streamed, in
    either version of the route; the sequence [Start], [Error], [Finish]
    with reason stop, [Done], with the sink closed exactly once, is what the
    client receives when the call succeeds and the body fails at the first
    read, before any byte. *)
Theorem backend_failure_outcomes {rt : Builtins} (env : Env) (rb : PostRequestBody)
  (user : User) :
  reaches_validation env rb user -> messageText rb <> [] ->
  (backend_call_throws env ->
   fst (POST env) = ErrorResponse offline_chat
   /\ fst (Legacy.POST env) = ErrorResponse offline_chat)
  /\ (forall status,
         fetch env = FetchResponse status (Some {| chunks := []; read_fails := true |}) ->
         ok status = true ->
         exists sink,
           fst (POST env) = StreamResponse sink
           /\ written sink
              = frames_of
                  [Start (generateUUID env 0); Error (JStr stream_error_text);
                   Finish (lit "stop"); Done]
                ++ [Close]
           /\ length (filter is_close (written sink)) = 1%nat).
Proof.
  intros Hr Ht. apply str_eqb_neq in Ht. split.
  - intros Hthrows. unfold POST, Legacy.POST, run, bind.
    rewrite (prelude_reached Hr), Ht.
    destruct Hthrows as [-> | (status & body & -> & ->)]; now split.
  - intros status Hf Hok. unfold POST, run, bind.
    rewrite (prelude_reached Hr), Ht, Hf, Hok.
    destruct (start env (id rb) (title_promise env rb)
                (Some {| chunks := []; read_fails := true |})) as [sink effects] eqn:Es.
    exists sink. split; [reflexivity|].
    pose proof (start_written env (id rb) (title_promise env rb)
                  (Some {| chunks := []; read_fails := true |})) as (Hw & _).
    rewrite Es in Hw. cbn [fst] in Hw. split; [exact Hw|].
    rewrite Hw, filter_app, frames_never_close. reflexivity.
Qed.

Lemma backend_failure_outcomes_witness :
  (fst (POST (rt := Reference.runtime) (Sample.env "What is 2+2?" FetchRejected))
   = ErrorResponse offline_chat
   /\ fst (Legacy.POST (rt := Reference.runtime) (Sample.env "What is 2+2?" FetchRejected))
      = ErrorResponse offline_chat)
  /\ exists sink,
       fst (POST (rt := Reference.runtime)
              (Sample.env "What is 2+2?"
                 (FetchResponse 200 (Some {| chunks := []; read_fails := true |}))))
       = StreamResponse sink
       /\ written sink
          = frames_of (rt := Reference.runtime)
              [Start (lit "assistant-1"); Error (JStr stream_error_text);
               Finish (lit "stop"); Done]
            ++ [Close]
       /\ length (filter is_close (written sink)) = 1%nat.
Proof.
  split.
  - apply (proj1 (@backend_failure_outcomes Reference.runtime
                    (Sample.env "What is 2+2?" FetchRejected)
                    (Sample.request "What is 2+2?") Sample.someone
                    ltac:(repeat split; try (vm_compute; congruence);
                          intros chat E; injection E as <-; reflexivity)
                    ltac:(discriminate))).
    left. reflexivity.
  - apply (proj2 (@backend_failure_outcomes Reference.runtime
                    (Sample.env "What is 2+2?"
                       (FetchResponse 200 (Some {| chunks := []; read_fails := true |})))
                    (Sample.request "What is 2+2?") Sample.someone
                    ltac:(repeat split; try (vm_compute; congruence);
                          intros chat E; injection E as <-; reflexivity)
                    ltac:(discriminate))
             200 eq_refl eq_refl).
Defined.

(** C2 as stated fails: with the upstream call rejected, the response is
    the offline error, not a stream of events; the user message has been
    saved and the call attempted. *)
Lemma rejected_call_streams_nothing :
  POST (rt := Reference.runtime) (Sample.env "What is 2+2?" FetchRejected)
  = (ErrorResponse offline_chat,
     [SaveMessages [user_message (lit "chat-1") (Sample.question "What is 2+2?")];
      Fetch (lit "What is 2+2?") (lit "chat-1")]).
Proof. vm_compute. reflexivity. Qed.

Lemma spec_part_text_code (p : Part) :
  spec_part_text p = if is_text_part p then Some (text_of p) else None.
Proof.
  unfold spec_part_text, is_text_part, text_of. destruct p as [ty tx].
  cbn [part_type part_text].
  destruct (str_eqb ty (lit "text")); [|reflexivity]. now destruct tx.
Qed.

Lemma spec_texts_code (ps : list Part) :
  spec_texts ps = map text_of (filter is_text_part ps).
Proof.
  induction ps as [|p ps IH]; [reflexivity|].
  cbn [spec_texts filter]. rewrite spec_part_text_code, IH.
  now destruct (is_text_part p).
Qed.

Lemma extractMessageText_spec (m : ChatMessage) :
  extractMessageText m
  = match parts m with
    | Some ps => spec_message_text ps
    | None => []
    end.
Proof.
  unfold extractMessageText. destruct (parts m) as [ps|]; [|reflexivity].
  induction ps as [|p ps IH]; [reflexivity|].
  cbn [spec_message_text filter]. rewrite spec_part_text_code.
  destruct (is_text_part p); [|exact IH].
  cbn [map join]. rewrite <- IH, spec_texts_code.
  now destruct (map text_of (filter is_text_part ps)).
Qed.

(** What [split] at the line feeds undoes: texts without a line feed, at
    least one, joined by line feeds. *)
Lemma split_LF_join (texts : list jsstring) :
  texts <> [] -> Forall (fun t => ~ In LF t) texts ->
  split_LF (join [LF] texts) = texts.
Proof.
  intros Hne F. induction F as [|t texts Ht F IH]; [contradiction|].
  destruct texts as [|t' texts]; cbn [join].
  - now apply split_LF_one.
  - cbn [app]. rewrite split_LF_line by exact Ht. f_equal. apply IH. discriminate.
Qed.

(** C9: the text of a message is the text of every text-typed part, in
    order, with a newline between one and the next, other parts being
    ignored: it is the text written from these words by recursion on the
    parts, and cutting it at its newlines gives the texts of the text-typed
    parts back, one for one, whenever there is such a part and none of the
    texts holds a newline.  A request whose text is empty is answered, in
    either version of the route, with an error response of the client
    class, without any call to the backend.  When every earlier check
    passes, the response is the bad-request error. *)
Theorem empty_text_is_refused {rt : Builtins} (env : Env) (rb : PostRequestBody) :
  (forall m, extractMessageText m
             = match parts m with
               | Some ps => spec_message_text ps
               | None => []
               end)
  /\ (forall m ps,
         parts m = Some ps -> spec_texts ps <> [] ->
         Forall (fun t => ~ In LF t) (spec_texts ps) ->
         split_LF (extractMessageText m) = spec_texts ps)
  /\ (request_body env = Some rb -> messageText rb = [] ->
      (exists code,
          fst (POST env) = ErrorResponse code /\ client_error code = true)
      /\ filter is_fetch (snd (POST env)) = []
      /\ (exists code,
             fst (Legacy.POST env) = ErrorResponse code /\ client_error code = true)
      /\ filter is_fetch (snd (Legacy.POST env)) = []
      /\ (forall user, reaches_validation env rb user ->
                       fst (POST env) = ErrorResponse bad_request_api
                       /\ fst (Legacy.POST env) = ErrorResponse bad_request_api)).
Proof.
  split; [exact extractMessageText_spec|]. split.
  { intros m ps Hp Hne F. unfold extractMessageText. rewrite Hp, <- spec_texts_code.
    now apply split_LF_join. }
  intros Hb Ht.
  destruct (prelude_without_text env Hb Ht) as (code & effects & Hp & Hc & Hf).
  unfold POST, Legacy.POST, run, bind. rewrite Hp. cbn [fst snd].
  assert (Hv : forall user, reaches_validation env rb user -> code = bad_request_api).
  { intros user Hr. rewrite (prelude_reached Hr), Ht in Hp. cbn in Hp. congruence. }
  split; [now exists code|]. split; [exact Hf|]. split; [now exists code|].
  split; [exact Hf|].
  intros user Hr. rewrite (Hv user Hr). now split.
Qed.

(** The text of the message of four parts is its two texts with a newline
    between them, and cutting it at the newline gives the two texts back;
    the request whose text is empty is refused without a call of the
    backend. *)
Lemma empty_text_is_refused_witness :
  extractMessageText Sample.mixed = lit "What is" ++ [LF] ++ lit "2+2?"
  /\ split_LF (extractMessageText Sample.mixed) = [lit "What is"; lit "2+2?"]
  /\ filter is_fetch
       (snd (POST (rt := Reference.runtime)
               (Sample.env "" (FetchResponse 200 (Some (Sample.body_of [] false))))))
     = []
  /\ fst (POST (rt := Reference.runtime)
            (Sample.env "" (FetchResponse 200 (Some (Sample.body_of [] false)))))
     = ErrorResponse bad_request_api.
Proof.
  pose proof (@empty_text_is_refused Reference.runtime
                (Sample.env "" (FetchResponse 200 (Some (Sample.body_of [] false))))
                (Sample.request ""))
    as (Htext & Hsplit & Hempty).
  split; [|split].
  - rewrite Htext. vm_compute. reflexivity.
  - refine (Hsplit Sample.mixed Sample.mixed_parts eq_refl _ _); [discriminate|].
    repeat constructor; vm_compute; intros H;
      repeat (destruct H as [H|H]; [discriminate H|]); exact H.
  - destruct (Hempty eq_refl eq_refl) as (_ & Hf & _ & _ & Hv).
    split; [exact Hf|].
    apply (Hv Sample.someone).
    repeat split; try (vm_compute; congruence).
    intros chat E. injection E as <-. reflexivity.
Defined.

(** C10: for a request that passes the checks before the text validation,
    with a user message whose text is empty, the bad-request response comes
    after the user message was saved, and after the chat was created when
    it did not exist: these are the effects the handler has performed when
    it returns, in either version of the route. *)
Theorem empty_text_refused_after_saving {rt : Builtins} (env : Env) (rb : PostRequestBody)
  (user : User) (m : ChatMessage) :
  reaches_validation env rb user ->
  message rb = Some m -> role m = lit "user" -> extractMessageText m = [] ->
  POST env = (ErrorResponse bad_request_api, stored_before_validation env rb user m)
  /\ Legacy.POST env
     = (ErrorResponse bad_request_api, stored_before_validation env rb user m)
  /\ In (SaveMessages [user_message (id rb) m]) (stored_before_validation env rb user m)
  /\ (stored_chat env = None ->
      In (SaveChat (id rb) (user_id user) (lit "New chat") (selectedVisibilityType rb))
         (stored_before_validation env rb user m)).
Proof.
  intros Hr Hm Hrole Ht.
  assert (Hp : prelude env []
               = (inl (ErrorResponse bad_request_api),
                  stored_before_validation env rb user m)).
  { rewrite (prelude_reached Hr). unfold messageText, effects_before_validation.
    rewrite Hm, Ht, Hrole. reflexivity. }
  unfold POST, Legacy.POST, run, bind. rewrite Hp.
  split; [reflexivity|]. split; [reflexivity|].
  unfold stored_before_validation. split.
  - apply in_or_app. right. now left.
  - intros ->. now left.
Qed.

Lemma empty_text_refused_after_saving_witness :
  POST (rt := Reference.runtime)
    (Sample.env_new_chat "" (FetchResponse 200 (Some (Sample.body_of [] false))))
  = (ErrorResponse bad_request_api,
     [SaveChat (lit "chat-1") (lit "user-1") (lit "New chat") (lit "private");
      GenerateTitle (Sample.question "");
      SaveMessages [user_message (lit "chat-1") (Sample.question "")]]).
Proof.
  apply (proj1 (@empty_text_refused_after_saving Reference.runtime
                  (Sample.env_new_chat ""
                     (FetchResponse 200 (Some (Sample.body_of [] false))))
                  (Sample.request "") Sample.someone (Sample.question "")
                  ltac:(repeat split; try (vm_compute; congruence); discriminate)
                  eq_refl eq_refl eq_refl)).
Defined.

(** ** Whole-content diffing *)

Lemma startsWith_app (p s : jsstring) : startsWith p (p ++ s) = true.
Proof. induction p as [|x p IH]; [reflexivity|]. cbn. now rewrite N.eqb_refl. Qed.

Lemma skipn_prefix (p s : jsstring) : skipn (length p) (p ++ s) = s.
Proof. induction p as [|x p IH]; [reflexivity|exact IH]. Qed.

Lemma send_new_refines (lastContent content : jsstring) :
  Legacy.send_new lastContent (Some (JStr content)) = spec_diff_step lastContent content.
Proof.
  unfold Legacy.send_new, spec_diff_step, spec_delta, slice.
  destruct (str_eqb content lastContent) eqn:El.
  - now rewrite andb_false_r.
  - rewrite andb_true_r. destruct content as [|c content].
    + destruct lastContent; [discriminate El|reflexivity].
    + cbn [str_eqb negb].
      destruct (startsWith lastContent (c :: content)).
      * destruct (skipn (length lastContent) (c :: content)); reflexivity.
      * reflexivity.
Qed.

(** C5: in whole-content diffing, for a new content and the last emitted
    content, the step the transcoder takes is the one of the
    specification, also when it is reached from a payload whose content is
    that string; so a prefix-extension emits exactly its suffix, a
    content that does not extend the last one is emitted whole, an equal
    content emits nothing, and the last emitted content becomes the new
    content exactly when a delta is emitted.  On the stream Hi, Hi there,
    Hi there! the deltas are Hi, there (with its space) and !; on Hi
    followed by Bye the second delta is Bye. *)
Theorem whole_content_diffing {rt : Builtins} :
  (forall lastContent content,
      Legacy.send_new lastContent (Some (JStr content))
      = spec_diff_step lastContent content)
  /\ (forall lastContent data parsed content,
         str_eqb data (lit "[DONE]") = false ->
         JSON_parse data = Some parsed ->
         Legacy.extract_content parsed = Some (Some (JStr content)) ->
         Legacy.transcode lastContent data = spec_diff_step lastContent content)
  /\ (forall lastContent suffix,
         suffix <> [] ->
         Legacy.send_new lastContent (Some (JStr (lastContent ++ suffix)))
         = (lastContent ++ suffix, [Legacy.text_delta suffix]))
  /\ (forall lastContent content,
         content <> [] -> startsWith lastContent content = false ->
         Legacy.send_new lastContent (Some (JStr content))
         = (content, [Legacy.text_delta content]))
  /\ (forall lastContent,
         Legacy.send_new lastContent (Some (JStr lastContent)) = (lastContent, []))
  /\ (forall lastContent content,
         fst (Legacy.send_new lastContent (Some (JStr content)))
         = match snd (Legacy.send_new lastContent (Some (JStr content))) with
           | [] => lastContent
           | _ => content
           end)
  /\ fst (Legacy.transcoded (rt := Reference.runtime)
            (Some (Sample.body_of
                     (Sample.output_frame "Hi" ++ Sample.output_frame "Hi there"
                        ++ Sample.output_frame "Hi there!") false)))
     = [Legacy.text_delta (lit "Hi"); Legacy.text_delta (lit " there");
        Legacy.text_delta (lit "!")]
  /\ fst (Legacy.transcoded (rt := Reference.runtime)
            (Some (Sample.body_of
                     (Sample.output_frame "Hi" ++ Sample.output_frame "Bye") false)))
     = [Legacy.text_delta (lit "Hi"); Legacy.text_delta (lit "Bye")].
Proof.
  split; [exact send_new_refines|]. split; [|split; [|split; [|split; [|split; [|split]]]]].
  - intros lastContent data parsed content Hd Hp He. unfold Legacy.transcode.
    rewrite Hd, Hp. destruct parsed; try discriminate He;
      rewrite He; apply send_new_refines.
  - intros lastContent suffix Hs. rewrite send_new_refines.
    unfold spec_diff_step, spec_delta.
    assert (E : str_eqb (lastContent ++ suffix) lastContent = false).
    { apply str_eqb_neq. intros E. apply Hs.
      rewrite <- (app_nil_r lastContent) in E at 2. now apply app_inv_head in E. }
    rewrite E, startsWith_app, skipn_prefix. destruct suffix; [contradiction|reflexivity].
  - intros lastContent content Hc Hp. rewrite send_new_refines.
    unfold spec_diff_step, spec_delta. rewrite Hp.
    assert (E : str_eqb content lastContent = false).
    { apply str_eqb_neq. intros ->.
      rewrite <- (app_nil_r lastContent) in Hp at 2. now rewrite startsWith_app in Hp. }
    rewrite E. destruct content; [contradiction|reflexivity].
  - intros lastContent. rewrite send_new_refines.
    unfold spec_diff_step, spec_delta. now rewrite str_eqb_refl.
  - intros lastContent content. rewrite send_new_refines. unfold spec_diff_step.
    now destruct (spec_delta lastContent content).
  - vm_compute. reflexivity.
  - vm_compute. reflexivity.
Qed.

Lemma whole_content_diffing_witness :
  Legacy.send_new (lit "Hi") (Some (JStr (lit "Hi" ++ lit " there")))
  = (lit "Hi" ++ lit " there", [Legacy.text_delta (lit " there")])
  /\ Legacy.send_new (lit "Hi") (Some (JStr (lit "Bye")))
     = (lit "Bye", [Legacy.text_delta (lit "Bye")])
  /\ Legacy.transcode (rt := Reference.runtime) (lit "Hi")
       (skipn 6 (removelast (removelast (Sample.output_frame "Hi there"))))
     = spec_diff_step (lit "Hi") (lit "Hi there").
Proof.
  split; [|split].
  - apply (proj1 (proj2 (proj2 (@whole_content_diffing Reference.runtime)))
             (lit "Hi") (lit " there")).
    discriminate.
  - apply (proj1 (proj2 (proj2 (proj2 (@whole_content_diffing Reference.runtime))))
             (lit "Hi") (lit "Bye"));
      [discriminate|reflexivity].
  - apply (proj1 (proj2 (@whole_content_diffing Reference.runtime))
             (lit "Hi")
             (skipn 6 (removelast (removelast (Sample.output_frame "Hi there"))))
             (JObj [field "output" (JStr (lit "Hi there"))]) (lit "Hi there"));
      vm_compute; reflexivity.
Defined.

(** ** Runs on concrete streams *)

(** The end-to-end scenario of the specification: the question is sent to
    the backend, the upstream answers with one model frame and the done
    marker, the client receives the six events and the text 4 is stored
    for the assistant. *)
Example end_to_end_scenario :
  exists sink,
    POST (rt := Reference.runtime)
      (Sample.env "What is 2+2?"
         (FetchResponse 200
            (Some (Sample.body_of (Sample.node_frame "model" "4" ++ Sample.done_frame)
                     false))))
    = (StreamResponse sink,
       [SaveMessages [user_message (lit "chat-1") (Sample.question "What is 2+2?")];
        Fetch (lit "What is 2+2?") (lit "chat-1");
        SaveMessages [assistant_message (lit "chat-1") (lit "assistant-1") (lit "4")]])
    /\ written sink
       = frames_of (rt := Reference.runtime)
           [Start (lit "assistant-1"); TextStart (lit "text-1");
            TextDelta (lit "text-1") (lit "4"); TextEnd (lit "text-1");
            Finish (lit "stop"); Done]
         ++ [Close].
Proof. eexists. split; vm_compute; reflexivity. Qed.

(** A frame whose content holds a two-byte, a three-byte and a four-byte
    character (U+00E9, U+4F60, U+1F600), delivered one byte per chunk: the
    content comes out whole. *)
Example split_characters_are_reassembled :
  transcoded (rt := Reference.runtime) (lit "text-1")
    (Some {| chunks :=
               map (fun b => [b])
                 (TextEncoder_encode
                    (lit "data: {" ++ Sample.quoted "node" ++ lit ":"
                       ++ Sample.quoted "agent" ++ lit "," ++ Sample.quoted "content"
                       ++ lit ":" ++ [34; 233; 20320; 55357; 56832; 34] ++ lit "}"
                       ++ [LF]));
             read_fails := false |})
  = ([TextStart (lit "text-1"); TextDelta (lit "text-1") [233; 20320; 55357; 56832];
      TextEnd (lit "text-1")],
     Returned).
Proof. vm_compute. reflexivity. Qed.

(** A heartbeat frame gives one [Heartbeat] and opens no span; a tool frame
    gives nothing; a line without a line feed after it is never read. *)
Example heartbeat_and_tool_frames :
  transcoded (rt := Reference.runtime) (lit "text-1")
    (Some (Sample.body_of
             (Sample.ping_frame ++ Sample.node_frame "tools" "rows: 42"
                ++ removelast (removelast (Sample.node_frame "agent" "lost")))
             false))
  = ([Heartbeat (Date_now (Builtins := Reference.runtime) 0)], Returned).
Proof. vm_compute. reflexivity. Qed.

(** Closing twice closes once: the second [safeClose] changes nothing. *)
Example safeClose_twice (m : Mux) : safeClose (safeClose m) = safeClose m.
Proof.
  unfold safeClose. destruct (isClosed m) eqn:E; [now rewrite E|].
  now destruct (controller_close (controller m)).
Qed.

(** * Further properties *)

(** ** The transcoder, frame by frame *)

Section FrameFacts.
Context {rt : Builtins}.
Variable t : jsstring.

(** The transcoder on a payload that parses, the value [null] included. *)
Lemma transcode_parsed (started : bool) (now : nat) (data : jsstring) (parsed : json) :
  str_eqb data (lit "[DONE]") = false -> JSON_parse data = Some parsed ->
  transcode t started now data
  = if is_string (prop parsed "type") "ping" then
      (started, S now, [Heartbeat (Date_now now)])
    else
      match prop parsed "content" with
      | Some (JStr (c :: content')) =>
          if is_string (prop parsed "node") "agent"
             || is_string (prop parsed "node") "model"
          then (true, now,
                (if started then [] else [TextStart t]) ++ [TextDelta t (c :: content')])
          else (started, now, [])
      | _ =>
          match prop parsed "error" with
          | Some e =>
              if truthy (Some e) then (started, now, [Error e]) else (started, now, [])
          | None => (started, now, [])
          end
      end.
Proof. intros Hd Hp. unfold transcode. rewrite Hd, Hp. now destruct parsed. Qed.

Lemma transcode_passed_over (started : bool) (now : nat) (data : jsstring) :
  passed_over data -> transcode t started now data = (started, now, []).
Proof.
  unfold transcode. intros [-> | [Hp | Hp]].
  - reflexivity.
  - rewrite Hp. now destruct (str_eqb data (lit "[DONE]")).
  - rewrite Hp. now destruct (str_eqb data (lit "[DONE]")).
Qed.

Lemma transcode_heartbeat (started : bool) (now : nat) (data : jsstring) :
  exists started' evs,
    transcode t started now data
    = (started', (if is_ping data then S now else now), evs)
    /\ filter is_heartbeat evs
       = if is_ping data then [Heartbeat (Date_now now)] else [].
Proof.
  unfold is_ping. destruct (str_eqb data (lit "[DONE]")) eqn:Hd.
  { unfold transcode. rewrite Hd. now eexists; eexists. }
  destruct (JSON_parse data) as [parsed|] eqn:Hp.
  - rewrite (transcode_parsed started now data Hd Hp). cbn [negb andb].
    destruct (is_string (prop parsed "type") "ping"); [now eexists; eexists|].
    repeat match goal with
      | |- context [if ?c then _ else _] => destruct c
      | |- context [match ?x with _ => _ end] => destruct x
      end; now eexists; eexists.
  - unfold transcode. rewrite Hd, Hp. now eexists; eexists.
Qed.

Lemma transcode_all_cons (acc : bool * nat * list NormalizedEvent) (data : jsstring)
  (payloads : list jsstring) :
  transcode_all t acc (data :: payloads)
  = transcode_all t
      (let '(started, now, out) := acc in
       let '(started', now', evs) := transcode t started now data in
       (started', now', out ++ evs))
      payloads.
Proof. reflexivity. Qed.

Lemma transcode_all_app (acc : bool * nat * list NormalizedEvent)
  (before after : list jsstring) :
  transcode_all t acc (before ++ after)
  = transcode_all t (transcode_all t acc before) after.
Proof. unfold transcode_all. now rewrite fold_left_app. Qed.

Lemma transcode_all_heartbeats (payloads : list jsstring) (started : bool) (now : nat)
  (out : list NormalizedEvent) :
  exists started' out',
    transcode_all t (started, now, out) payloads
    = (started', (now + length (filter is_ping payloads))%nat, out')
    /\ filter is_heartbeat out'
       = filter is_heartbeat out
           ++ map (fun k => Heartbeat (Date_now k))
                (seq now (length (filter is_ping payloads))).
Proof.
  revert started now out; induction payloads as [|p ps IH]; intros started now out.
  - exists started, out. cbn. now rewrite Nat.add_0_r, app_nil_r.
  - rewrite transcode_all_cons.
    destruct (transcode_heartbeat started now p) as (s1 & e1 & -> & H1).
    destruct (IH s1 (if is_ping p then S now else now) (out ++ e1))
      as (s2 & o2 & -> & H2).
    exists s2, o2. cbn [filter]. rewrite H2, filter_app, H1.
    destruct (is_ping p); cbn [length seq map].
    + split; [f_equal; f_equal; lia|]. now rewrite <- app_assoc.
    + split; [reflexivity|]. now rewrite app_nil_r.
Qed.

(** The text a payload gives does not depend on the state it is read in. *)
Lemma transcode_deltas (started : bool) (now : nat) (data : jsstring) :
  deltas_of (snd (transcode t started now data))
  = deltas_of (snd (transcode t false 0 data)).
Proof.
  destruct (str_eqb data (lit "[DONE]")) eqn:Hd.
  { unfold transcode. now rewrite Hd. }
  destruct (JSON_parse data) as [parsed|] eqn:Hp.
  - rewrite !(transcode_parsed _ _ data Hd Hp).
    repeat match goal with
      | |- context [if ?c then _ else _] => destruct c
      | |- context [match ?x with _ => _ end] => destruct x
      end; reflexivity.
  - unfold transcode. now rewrite Hd, Hp.
Qed.

Lemma deltas_of_app (a b : list NormalizedEvent) :
  deltas_of (a ++ b) = deltas_of a ++ deltas_of b.
Proof. apply flat_map_app. Qed.

Lemma transcode_all_deltas (payloads : list jsstring) (started : bool) (now : nat)
  (out : list NormalizedEvent) :
  deltas_of (snd (transcode_all t (started, now, out) payloads))
  = deltas_of out
      ++ flat_map (fun data => deltas_of (snd (transcode t false 0 data))) payloads.
Proof.
  revert started now out; induction payloads as [|p ps IH]; intros started now out.
  - cbn. now rewrite app_nil_r.
  - rewrite transcode_all_cons.
    pose proof (transcode_deltas started now p) as Hp.
    destruct (transcode t started now p) as [[s1 n1] e1].
    rewrite IH, deltas_of_app. cbn [snd flat_map] in *.
    now rewrite Hp, app_assoc.
Qed.

End FrameFacts.

(** X1: every keep-alive of the backend is forwarded, and nothing else makes a
    heartbeat: the heartbeats sent are as many as the ping payloads read,
    and the one of rank [k] carries the reading of rank [k] of the clock. *)
Theorem every_ping_is_forwarded {rt : Builtins} (textId : jsstring) (b : Body) :
  filter is_heartbeat (fst (transcoded textId (Some b)))
  = map (fun k => Heartbeat (Date_now k))
      (seq 0 (length (filter is_ping (decoded_payloads (chunks b))))).
Proof.
  rewrite transcoded_by_payloads.
  destruct (transcode_all_heartbeats textId (decoded_payloads (chunks b)) false 0 [])
    as (s & o & -> & H).
  cbn [filter app] in H. destruct (read_fails b); cbn [fst]; [exact H|].
  rewrite filter_app, H. destruct s; cbn [filter is_heartbeat]; now rewrite app_nil_r.
Qed.

(** X2: the text deltas sent are made frame by frame: each payload gives the
    text it would give as the first payload of a stream, at most one delta,
    whatever was read before it, and the deltas follow the order of the
    payloads. *)
Theorem text_deltas_are_per_frame {rt : Builtins} (textId : jsstring) (b : Body) :
  deltas_of (fst (transcoded textId (Some b)))
  = flat_map (fun data => deltas_of (snd (transcode textId false 0 data)))
      (decoded_payloads (chunks b))
  /\ forall data started now,
       (length (deltas_of (snd (transcode textId started now data))) <= 1)%nat.
Proof.
  split.
  - rewrite transcoded_by_payloads.
    pose proof (transcode_all_deltas textId (decoded_payloads (chunks b)) false 0 []) as H.
    destruct (transcode_all textId _ _) as [[s n] o]. cbn [snd] in H.
    change (deltas_of []) with (@nil jsstring) in H. cbn [app] in H.
    destruct (read_fails b); cbn [fst]; [exact H|].
    rewrite deltas_of_app, H. destruct s; cbn; now rewrite app_nil_r.
  - intros data started now.
    destruct (str_eqb data (lit "[DONE]")) eqn:Hd.
    { unfold transcode. rewrite Hd. cbn. lia. }
    destruct (JSON_parse data) as [parsed|] eqn:Hp.
    + rewrite (transcode_parsed textId started now data Hd Hp).
      repeat match goal with
        | |- context [if ?c then _ else _] => destruct c
        | |- context [match ?x with _ => _ end] => destruct x
        end; cbn; lia.
    + unfold transcode. rewrite Hd, Hp. cbn. lia.
Qed.

(** X3: a payload that is the done marker, or that [JSON.parse] refuses, or
    that is the value [null], is passed over wherever it stands: the
    generator yields the same events and completes the same way as for a
    body without it.  In particular the done marker does not end the
    reading. *)
Theorem passed_over_payloads_change_nothing {rt : Builtins} (textId : jsstring)
  (b1 b2 : Body) (before after : list jsstring) (data : jsstring) :
  passed_over data ->
  decoded_payloads (chunks b1) = before ++ data :: after ->
  decoded_payloads (chunks b2) = before ++ after ->
  read_fails b1 = read_fails b2 ->
  transcoded textId (Some b1) = transcoded textId (Some b2).
Proof.
  intros Hd H1 H2 Hf. rewrite !transcoded_by_payloads, H1, H2, Hf.
  rewrite !transcode_all_app, transcode_all_cons.
  destruct (transcode_all textId (false, 0%nat, []) before) as [[s n] o].
  rewrite (transcode_passed_over textId s n Hd). now rewrite app_nil_r.
Qed.

Lemma passed_over_payloads_change_nothing_witness :
  transcoded (rt := Reference.runtime) (lit "text-1")
    (Some (Sample.body_of
             (Sample.node_frame "agent" "2+2" ++ Sample.done_frame
                ++ Sample.node_frame "model" " is 4") false))
  = transcoded (rt := Reference.runtime) (lit "text-1")
      (Some (Sample.body_of
               (Sample.node_frame "agent" "2+2" ++ Sample.node_frame "model" " is 4")
               false)).
Proof.
  apply (@passed_over_payloads_change_nothing Reference.runtime (lit "text-1")
           (Sample.body_of
              (Sample.node_frame "agent" "2+2" ++ Sample.done_frame
                 ++ Sample.node_frame "model" " is 4") false)
           (Sample.body_of
              (Sample.node_frame "agent" "2+2" ++ Sample.node_frame "model" " is 4")
              false)
           [skipn 6 (removelast (removelast (Sample.node_frame "agent" "2+2")))]
           [skipn 6 (removelast (removelast (Sample.node_frame "model" " is 4")))]
           (lit "[DONE]")).
  - left. reflexivity.
  - vm_compute. reflexivity.
  - vm_compute. reflexivity.
  - vm_compute. reflexivity.
Defined.

(** X4: the text span is closed only when the body was read to its end: if the
    generator throws, no [TextEnd] is among the events, even when a
    [TextStart] is; if it returns, [TextEnd] is there exactly when some
    [TextDelta] is. *)
Theorem text_end_only_on_normal_completion {rt : Builtins} (textId : jsstring)
  (body : option Body) :
  (snd (transcoded textId body) = Threw ->
   forall i, ~ In (TextEnd i) (fst (transcoded textId body)))
  /\ (snd (transcoded textId body) = Returned ->
      (In (TextEnd textId) (fst (transcoded textId body))
       <-> exists delta, In (TextDelta textId delta) (fst (transcoded textId body)))).
Proof.
  destruct body as [b|]; [|split; [intros _ i []|discriminate]].
  rewrite transcoded_by_payloads.
  destruct (transcode_all_shape textId (decoded_payloads (chunks b)) false 0 [])
    as (started & now & evs & -> & _ & Hs).
  cbn [app]. destruct (Hs eq_refl) as [(-> & Q)|(-> & pre & d & post & -> & Q & F)];
    destruct (read_fails b); cbn [fst snd]; (split; [|intros E; try discriminate E]).
  - intros _ i I. sort_out.
  - discriminate.
  - rewrite app_nil_r. split; [intros I|intros (delta & I)]; sort_out.
  - intros _ i I. sort_out.
  - discriminate.
  - split; [intros _|intros _].
    + exists d. apply in_or_app. left. apply in_or_app. right. right. now left.
    + apply in_or_app. right. now left.
Qed.

(** ** The sink, under any sequence of calls and a consumer that may cancel *)




(** ** The text that is stored *)

Section StoredText.
Context {rt : Builtins}.

Lemma accumulate_delta (content i delta : jsstring) :
  JSON_parse [] = None -> JSON_parse (lit "[DONE]") = None ->
  reparses (TextDelta i delta) ->
  accumulate content (sse (TextDelta i delta)) = content ++ delta.
Proof.
  intros Hempty Hdone (parsed & Hp & Ht & Hd).
  unfold accumulate. rewrite sse_starts_with_data.
  destruct (str_eqb (trim (slice 6 (sse (TextDelta i delta)))) []) eqn:E1.
  { apply str_eqb_eq in E1. rewrite E1 in Hp. congruence. }
  destruct (str_eqb (trim (slice 6 (sse (TextDelta i delta)))) (lit "[DONE]")) eqn:E2.
  { apply str_eqb_eq in E2. rewrite E2 in Hp. congruence. }
  cbn [negb andb]. rewrite Hp.
  change (prop (JObj _) "type") with (Some (JStr (lit "text-delta"))) in Ht.
  change (prop (JObj _) "delta") with (Some (JStr delta)) in Hd.
  destruct parsed; try discriminate Ht. rewrite Ht, Hd.
  change (is_string (Some (JStr (lit "text-delta"))) "text-delta") with true.
  cbn [andb truthy ToString]. destruct delta as [|c delta]; [now rewrite app_nil_r|].
  reflexivity.
Qed.

Lemma accumulate_all (events : list NormalizedEvent) (content : jsstring) :
  JSON_parse [] = None -> JSON_parse (lit "[DONE]") = None ->
  Forall reparses events ->
  fold_left accumulate (map sse events) content = content ++ concat (deltas_of events).
Proof.
  intros Hempty Hdone Hr. revert content.
  induction Hr as [|e events He _ IH]; intros content; [cbn; now rewrite app_nil_r|].
  cbn [map fold_left]. rewrite IH.
  destruct e as [a|i|i delta|i|r|v|ts|];
    try (rewrite accumulate_other; [reflexivity|exact He|discriminate]).
  rewrite (accumulate_delta content Hempty Hdone He).
  cbn [deltas_of flat_map concat app]. now rewrite <- app_assoc.
Qed.

End StoredText.

(** X6: when the body is read to its end, the text stored for the assistant is
    the concatenation, in order, of the deltas sent to the client, and
    nothing is stored when there is none.  [JSON.parse] is taken to refuse
    the empty text and the done marker, and to read back the type and the
    delta of a chunk the generator printed. *)
Theorem stored_text_is_the_text_sent {rt : Builtins} (env : Env) (chatId : jsstring)
  (titlePromise : option jsstring) (b : Body) :
  JSON_parse [] = None -> JSON_parse (lit "[DONE]") = None ->
  read_fails b = false ->
  Forall reparses (fst (transcoded (generateUUID env 1) (Some b))) ->
  snd (start env chatId titlePromise (Some b))
  = (if negb (str_eqb (concat (deltas_of (fst (transcoded (generateUUID env 1) (Some b)))))
                [])
     then
       [SaveMessages
          [assistant_message chatId (generateUUID env 0)
             (concat (deltas_of (fst (transcoded (generateUUID env 1) (Some b)))))]]
     else [])
    ++ match titlePromise with
       | Some title => [UpdateChatTitle chatId title]
       | None => []
       end.
Proof.
  intros Hempty Hdone Hf Hr. rewrite start_effects.
  assert (Hc : snd (transcoded (generateUUID env 1) (Some b)) = Returned).
  { rewrite transcoded_by_payloads, Hf.
    now destruct (transcode_all (generateUUID env 1) _ _) as [[s n] o]. }
  rewrite Hc. cbn [content_after]. now rewrite (accumulate_all [] Hempty Hdone Hr).
Qed.

Lemma stored_text_is_the_text_sent_witness :
  snd (start (rt := Reference.runtime)
         (Sample.env "What is 2+2?" FetchRejected) (lit "chat-1") None
         (Some (Sample.body_of
                  (Sample.node_frame "agent" "2+2" ++ Sample.ping_frame
                     ++ Sample.node_frame "model" " is 4" ++ Sample.done_frame)
                  false)))
  = [SaveMessages [assistant_message (lit "chat-1") (lit "assistant-1") (lit "2+2 is 4")]].
Proof.
  pose proof (@stored_text_is_the_text_sent Reference.runtime
                (Sample.env "What is 2+2?" FetchRejected) (lit "chat-1") None
                (Sample.body_of
                   (Sample.node_frame "agent" "2+2" ++ Sample.ping_frame
                      ++ Sample.node_frame "model" " is 4" ++ Sample.done_frame)
                   false)
                ltac:(vm_compute; reflexivity) ltac:(vm_compute; reflexivity)
                ltac:(vm_compute; reflexivity)) as H.
  replace (fst (transcoded (rt := Reference.runtime)
                  (generateUUID (Sample.env "What is 2+2?" FetchRejected) 1)
                  (Some (Sample.body_of
                           (Sample.node_frame "agent" "2+2" ++ Sample.ping_frame
                              ++ Sample.node_frame "model" " is 4" ++ Sample.done_frame)
                           false))))
    with [TextStart (lit "text-1"); TextDelta (lit "text-1") (lit "2+2");
          Heartbeat (Date_now (Builtins := Reference.runtime) 0);
          TextDelta (lit "text-1") (lit " is 4"); TextEnd (lit "text-1")] in H
    by (vm_compute; reflexivity).
  rewrite H.
  - vm_compute. reflexivity.
  - repeat (constructor;
            [red; cbn [event_object]; eexists;
             split; [vm_compute; reflexivity|split; vm_compute; reflexivity]|]).
    constructor.
Defined.

(** ** Line feeds through the decoder *)

Lemma utf8_lead_well_begun (x : byte) :
  well_begun (fst (utf8_lead (Byte.to_N x))) = true
  /\ (In LF (snd (utf8_lead (Byte.to_N x))) -> x = x0a).
Proof.
  destruct x;
    (split;
     [reflexivity
     |vm_compute; intros H; repeat (destruct H as [H|H]);
      try discriminate H; try contradiction; reflexivity]).
Qed.

Lemma continuation_bits (x : byte) :
  ((144 <=? Byte.to_N x) && (Byte.to_N x <=? 191)) = true ->
  N.land (Byte.to_N x) 63 <> 0.
Proof. destruct x; vm_compute; intros H; discriminate. Qed.

Lemma lor_shiftl_not_LF (c y : N) : c <> 0 -> N.lor (N.shiftl c 6) y <> LF.
Proof.
  intros Hc E. apply Hc.
  assert (H : N.shiftr (N.lor (N.shiftl c 6) y) 6 = 0) by now rewrite E.
  rewrite N.shiftr_lor, N.shiftr_shiftl_l, N.sub_diag, N.shiftl_0_r in H by reflexivity.
  now apply N.lor_eq_0_iff in H.
Qed.

Lemma utf8_handler_well_begun (d : Utf8Decoder) (x : byte) :
  well_begun d = true ->
  well_begun (fst (utf8_handler d (Byte.to_N x))) = true
  /\ (In LF (snd (utf8_handler d (Byte.to_N x))) -> x = x0a).
Proof.
  intros Hd. pose proof (utf8_lead_well_begun x) as (Hl1 & Hl2).
  unfold utf8_handler. destruct (bytes_needed d =? 0) eqn:E0; [now split|].
  destruct (negb _) eqn:Er.
  - destruct (utf8_lead (Byte.to_N x)) as [d' out]. cbn [fst snd] in *.
    split; [exact Hl1|]. intros [E|I]; [discriminate E|now apply Hl2].
  - apply negb_false_iff in Er. apply andb_true_iff in Er as (Hlo & Hhi).
    apply N.leb_le in Hlo, Hhi.
    unfold well_begun in Hd. rewrite E0 in Hd. cbn [orb] in Hd.
    apply andb_true_iff in Hd as (Hseen & Hbits). apply N.ltb_lt in Hseen.
    destruct (bytes_seen d + 1 =? bytes_needed d) eqn:Ef.
    + cbn [fst snd]. split; [reflexivity|]. intros [E|[]]. exfalso.
      apply N.eqb_eq in Ef.
      apply orb_true_iff in Hbits as [Hc|Hb].
      * apply negb_true_iff, N.eqb_neq in Hc. exact (lor_shiftl_not_LF _ Hc E).
      * apply andb_true_iff in Hb as (Hb & _). apply andb_true_iff in Hb as (Hb & _).
        apply N.ltb_lt in Hb. lia.
    + cbn [fst snd]. split; [|intros []].
      apply N.eqb_neq in Ef. unfold well_begun.
      cbn [bytes_needed bytes_seen code_point lower_boundary upper_boundary].
      rewrite E0. cbn [orb].
      assert (Hlt : (bytes_seen d + 1 <? bytes_needed d) = true) by (apply N.ltb_lt; lia).
      rewrite Hlt. cbn [andb].
      assert (Hne : N.lor (N.shiftl (code_point d) 6) (N.land (Byte.to_N x) 63) <> 0).
      { intros E. apply N.lor_eq_0_iff in E as (E1 & E2).
        apply orb_true_iff in Hbits as [Hc|Hb].
        - apply negb_true_iff, N.eqb_neq in Hc. apply Hc.
          now apply N.shiftl_eq_0_iff in E1.
        - apply andb_true_iff in Hb as (Hb & Hup). apply andb_true_iff in Hb as (_ & Hlow).
          apply N.leb_le in Hup, Hlow.
          apply (continuation_bits x); [|exact E2].
          apply andb_true_iff. split; apply N.leb_le; lia. }
      apply N.eqb_neq in Hne. now rewrite Hne.
Qed.

Lemma code_units_LF (cp : N) : In LF (code_units cp) -> cp = LF.
Proof.
  unfold code_units, LF. destruct (cp <? 65536).
  - now intros [E|[]].
  - intros [E|[E|[]]]; lia.
Qed.

Lemma serialize_LF (cps : list N) (bom_seen : bool) :
  In LF (snd (serialize bom_seen cps)) -> In LF cps.
Proof.
  revert bom_seen; induction cps as [|cp cps IH]; intros bom_seen; [intros []|].
  cbn [serialize]. destruct (negb bom_seen && (cp =? 65279)).
  - intros I. right. exact (IH _ I).
  - specialize (IH true). destruct (serialize true cps) as [b out]. cbn [snd] in *.
    intros I. apply in_app_or in I as [I|I].
    + left. now apply code_units_LF.
    + right. now apply IH.
Qed.

Lemma decode_byte_well_begun (d : TextDecoder) (x : byte) :
  well_begun (utf8 d) = true ->
  well_begun (utf8 (fst (decode_byte d x))) = true
  /\ (In LF (snd (decode_byte d x)) -> x = x0a).
Proof.
  intros Hd. destruct (utf8_handler_well_begun (utf8 d) x Hd) as (H1 & H2).
  unfold decode_byte. destruct (utf8_handler (utf8 d) (Byte.to_N x)) as [u cps].
  pose proof (serialize_LF cps (BOM_seen d)) as Hs.
  destruct (serialize (BOM_seen d) cps) as [seen out]. cbn [fst snd utf8] in *.
  split; [exact H1|]. intros I. apply H2, Hs, I.
Qed.

(** Only a line feed byte makes a line feed: the decoder, from the state
    it is in after any bytes, turns bytes without the byte 0A into text
    without a line feed. *)
Lemma TextDecoder_decode_LF (value : list byte) (d : TextDecoder) :
  well_begun (utf8 d) = true ->
  well_begun (utf8 (fst (TextDecoder_decode d value))) = true
  /\ (~ In x0a value -> ~ In LF (snd (TextDecoder_decode d value))).
Proof.
  revert d; induction value as [|x value IH]; intros d Hd; [split; [exact Hd|auto]|].
  cbn [TextDecoder_decode].
  destruct (decode_byte_well_begun d x Hd) as (H1 & H2).
  destruct (decode_byte d x) as [d1 out1]. cbn [fst snd] in *.
  destruct (IH d1 H1) as (H3 & H4).
  destruct (TextDecoder_decode d1 value) as [d2 out2]. cbn [fst snd] in *.
  split; [exact H3|]. intros Hn I. apply in_app_or in I as [I|I].
  - apply Hn. left. now apply H2.
  - apply H4; [|exact I]. intros J. apply Hn. now right.
Qed.

Lemma split_LF_segments (s : jsstring) : Forall (fun seg => ~ In LF seg) (split_LF s).
Proof.
  induction s as [|c s IH]; [repeat constructor; auto|].
  rewrite split_LF_cons. destruct (c =? LF) eqn:Ec.
  - constructor; [auto|exact IH].
  - apply N.eqb_neq in Ec. destruct IH as [|seg rest Hseg Hrest]; cbn.
    + repeat constructor. intros [E|[]]. congruence.
    + constructor; [|exact Hrest]. intros [E|I]; [congruence|contradiction].
Qed.

Lemma last_in {A} (l : list A) (d : A) : l <> [] -> In (last l d) l.
Proof.
  induction l as [|a [|b l] IH]; intros Hn; [contradiction|now left|].
  right. apply IH. discriminate.
Qed.

(** Text without a line feed completes no line. *)
Lemma split_LF_tail (x y : jsstring) :
  ~ In LF y -> removelast (split_LF (x ++ y)) = removelast (split_LF x).
Proof.
  intros Hy. rewrite split_LF_app, (split_LF_one (last (split_LF x) [] ++ y)).
  - apply removelast_last.
  - intros I. apply in_app_or in I as [I|I]; [|contradiction].
    pose proof (split_LF_segments x) as F.
    apply (proj1 (Forall_forall _ _) F (last (split_LF x) [])); [|exact I].
    apply last_in, split_LF_not_nil.
Qed.

Lemma complete_lines_tail (pieces : list (list byte)) (tail : list byte) :
  ~ In x0a tail -> complete_lines (pieces ++ [tail]) = complete_lines pieces.
Proof.
  intros Hn. unfold complete_lines.
  rewrite concat_app. cbn [concat]. rewrite app_nil_r, TextDecoder_decode_app.
  destruct (TextDecoder_decode_LF (concat pieces) TextDecoder_new eq_refl) as (Hw & _).
  destruct (TextDecoder_decode TextDecoder_new (concat pieces)) as [d1 out1].
  cbn [fst] in Hw. destruct (TextDecoder_decode_LF tail d1 Hw) as (_ & Ht).
  destruct (TextDecoder_decode d1 tail) as [d2 out2]. cbn [snd] in *.
  apply split_LF_tail, Ht, Hn.
Qed.

(** X7: bytes after the last line feed of the body never make an event: a
    last chunk without the byte 0A adds no payload to those the frame
    decoder hands over, so a final frame that no line feed ends is lost. *)
Theorem unterminated_tail_is_never_read {rt : Builtins} (pieces : list (list byte))
  (tail : list byte) (fails : bool) (textId : jsstring) :
  ~ In x0a tail ->
  decoded_payloads (pieces ++ [tail]) = decoded_payloads pieces
  /\ transcoded textId (Some {| chunks := pieces ++ [tail]; read_fails := fails |})
     = transcoded textId (Some {| chunks := pieces; read_fails := fails |}).
Proof.
  intros Hn.
  assert (H : decoded_payloads (pieces ++ [tail]) = decoded_payloads pieces)
    by now rewrite !decoded_payloads_lines, complete_lines_tail.
  split; [exact H|]. rewrite !transcoded_by_payloads. cbn [chunks read_fails].
  now rewrite H.
Qed.

Lemma unterminated_tail_is_never_read_witness :
  transcoded (rt := Reference.runtime) (lit "text-1")
    (Some {| chunks :=
               [TextEncoder_encode (Sample.node_frame "agent" "4")]
                 ++ [TextEncoder_encode (lit "data: [1]")];
             read_fails := false |})
  = transcoded (rt := Reference.runtime) (lit "text-1")
      (Some {| chunks := [TextEncoder_encode (Sample.node_frame "agent" "4")];
               read_fails := false |}).
Proof.
  apply (@unterminated_tail_is_never_read Reference.runtime
           [TextEncoder_encode (Sample.node_frame "agent" "4")]
           (TextEncoder_encode (lit "data: [1]")) false (lit "text-1")).
  vm_compute. intros H. repeat (destruct H as [H|H]; [discriminate H|]). exact H.
Defined.

(** ** The handler, check by check *)

Lemma configured_negb (url : option jsstring) :
  negb (configured url) = false -> configured url = true.
Proof. now destruct (configured url). Qed.

(** A request either passes every check before its text is looked at, or
    is refused by one of them with nothing done. *)
Lemma prelude_cases (env : Env) :
  (exists rb user, reaches_validation env rb user)
  \/ (prelude env [] = (inl (ErrorResponse bad_request_api), [])
      /\ (request_body env = None \/ configured (RENDER_BACKEND_URL env) = false))
  \/ (prelude env [] = (inl (ErrorResponse unauthorized_chat), [])
      /\ exists rb,
           request_body env = Some rb /\ configured (RENDER_BACKEND_URL env) = true
           /\ session_user env = None)
  \/ (prelude env [] = (inl (ErrorResponse rate_limit_chat), [])
      /\ exists rb user,
           request_body env = Some rb /\ configured (RENDER_BACKEND_URL env) = true
           /\ session_user env = Some user
           /\ maxMessagesPerDay env (user_type user) < messageCount env)
  \/ (prelude env [] = (inl (ErrorResponse forbidden_chat), [])
      /\ exists rb user chat,
           request_body env = Some rb /\ configured (RENDER_BACKEND_URL env) = true
           /\ session_user env = Some user
           /\ messageCount env <= maxMessagesPerDay env (user_type user)
           /\ stored_chat env = Some chat /\ chat_userId chat <> user_id user).
Proof.
  unfold prelude, reaches_validation.
  destruct (request_body env) as [rb|]; [|right; left; split; [reflexivity|now left]].
  destruct (configured (RENDER_BACKEND_URL env)) eqn:Eu;
    [|right; left; split; [reflexivity|now right]].
  cbn [negb].
  destruct (session_user env) as [user|];
    [|right; right; left; split; [reflexivity|now exists rb]].
  destruct (maxMessagesPerDay env (user_type user) <? messageCount env) eqn:El.
  { apply N.ltb_lt in El. right; right; right; left. split; [reflexivity|].
    now exists rb, user. }
  apply N.ltb_ge in El.
  destruct (stored_chat env) as [chat|].
  - destruct (str_eqb (chat_userId chat) (user_id user)) eqn:Eo.
    + left. exists rb, user. apply str_eqb_eq in Eo. repeat split; auto.
      now intros ? [= <-].
    + apply str_eqb_neq in Eo. right; right; right; right. split; [reflexivity|].
      now exists rb, user, chat.
  - left. exists rb, user. repeat split; auto. discriminate.
Qed.

Lemma before_validation_effects (env : Env) (rb : PostRequestBody) (user : User) :
  filter is_fetch (effects_before_validation env rb user) = []
  /\ filter is_assistant_save (effects_before_validation env rb user) = []
  /\ (forall c t, ~ In (UpdateChatTitle c t) (effects_before_validation env rb user))
  /\ (forall m, message rb = Some m -> role m = lit "user" ->
                In (SaveMessages [user_message (id rb) m])
                  (effects_before_validation env rb user)).
Proof.
  unfold effects_before_validation, stored_before_validation.
  destruct (message rb) as [m|]; [|repeat split; auto; discriminate].
  destruct (str_eqb (role m) (lit "user")) eqn:Er.
  - destruct (stored_chat env) as [chat|]; cbn [app];
      (split; [reflexivity|split; [reflexivity|split]]).
    + intros c t [E|[]]. discriminate E.
    + intros m' [= <-] _. now left.
    + intros c t [E|[E|[E|[]]]]; discriminate E.
    + intros m' [= <-] _. right. right. now left.
  - repeat split; auto. intros m' [= <-] E. rewrite E in Er. discriminate Er.
Qed.

Section HandlerCases.
Context {rt : Builtins}.

Lemma POST_reached (env : Env) (rb : PostRequestBody) (user : User) :
  reaches_validation env rb user ->
  POST env
  = if str_eqb (messageText rb) [] then
      (ErrorResponse bad_request_api, effects_before_validation env rb user)
    else
      match fetch env with
      | FetchResponse status (Some b) =>
          if ok status then
            (StreamResponse (fst (start env (id rb) (title_promise env rb) (Some b))),
             effects_before_validation env rb user
               ++ Fetch (messageText rb) (id rb)
               :: snd (start env (id rb) (title_promise env rb) (Some b)))
          else
            (ErrorResponse offline_chat,
             effects_before_validation env rb user ++ [Fetch (messageText rb) (id rb)])
      | _ =>
          (ErrorResponse offline_chat,
           effects_before_validation env rb user ++ [Fetch (messageText rb) (id rb)])
      end.
Proof.
  intros Hr. unfold POST, run, bind. rewrite (prelude_reached Hr).
  destruct (str_eqb (messageText rb) []); [reflexivity|].
  destruct (fetch env) as [|status [b|]]; [reflexivity| |now destruct (ok status)].
  destruct (ok status); [|reflexivity].
  destruct (start env (id rb) (title_promise env rb) (Some b)) as [sink effects].
  cbn [fst snd]. now rewrite <- app_assoc.
Qed.

Lemma POST_refused_early (env : Env) (code : ErrorCode) :
  prelude env [] = (inl (ErrorResponse code), []) ->
  POST env = (ErrorResponse code, []) /\ Legacy.POST env = (ErrorResponse code, []).
Proof. intros Hp. unfold POST, Legacy.POST, run, bind. now rewrite Hp. Qed.

Lemma start_effects_kinds (env : Env) (chatId : jsstring) (titlePromise : option jsstring)
  (body : option Body) :
  filter is_fetch (snd (start env chatId titlePromise body)) = []
  /\ (forall c t, In (UpdateChatTitle c t) (snd (start env chatId titlePromise body)) ->
                  c = chatId /\ titlePromise = Some t).
Proof.
  rewrite start_effects. cbv zeta.
  match goal with |- context [if ?c then _ else _] => destruct c end;
    destruct titlePromise as [title|]; (split; [reflexivity|]); intros c t I; sort_out;
    try discriminate I; try now injection I as <- <-.
Qed.

End HandlerCases.

Lemma Legacy_POST_reached {rt : Builtins} (env : Env) (rb : PostRequestBody) (user : User) :
  reaches_validation env rb user ->
  Legacy.POST env
  = if str_eqb (messageText rb) [] then
      (ErrorResponse bad_request_api, effects_before_validation env rb user)
    else
      match fetch env with
      | FetchResponse status body =>
          if ok status then
            (StreamResponse (fst (Legacy.start env (id rb) (title_promise env rb) body)),
             effects_before_validation env rb user
               ++ Fetch (messageText rb) (id rb)
               :: snd (Legacy.start env (id rb) (title_promise env rb) body))
          else
            (ErrorResponse offline_chat,
             effects_before_validation env rb user ++ [Fetch (messageText rb) (id rb)])
      | FetchRejected =>
          (ErrorResponse offline_chat,
           effects_before_validation env rb user ++ [Fetch (messageText rb) (id rb)])
      end.
Proof.
  intros Hr. unfold Legacy.POST, run, bind. rewrite (prelude_reached Hr).
  destruct (str_eqb (messageText rb) []); [reflexivity|].
  destruct (fetch env) as [|status body]; [reflexivity|].
  destruct (ok status); [|reflexivity].
  destruct (Legacy.start env (id rb) (title_promise env rb) body) as [sink effects].
  cbn [fst snd]. now rewrite <- app_assoc.
Qed.

Lemma reaches_validation_unique (env : Env) (rb rb' : PostRequestBody) (user user' : User) :
  reaches_validation env rb user -> reaches_validation env rb' user' ->
  rb = rb' /\ user = user'.
Proof. intros (H1 & _ & H2 & _) (H1' & _ & H2' & _). split; congruence. Qed.

(** X8: the request is answered with a stream exactly when it passes every
    check, its text is not empty, and the backend answers with a success
    status and a body.  The earlier version asked for no body: without one
    it opened a stream all the same. *)
Theorem POST_streams_exactly_when {rt : Builtins} (env : Env) :
  ((exists sink, fst (POST env) = StreamResponse sink)
   <-> exists rb user status b,
         reaches_validation env rb user /\ messageText rb <> []
         /\ fetch env = FetchResponse status (Some b) /\ ok status = true)
  /\ ((exists sink, fst (Legacy.POST env) = StreamResponse sink)
      <-> exists rb user status body,
            reaches_validation env rb user /\ messageText rb <> []
            /\ fetch env = FetchResponse status body /\ ok status = true).
Proof.
  split; split.
  - intros (sink & Hs).
    destruct (prelude_cases env)
      as [(rb & user & Hr)|[(Hp & _)|[(Hp & _)|[(Hp & _)|(Hp & _)]]]];
      try (rewrite (proj1 (POST_refused_early env Hp)) in Hs; discriminate Hs).
    rewrite (POST_reached Hr) in Hs.
    destruct (str_eqb (messageText rb) []) eqn:Et; [discriminate Hs|].
    apply str_eqb_neq in Et.
    destruct (fetch env) as [|status [b|]] eqn:Ef; try discriminate Hs.
    destruct (ok status) eqn:Eo; [|discriminate Hs].
    now exists rb, user, status, b.
  - intros (rb & user & status & b & Hr & Ht & Hf & Ho).
    apply str_eqb_neq in Ht. rewrite (POST_reached Hr), Ht, Hf, Ho. now eexists.
  - intros (sink & Hs).
    destruct (prelude_cases env)
      as [(rb & user & Hr)|[(Hp & _)|[(Hp & _)|[(Hp & _)|(Hp & _)]]]];
      try (rewrite (proj2 (POST_refused_early env Hp)) in Hs; discriminate Hs).
    rewrite (Legacy_POST_reached Hr) in Hs.
    destruct (str_eqb (messageText rb) []) eqn:Et; [discriminate Hs|].
    apply str_eqb_neq in Et.
    destruct (fetch env) as [|status body] eqn:Ef; try discriminate Hs.
    destruct (ok status) eqn:Eo; [|discriminate Hs].
    now exists rb, user, status, body.
  - intros (rb & user & status & body & Hr & Ht & Hf & Ho).
    apply str_eqb_neq in Ht. rewrite (Legacy_POST_reached Hr), Ht, Hf, Ho. now eexists.
Qed.

(** X9: a request refused for want of a session, for exceeding the daily
    limit, or for a chat of someone else, leaves no trace: nothing has been
    stored and the backend has not been called, in either version. *)
Theorem refusals_leave_no_trace {rt : Builtins} (env : Env) (code : ErrorCode) :
  code = unauthorized_chat \/ code = rate_limit_chat \/ code = forbidden_chat ->
  (fst (POST env) = ErrorResponse code -> snd (POST env) = [])
  /\ (fst (Legacy.POST env) = ErrorResponse code -> snd (Legacy.POST env) = []).
Proof.
  intros Hcode.
  destruct (prelude_cases env)
    as [(rb & user & Hr)|[(Hp & _)|[(Hp & _)|[(Hp & _)|(Hp & _)]]]];
    try (destruct (POST_refused_early env Hp) as (-> & ->); now split).
  rewrite (POST_reached Hr), (Legacy_POST_reached Hr).
  destruct (str_eqb (messageText rb) []);
    [split; intros [= <-]; destruct Hcode as [E|[E|E]]; discriminate E|].
  destruct (fetch env) as [|status body].
  { split; intros [= <-]; destruct Hcode as [E|[E|E]]; discriminate E. }
  destruct (ok status), body as [b|];
    split; intros E; try discriminate E; injection E as <-;
    destruct Hcode as [E|[E|E]]; discriminate E.
Qed.

Lemma refusals_leave_no_trace_witness :
  snd (POST (rt := Reference.runtime)
         {| request_body := Some (Sample.request "What is 2+2?");
            RENDER_BACKEND_URL := Some (lit "https://agent.example");
            session_user := Some Sample.someone;
            messageCount := 101;
            maxMessagesPerDay := fun _ => 100;
            stored_chat := None;
            fetch := FetchRejected;
            generateUUID := Sample.uuid;
            generated_title := lit "Sums" |})
  = [].
Proof.
  apply (proj1 (@refusals_leave_no_trace Reference.runtime
                  {| request_body := Some (Sample.request "What is 2+2?");
                     RENDER_BACKEND_URL := Some (lit "https://agent.example");
                     session_user := Some Sample.someone;
                     messageCount := 101;
                     maxMessagesPerDay := fun _ => 100;
                     stored_chat := None;
                     fetch := FetchRejected;
                     generateUUID := Sample.uuid;
                     generated_title := lit "Sums" |}
                  rate_limit_chat
                  ltac:(right; left; reflexivity))).
  vm_compute. reflexivity.
Defined.

(** X10: which check refuses: the unauthorized answer is for a readable request
    to a configured backend without a signed-in user; the rate-limit answer
    is for a signed-in user whose count of messages is above the day's
    allowance of their type, a count equal to the allowance passing; the
    forbidden answer is for a user within the allowance asking in a chat
    that exists and is not theirs.  The allowance is checked before the
    chat is looked up. *)
Theorem refusal_reasons {rt : Builtins} (env : Env) :
  (fst (POST env) = ErrorResponse unauthorized_chat
   <-> exists rb,
         request_body env = Some rb /\ configured (RENDER_BACKEND_URL env) = true
         /\ session_user env = None)
  /\ (fst (POST env) = ErrorResponse rate_limit_chat
      <-> exists rb user,
            request_body env = Some rb /\ configured (RENDER_BACKEND_URL env) = true
            /\ session_user env = Some user
            /\ maxMessagesPerDay env (user_type user) < messageCount env)
  /\ (fst (POST env) = ErrorResponse forbidden_chat
      <-> exists rb user chat,
            request_body env = Some rb /\ configured (RENDER_BACKEND_URL env) = true
            /\ session_user env = Some user
            /\ messageCount env <= maxMessagesPerDay env (user_type user)
            /\ stored_chat env = Some chat /\ chat_userId chat <> user_id user).
Proof.
  assert (Hreached : forall rb user code,
             reaches_validation env rb user -> fst (POST env) = ErrorResponse code ->
             code = bad_request_api \/ code = offline_chat).
  { intros rb user code Hr. rewrite (POST_reached Hr).
    destruct (str_eqb (messageText rb) []); [intros [= <-]; now left|].
    destruct (fetch env) as [|status [b|]]; try (intros [= <-]; now right).
    destruct (ok status); [discriminate|intros [= <-]; now right]. }
  assert (Hconfigured : forall url, configured url = true -> negb (configured url) = false)
    by (intros url ->; reflexivity).
  split; [|split]; split.
  - intros Hs.
    destruct (prelude_cases env)
      as [(rb & user & Hr)|[(Hp & _)|[(Hp & H)|[(Hp & _)|(Hp & _)]]]];
      try (rewrite (proj1 (POST_refused_early env Hp)) in Hs; discriminate Hs).
    + destruct (Hreached _ _ _ Hr Hs) as [E|E]; discriminate E.
    + exact H.
  - intros (rb & Hb & Hu & Hs). unfold POST, run, bind, prelude.
    now rewrite Hb, (Hconfigured _ Hu), Hs.
  - intros Hs.
    destruct (prelude_cases env)
      as [(rb & user & Hr)|[(Hp & _)|[(Hp & _)|[(Hp & H)|(Hp & _)]]]];
      try (rewrite (proj1 (POST_refused_early env Hp)) in Hs; discriminate Hs).
    + destruct (Hreached _ _ _ Hr Hs) as [E|E]; discriminate E.
    + exact H.
  - intros (rb & user & Hb & Hu & Hs & Hl). apply N.ltb_lt in Hl.
    unfold POST, run, bind, prelude. now rewrite Hb, (Hconfigured _ Hu), Hs, Hl.
  - intros Hs.
    destruct (prelude_cases env)
      as [(rb & user & Hr)|[(Hp & _)|[(Hp & _)|[(Hp & _)|(Hp & H)]]]];
      try (rewrite (proj1 (POST_refused_early env Hp)) in Hs; discriminate Hs).
    + destruct (Hreached _ _ _ Hr Hs) as [E|E]; discriminate E.
    + exact H.
  - intros (rb & user & chat & Hb & Hu & Hs & Hl & Hc & Ho).
    apply N.ltb_ge in Hl. apply str_eqb_neq in Ho.
    unfold POST, run, bind, prelude.
    now rewrite Hb, (Hconfigured _ Hu), Hs, Hl, Hc, Ho.
Qed.

(** X11: the backend is called at most once for a request, never again after a
    failure, with the text of the message and the id of the chat, and only
    once the user's message has been stored; no assistant message is stored
    before the call. *)
Theorem backend_called_once_after_saving {rt : Builtins} (env : Env) (t c : jsstring) :
  In (Fetch t c) (snd (POST env)) ->
  exists rb pre post,
    request_body env = Some rb /\ t = messageText rb /\ t <> [] /\ c = id rb
    /\ snd (POST env) = pre ++ Fetch t c :: post
    /\ filter is_fetch pre = [] /\ filter is_fetch post = []
    /\ filter is_assistant_save pre = []
    /\ (forall m, message rb = Some m -> role m = lit "user" ->
                  In (SaveMessages [user_message (id rb) m]) pre).
Proof.
  intros I.
  destruct (prelude_cases env)
    as [(rb & user & Hr)|[(Hp & _)|[(Hp & _)|[(Hp & _)|(Hp & _)]]]];
    try (rewrite (proj1 (POST_refused_early env Hp)) in I; destruct I).
  destruct (before_validation_effects env rb user) as (Hf & Ha & _ & Hu).
  assert (Hnot : ~ In (Fetch t c) (effects_before_validation env rb user)).
  { intros J. assert (K : In (Fetch t c) (filter is_fetch (effects_before_validation env rb user)))
      by (apply filter_In; now split).
    now rewrite Hf in K. }
  rewrite (POST_reached Hr) in I |- *.
  destruct (str_eqb (messageText rb) []) eqn:Et; [contradiction|].
  apply str_eqb_neq in Et.
  assert (Hshape : forall rest,
             filter is_fetch rest = [] ->
             In (Fetch t c)
               (effects_before_validation env rb user
                  ++ Fetch (messageText rb) (id rb) :: rest) ->
             exists rb0 pre post,
               request_body env = Some rb0 /\ t = messageText rb0 /\ t <> [] /\ c = id rb0
               /\ effects_before_validation env rb user
                    ++ Fetch (messageText rb) (id rb) :: rest
                  = pre ++ Fetch t c :: post
               /\ filter is_fetch pre = [] /\ filter is_fetch post = []
               /\ filter is_assistant_save pre = []
               /\ (forall m, message rb0 = Some m -> role m = lit "user" ->
                             In (SaveMessages [user_message (id rb0) m]) pre)).
  { intros rest Hrest J. apply in_app_or in J as [J|[J|J]]; [contradiction| |].
    - injection J as <- <-.
      exists rb, (effects_before_validation env rb user), rest.
      destruct Hr as (Hb & _). repeat split; auto.
    - assert (K : In (Fetch t c) (filter is_fetch rest)) by (apply filter_In; now split).
      now rewrite Hrest in K. }
  destruct (fetch env) as [|status [b|]]; cbn [snd] in *.
  - now apply Hshape.
  - destruct (ok status); cbn [snd] in *; apply Hshape; auto.
    apply start_effects_kinds.
  - destruct (ok status); now apply Hshape.
Qed.

Lemma backend_called_once_after_saving_witness :
  exists pre post,
    snd (POST (rt := Reference.runtime)
           (Sample.env "What is 2+2?"
              (FetchResponse 200
                 (Some (Sample.body_of (Sample.node_frame "model" "4") false)))))
    = pre ++ Fetch (lit "What is 2+2?") (lit "chat-1") :: post
    /\ filter is_fetch pre = [] /\ filter is_fetch post = []
    /\ In (SaveMessages [user_message (lit "chat-1") (Sample.question "What is 2+2?")]) pre.
Proof.
  destruct (@backend_called_once_after_saving Reference.runtime
              (Sample.env "What is 2+2?"
                 (FetchResponse 200
                    (Some (Sample.body_of (Sample.node_frame "model" "4") false))))
              (lit "What is 2+2?") (lit "chat-1")
              ltac:(vm_compute; right; left; reflexivity))
    as (rb & pre & post & Hb & _ & _ & _ & He & Hf1 & Hf2 & _ & Hu).
  injection Hb as <-.
  exists pre, post. repeat split; try assumption.
  exact (Hu (Sample.question "What is 2+2?") eq_refl eq_refl).
Defined.

(** X12: the title of the chat is updated exactly when the answer is a stream
    and the chat was created by this request (it did not exist and the
    message is the user's), with the generated title, whether or not the
    backend stream could be read to its end. *)
Theorem title_is_updated_for_new_chats_only {rt : Builtins} (env : Env) (c t : jsstring) :
  In (UpdateChatTitle c t) (snd (POST env))
  <-> exists rb user m sink,
        reaches_validation env rb user /\ stored_chat env = None
        /\ message rb = Some m /\ role m = lit "user"
        /\ fst (POST env) = StreamResponse sink
        /\ c = id rb /\ t = generated_title env.
Proof.
  split.
  - intros I.
    destruct (prelude_cases env)
      as [(rb & user & Hr)|[(Hp & _)|[(Hp & _)|[(Hp & _)|(Hp & _)]]]];
      try (rewrite (proj1 (POST_refused_early env Hp)) in I; destruct I).
    destruct (before_validation_effects env rb user) as (_ & _ & Hn & _).
    rewrite (POST_reached Hr) in I |- *.
    destruct (str_eqb (messageText rb) []); [now apply Hn in I|].
    destruct (fetch env) as [|status [b|]]; cbn [snd] in I.
    + apply in_app_or in I as [I|[I|[]]]; [now apply Hn in I|discriminate I].
    + destruct (ok status); cbn [snd] in I.
      * apply in_app_or in I as [I|[I|I]]; [now apply Hn in I|discriminate I|].
        apply start_effects_kinds in I as (-> & Ht).
        unfold title_promise in Ht.
        destruct (stored_chat env) as [chat|] eqn:Ec; [discriminate Ht|].
        destruct (message rb) as [m|] eqn:Em; [|discriminate Ht].
        destruct (str_eqb (role m) (lit "user")) eqn:Eu; [|discriminate Ht].
        injection Ht as <-. apply str_eqb_eq in Eu.
        exists rb, user, m. eexists. split; [exact Hr|].
        repeat split; auto.
      * apply in_app_or in I as [I|[I|[]]]; [now apply Hn in I|discriminate I].
    + destruct (ok status); cbn [snd] in I;
        apply in_app_or in I as [I|[I|[]]]; try (now apply Hn in I); discriminate I.
  - intros (rb & user & m & sink & Hr & Hc & Hm & Hu & Hs & -> & ->).
    rewrite (POST_reached Hr) in Hs |- *.
    destruct (str_eqb (messageText rb) []); [discriminate Hs|].
    destruct (fetch env) as [|status [b|]]; try discriminate Hs.
    destruct (ok status); [|discriminate Hs]. cbn [snd].
    apply in_or_app. right. right. rewrite start_effects.
    apply in_or_app. right. unfold title_promise.
    rewrite Hc, Hm, Hu, str_eqb_refl. now left.
Qed.

(** ** The earlier version of the route *)

Section LegacyFacts.
Context {rt : Builtins}.

Lemma legacy_read_step_pack x (value : list byte) :
  Legacy.read_step (legacy_pack x) value
  = legacy_pack (reader_step Legacy.process_line x value).
Proof.
  destruct x as [[d buf] [last_content out]]. unfold Legacy.read_step, reader_step, legacy_pack.
  cbn [Legacy.decoder Legacy.buffer Legacy.lastContent].
  destruct (TextDecoder_decode d value) as [d' text].
  now destruct (fold_left Legacy.process_line _ _) as [l o].
Qed.

Lemma legacy_read_loop_pack (chunks : list (list byte)) x :
  fold_left Legacy.read_step chunks (legacy_pack x)
  = legacy_pack (fold_left (reader_step Legacy.process_line) chunks x).
Proof.
  revert x; induction chunks as [|c chunks IH]; intros x; simpl; [reflexivity|].
  now rewrite legacy_read_step_pack, IH.
Qed.

Lemma legacy_process_lines_payloads (lines : list jsstring) acc :
  fold_left Legacy.process_line lines acc
  = legacy_transcode_all acc (flat_map payload_list lines).
Proof.
  revert acc; induction lines as [|l lines IH]; intros acc; [reflexivity|].
  simpl. rewrite IH. unfold legacy_transcode_all. rewrite fold_left_app. f_equal.
  destruct acc as [last_content out]. unfold Legacy.process_line, payload_list.
  now destruct (payload l).
Qed.

(** The events of the earlier generator are those of its transcoder run
    over the payloads of the frame decoder. *)
Lemma legacy_transcoded_by_payloads (b : Body) :
  Legacy.transcoded (Some b)
  = (snd (legacy_transcode_all ([], []) (decoded_payloads (chunks b))),
     if read_fails b then Threw else Returned).
Proof.
  unfold Legacy.transcoded.
  change (Legacy.Session_new, @nil Legacy.Event)
    with (legacy_pack (TextDecoder_new, [], ([], []))).
  rewrite legacy_read_loop_pack, reader_whole, decoded_payloads_lines.
  unfold reader_step, complete_lines.
  destruct (TextDecoder_decode TextDecoder_new (concat (chunks b))) as [d text].
  cbn [app snd]. rewrite legacy_process_lines_payloads.
  now destruct (legacy_transcode_all _ _) as [last_content out].
Qed.

Lemma legacy_transcode_finish (last_content data : jsstring) :
  filter is_finish (snd (Legacy.transcode last_content data))
  = if is_done_marker data then [Legacy.finish] else [].
Proof.
  unfold Legacy.transcode, is_done_marker.
  destruct (str_eqb data (lit "[DONE]")); [reflexivity|].
  assert (Hs : forall content,
             filter is_finish (snd (Legacy.send_new last_content content)) = []).
  { intros content. unfold Legacy.send_new.
    repeat match goal with
      | |- context [if ?c then _ else _] => destruct c
      | |- context [match ?x with _ => _ end] => destruct x
      end; reflexivity. }
  destruct (JSON_parse data) as [parsed|]; [|reflexivity].
  destruct parsed; try reflexivity;
    match goal with
    | |- context [Legacy.extract_content ?p] =>
        destruct (Legacy.extract_content p); [apply Hs|reflexivity]
    end.
Qed.

Lemma legacy_transcode_all_finish (payloads : list jsstring) (last_content : jsstring)
  (out : list Legacy.Event) :
  filter is_finish (snd (legacy_transcode_all (last_content, out) payloads))
  = filter is_finish out
      ++ map (fun _ => Legacy.finish) (filter is_done_marker payloads).
Proof.
  revert last_content out; induction payloads as [|p ps IH]; intros last_content out.
  - cbn. now rewrite app_nil_r.
  - unfold legacy_transcode_all in *. cbn [fold_left filter].
    pose proof (legacy_transcode_finish last_content p) as Hp.
    destruct (Legacy.transcode last_content p) as [l1 e1]. cbn [snd] in Hp.
    rewrite IH, filter_app, Hp, <- app_assoc.
    now destruct (is_done_marker p).
Qed.

Lemma legacy_forward_step (x : list byte) (c : Controller) (content : jsstring) :
  closed c = false ->
  Legacy.forward (Some (c, content)) x
  = Some ({| written := written c ++ [Enqueue x]; closed := false |},
          content ++ captured x).
Proof.
  intros Hc. unfold Legacy.forward, controller_enqueue, captured. rewrite Hc.
  destruct (Legacy.match_textDelta _); [reflexivity|]. now rewrite app_nil_r.
Qed.

Lemma legacy_forward_open (chunks : list (list byte)) (c : Controller) (content : jsstring) :
  closed c = false ->
  fold_left Legacy.forward chunks (Some (c, content))
  = Some ({| written := written c ++ map Enqueue chunks; closed := false |},
          content ++ concat (map captured chunks)).
Proof.
  revert c content; induction chunks as [|x chunks IH]; intros c content Hc.
  - cbn. rewrite !app_nil_r. now destruct c; cbn in *; subst.
  - cbn [fold_left]. rewrite (legacy_forward_step x c content Hc), IH by reflexivity.
    cbn [written map concat]. now rewrite <- !app_assoc.
Qed.

(** What the earlier [start] does, by the way its generator completes. *)
Lemma legacy_start_cases (env : Env) (chatId : jsstring) (titlePromise : option jsstring)
  (body : option Body) :
  Legacy.start env chatId titlePromise body
  = let events := fst (Legacy.transcoded body) in
    let content :=
      concat (map captured (map (fun e => TextEncoder_encode (Legacy.sse e)) events)) in
    match snd (Legacy.transcoded body) with
    | Threw =>
        ({| written :=
              legacy_frames_of (Legacy.message_start (generateUUID env 0) :: events)
                ++ [Errored];
            closed := true |}, [])
    | Returned =>
        ({| written :=
              legacy_frames_of
                (Legacy.message_start (generateUUID env 0) :: events
                   ++ match titlePromise with
                      | Some title => [Legacy.data_chat_title title]
                      | None => []
                      end)
                ++ [Close];
            closed := true |},
         (if negb (str_eqb content []) then
            [SaveMessages [assistant_message chatId (generateUUID env 0) content]]
          else [])
           ++ match titlePromise with
              | Some title => [UpdateChatTitle chatId title]
              | None => []
              end)
    end.
Proof.
  unfold Legacy.start, Legacy.transformBackendStream.
  destruct (Legacy.transcoded body) as [events completion]. cbn [fst snd].
  unfold controller_enqueue at 1. cbn [closed Controller_new written app].
  rewrite legacy_forward_open by reflexivity. cbn [written app].
  unfold legacy_frames_of. rewrite !map_cons, map_map.
  destruct completion.
  - destruct titlePromise as [title|]; unfold controller_enqueue, controller_close;
      cbn [closed written]; rewrite ?map_app, ?app_nil_r; cbn [map app];
      rewrite <- ?app_assoc; cbn [app]; reflexivity.
  - unfold controller_error. cbn [closed written]. reflexivity.
Qed.

Lemma up_to_quote_no_quote (s run : jsstring) :
  Legacy.up_to_quote s = Some run -> ~ In 34 run.
Proof.
  revert run; induction s as [|c s IH]; intros run; [discriminate|].
  cbn [Legacy.up_to_quote]. destruct (c =? 34) eqn:Ec.
  - intros [= <-]. auto.
  - destruct (Legacy.up_to_quote s) as [r|]; [|discriminate].
    intros [= <-] [E|I]; [apply N.eqb_neq in Ec; congruence|].
    exact (IH r eq_refl I).
Qed.

Lemma captured_no_quote (chunk : list byte) : ~ In 34 (captured chunk).
Proof.
  unfold captured, Legacy.match_textDelta.
  destruct (Legacy.after_first _ _) as [rest|]; [|auto].
  destruct (Legacy.up_to_quote rest) as [run|] eqn:E; [|auto].
  exact (up_to_quote_no_quote _ E).
Qed.

End LegacyFacts.

(** X13: the earlier generator, too, yields the same chunks and completes the
    same way whether the upstream bytes arrive in pieces, cut anywhere, or
    as one chunk. *)
Theorem legacy_chunking_independence {rt : Builtins} (pieces : list (list byte))
  (fails : bool) :
  Legacy.transformBackendStream (Some {| chunks := pieces; read_fails := fails |})
  = Legacy.transformBackendStream
      (Some {| chunks := [concat pieces]; read_fails := fails |}).
Proof.
  unfold Legacy.transformBackendStream. rewrite !legacy_transcoded_by_payloads.
  cbn [chunks read_fails]. now rewrite <- decoded_payloads_whole.
Qed.

(** X14: the earlier generator yields one finish frame for each done marker it
    reads and no other: none when the backend sends no marker, one more for
    each further marker, and it goes on reading after a marker. *)
Theorem legacy_finish_per_done_marker {rt : Builtins} (b : Body) :
  filter is_finish (fst (Legacy.transcoded (Some b)))
  = map (fun _ => Legacy.finish) (filter is_done_marker (decoded_payloads (chunks b))).
Proof.
  rewrite legacy_transcoded_by_payloads. cbn [fst].
  now rewrite legacy_transcode_all_finish.
Qed.

(** X15: when the body cannot be read to its end, the earlier route puts the
    stream in error after the frames already sent, and stores nothing: no
    assistant message, whatever text was sent, and no title. *)
Theorem legacy_failure_stores_nothing {rt : Builtins} (env : Env) (chatId : jsstring)
  (titlePromise : option jsstring) (body : option Body) :
  snd (Legacy.transcoded body) = Threw ->
  Legacy.start env chatId titlePromise body
  = ({| written :=
          legacy_frames_of
            (Legacy.message_start (generateUUID env 0) :: fst (Legacy.transcoded body))
            ++ [Errored];
        closed := true |}, []).
Proof. intros H. rewrite legacy_start_cases. cbv zeta. now rewrite H. Qed.

Lemma legacy_failure_stores_nothing_witness :
  Legacy.start (rt := Reference.runtime)
    (Sample.env_new_chat "Say hi" FetchRejected) (lit "chat-1") (Some (lit "Greeting"))
    (Some (Sample.trickle (Sample.output_frame "Hi") true))
  = ({| written :=
          legacy_frames_of (rt := Reference.runtime)
            [Legacy.message_start (lit "assistant-1"); Legacy.text_delta (lit "Hi")]
            ++ [Errored];
        closed := true |}, []).
Proof.
  rewrite (@legacy_failure_stores_nothing Reference.runtime
             (Sample.env_new_chat "Say hi" FetchRejected) (lit "chat-1")
             (Some (lit "Greeting"))
             (Some (Sample.trickle (Sample.output_frame "Hi") true))
             ltac:(vm_compute; reflexivity)).
  vm_compute. reflexivity.
Defined.

(** X16: the text the earlier route stores is what its pattern captures in the
    chunks, up to the first quote of each: a stored text is never empty
    and never holds a quote character. *)
Theorem legacy_stored_text_has_no_quote {rt : Builtins} (env : Env) (chatId : jsstring)
  (titlePromise : option jsstring) (body : option Body) (messages : list DBMessage) :
  In (SaveMessages messages) (snd (Legacy.start env chatId titlePromise body)) ->
  exists content,
    messages = [assistant_message chatId (generateUUID env 0) content]
    /\ content <> [] /\ ~ In 34 content.
Proof.
  rewrite legacy_start_cases. cbv zeta.
  destruct (snd (Legacy.transcoded body)); cbn [snd]; [|intros []].
  set (content := concat _).
  assert (Hq : ~ In 34 content).
  { subst content. intros I. apply in_concat in I as (run & Hrun & I).
    apply in_map_iff in Hrun as (chunk & <- & _). exact (captured_no_quote chunk I). }
  destruct (str_eqb content []) eqn:Ec; cbn [negb app].
  - destruct titlePromise; intros I; sort_out; discriminate I.
  - apply str_eqb_neq in Ec. intros I.
    assert (E : SaveMessages [assistant_message chatId (generateUUID env 0) content]
                = SaveMessages messages).
    { destruct I as [E|I]; [exact E|]. destruct titlePromise; sort_out; discriminate I. }
    injection E as <-. now exists content.
Qed.

Lemma legacy_stored_text_has_no_quote_witness :
  In (SaveMessages
        [assistant_message (lit "chat-1") (lit "assistant-1") [115; 97; 121; 32; 92]])
    (snd (Legacy.start (rt := Reference.runtime)
            (Sample.env "Quote it" FetchRejected) (lit "chat-1") None
            (Some (Sample.body_of
                     (lit "data: {" ++ Sample.quoted "output" ++ lit ":"
                        ++ [34; 115; 97; 121; 32; 92; 34; 104; 105; 92; 34; 34]
                        ++ lit "}" ++ [LF])
                     false))))
  /\ fst (Legacy.transcoded (rt := Reference.runtime)
            (Some (Sample.body_of
                     (lit "data: {" ++ Sample.quoted "output" ++ lit ":"
                        ++ [34; 115; 97; 121; 32; 92; 34; 104; 105; 92; 34; 34]
                        ++ lit "}" ++ [LF])
                     false)))
     = [Legacy.text_delta [115; 97; 121; 32; 34; 104; 105; 34]]
  /\ exists content,
       [assistant_message (lit "chat-1") (lit "assistant-1") [115; 97; 121; 32; 92]]
       = [assistant_message (lit "chat-1") (lit "assistant-1") content]
       /\ content <> [] /\ ~ In 34 content.
Proof.
  assert (H : In (SaveMessages
                    [assistant_message (lit "chat-1") (lit "assistant-1")
                       [115; 97; 121; 32; 92]])
                (snd (Legacy.start (rt := Reference.runtime)
                        (Sample.env "Quote it" FetchRejected) (lit "chat-1") None
                        (Some (Sample.body_of
                                 (lit "data: {" ++ Sample.quoted "output" ++ lit ":"
                                    ++ [34; 115; 97; 121; 32; 92; 34; 104; 105; 92; 34; 34]
                                    ++ lit "}" ++ [LF])
                                 false)))))
    by (vm_compute; left; reflexivity).
  split; [exact H|]. split; [vm_compute; reflexivity|].
  exact (@legacy_stored_text_has_no_quote Reference.runtime _ _ _ _ _ H).
Defined.

Lemma send_new_extension (last_content piece : jsstring) :
  Legacy.send_new last_content (Some (JStr (last_content ++ piece)))
  = (last_content ++ piece, if nonempty piece then [Legacy.text_delta piece] else []).
Proof.
  rewrite send_new_refines. unfold spec_diff_step, spec_delta, nonempty.
  destruct piece as [|c piece].
  - now rewrite app_nil_r, str_eqb_refl.
  - assert (E : str_eqb (last_content ++ c :: piece) last_content = false).
    { apply str_eqb_neq. intros E.
      rewrite <- (app_nil_r last_content) in E at 2. now apply app_inv_head in E. }
    now rewrite E, startsWith_app, skipn_prefix.
Qed.

Lemma send_all_running (pieces : list jsstring) (last_content : jsstring)
  (out : list Legacy.Event) :
  fold_left
    (fun acc content =>
       let '(last, out) := acc in
       let '(last', evs) := Legacy.send_new last (Some (JStr content)) in
       (last', out ++ evs))
    (running last_content pieces) (last_content, out)
  = (last_content ++ concat pieces,
     out ++ map Legacy.text_delta (filter nonempty pieces)).
Proof.
  revert last_content out; induction pieces as [|p pieces IH]; intros last_content out.
  - cbn. now rewrite !app_nil_r.
  - cbn [running fold_left]. rewrite send_new_extension, IH.
    cbn [concat filter]. rewrite <- !app_assoc.
    now destruct (nonempty p).
Qed.

(** X17: whole-content diffing over a backend that repeats the text so far and
    adds to it: each frame gives the piece it adds as its delta, a frame
    that adds nothing gives none, and the last emitted content at the end is
    the whole text; so the deltas, put end to end, are the text added. *)
Theorem deltas_rebuild_the_text (last_content : jsstring) (pieces : list jsstring) :
  send_all last_content (running last_content pieces)
  = (last_content ++ concat pieces, map Legacy.text_delta (filter nonempty pieces))
  /\ concat (filter nonempty pieces) = concat pieces.
Proof.
  split; [apply (send_all_running pieces last_content [])|].
  induction pieces as [|[|c p] pieces IH]; [reflexivity|exact IH|].
  cbn [filter nonempty str_eqb negb concat]. now rewrite IH.
Qed.

(** ** DELETE *)

(** X18: a chat is deleted only at the request of its owner: [deleteChatById]
    is called, once and with the id of the request, exactly when the id is
    not empty, a user is signed in, and the chat exists and is theirs; the
    answer then carries what the call returned.  Every refusal leaves the
    chat alone.  A request without id is refused as a bad request even
    from a signed-in owner, and a chat that does not exist is answered as
    forbidden. *)
Theorem DELETE_only_by_the_owner (env : DeleteEnv) (idParam : option jsstring) :
  (forall deleted,
      fst (DELETE env idParam) = DeletedChat deleted ->
      exists chatId user chat,
        idParam = Some chatId /\ chatId <> []
        /\ delete_session_user env = Some user
        /\ getChatById env chatId = Some chat /\ chat_userId chat = user_id user
        /\ deleted = deleteChatById env chatId
        /\ snd (DELETE env idParam) = [chatId])
  /\ (forall code,
         fst (DELETE env idParam) = DeleteRefused code -> snd (DELETE env idParam) = [])
  /\ (forall chatId user chat,
         idParam = Some chatId -> chatId <> [] -> delete_session_user env = Some user ->
         getChatById env chatId = Some chat -> chat_userId chat = user_id user ->
         DELETE env idParam = (DeletedChat (deleteChatById env chatId), [chatId]))
  /\ (forall chatId user,
         idParam = Some chatId -> chatId <> [] -> delete_session_user env = Some user ->
         getChatById env chatId = None ->
         DELETE env idParam = (DeleteRefused forbidden_chat, []))
  /\ (idParam = None \/ idParam = Some [] ->
      DELETE env idParam = (DeleteRefused bad_request_api, [])).
Proof.
  split; [|split; [|split; [|split]]].
  - intros deleted. unfold DELETE.
    destruct idParam as [[|c chatId]|]; try discriminate.
    destruct (delete_session_user env) as [user|]; [|discriminate].
    destruct (getChatById env (c :: chatId)) as [chat|] eqn:Ec; [|discriminate].
    destruct (str_eqb (chat_userId chat) (user_id user)) eqn:Eo; [|discriminate].
    cbn [negb fst snd]. intros [= <-]. apply str_eqb_eq in Eo.
    exists (c :: chatId), user, chat. repeat split; auto. discriminate.
  - intros code. unfold DELETE.
    destruct idParam as [[|c chatId]|]; try reflexivity.
    destruct (delete_session_user env) as [user|]; [|reflexivity].
    destruct (negb _); [reflexivity|discriminate].
  - intros chatId user chat -> Hne Hs Hc Ho. unfold DELETE.
    destruct chatId as [|c chatId]; [contradiction|].
    now rewrite Hs, Hc, Ho, str_eqb_refl.
  - intros chatId user -> Hne Hs Hc. unfold DELETE.
    destruct chatId as [|c chatId]; [contradiction|].
    now rewrite Hs, Hc.
  - intros [-> | ->]; reflexivity.
Qed.

(** ** The chat page *)

Section PageFacts.
Variable UIMessages : Type.
Variable DEFAULT_CHAT_MODEL : jsstring.

(** X19: who is shown what: without the chat the visitor is sent to the start
    page, whoever they are; with the chat and without a session, to the
    guest sign-in; with both, the page is refused as not found exactly when
    the chat is private and the visitor is not its owner (a session
    without user included), and rendered otherwise. *)
Theorem chat_page_access (i : ChatPage.Inputs UIMessages) :
  (ChatPage.chat i = None ->
   ChatPage.ChatPage DEFAULT_CHAT_MODEL i = ChatPage.Redirect _ (lit "/"))
  /\ (forall c,
         ChatPage.chat i = Some c -> ChatPage.session i = None ->
         ChatPage.ChatPage DEFAULT_CHAT_MODEL i
         = ChatPage.Redirect _ (lit "/api/auth/guest"))
  /\ (forall c user,
         ChatPage.chat i = Some c -> ChatPage.session i = Some user ->
         (ChatPage.ChatPage DEFAULT_CHAT_MODEL i = ChatPage.NotFound _
          <-> ChatPage.visibility c = lit "private"
              /\ ChatPage.not_owner user c = true)
         /\ (ChatPage.ChatPage DEFAULT_CHAT_MODEL i <> ChatPage.NotFound _ ->
             exists props, ChatPage.ChatPage DEFAULT_CHAT_MODEL i = ChatPage.Rendered props)).
Proof.
  unfold ChatPage.ChatPage. split; [|split].
  - now intros ->.
  - now intros c -> ->.
  - intros c user -> ->.
    assert (E : match user with
                | Some u => negb (str_eqb (user_id u) (ChatPage.userId c))
                | None => true
                end = ChatPage.not_owner user c) by reflexivity.
    rewrite E.
    destruct (str_eqb (ChatPage.visibility c) (lit "private")) eqn:Ev;
      destruct (ChatPage.not_owner user c); cbn [andb];
      destruct (ChatPage.chatModelFromCookie i);
      (split; [split|]);
      try (intros H; discriminate H); try (intros (H1 & H2); discriminate H2);
      try (intros _; eexists; reflexivity);
      try (intros H; now destruct H);
      try (intros _; split; [now apply str_eqb_eq|reflexivity]);
      try (intros (H1 & _); apply str_eqb_eq in H1; congruence).
Qed.

(** X20: what a rendered page is given: it is read-only exactly for a visitor
    who is not the owner of the chat, so never for a private chat; resuming
    a stream is always off; the chat-model cookie, when there is one,
    decides the model and nothing else. *)
Theorem chat_page_props (i : ChatPage.Inputs UIMessages) (props : ChatPage.ChatProps UIMessages) :
  ChatPage.ChatPage DEFAULT_CHAT_MODEL i = ChatPage.Rendered props ->
  exists c user,
    ChatPage.chat i = Some c /\ ChatPage.session i = Some user
    /\ ChatPage.isReadonly props = ChatPage.not_owner user c
    /\ (ChatPage.visibility c = lit "private" -> ChatPage.isReadonly props = false)
    /\ ChatPage.autoResume props = false
    /\ ChatPage.initialChatModel props
       = match ChatPage.chatModelFromCookie i with
         | Some value => value
         | None => DEFAULT_CHAT_MODEL
         end
    /\ ChatPage.id props = ChatPage.chat_id c
    /\ ChatPage.initialVisibilityType props = ChatPage.visibility c
    /\ ChatPage.initialMessages props = ChatPage.uiMessages i.
Proof.
  unfold ChatPage.ChatPage.
  destruct (ChatPage.chat i) as [c|]; [|discriminate].
  destruct (ChatPage.session i) as [user|]; [|discriminate].
  assert (E : match user with
              | Some u => negb (str_eqb (user_id u) (ChatPage.userId c))
              | None => true
              end = ChatPage.not_owner user c) by reflexivity.
  rewrite E.
  destruct (str_eqb (ChatPage.visibility c) (lit "private")) eqn:Ev;
    destruct (ChatPage.not_owner user c) eqn:Eo; cbn [andb]; try discriminate;
    destruct (ChatPage.chatModelFromCookie i); intros [= <-];
    exists c, user; cbn; repeat split; auto;
    intros Hv; apply str_eqb_neq in Ev; contradiction.
Qed.

End PageFacts.

Lemma chat_page_props_witness :
  exists c user,
    ChatPage.chat
      {| ChatPage.chat :=
           Some {| ChatPage.chat_id := lit "chat-1"; ChatPage.userId := lit "user-1";
                   ChatPage.visibility := lit "public" |};
         ChatPage.session := Some (Some {| user_id := lit "user-2"; user_type := guest |});
         ChatPage.uiMessages := tt;
         ChatPage.chatModelFromCookie := None |}
    = Some c
    /\ Some (Some {| user_id := lit "user-2"; user_type := guest |}) = Some user
    /\ true = ChatPage.not_owner user c.
Proof.
  destruct (@chat_page_props unit (lit "chat-model")
              {| ChatPage.chat :=
                   Some {| ChatPage.chat_id := lit "chat-1";
                           ChatPage.userId := lit "user-1";
                           ChatPage.visibility := lit "public" |};
                 ChatPage.session :=
                   Some (Some {| user_id := lit "user-2"; user_type := guest |});
                 ChatPage.uiMessages := tt;
                 ChatPage.chatModelFromCookie := None |}
              {| ChatPage.autoResume := false;
                 ChatPage.id := lit "chat-1";
                 ChatPage.initialChatModel := lit "chat-model";
                 ChatPage.initialMessages := tt;
                 ChatPage.initialVisibilityType := lit "public";
                 ChatPage.isReadonly := true |}
              eq_refl)
    as (c & user & Hc & Hs & Hr & _).
  now exists c, user.
Defined.

(** ** The list of messages *)

(** X21: one emoji for each heartbeat, up to six: for a positive count the
    indicator shows the first emojis of the list, as many as the count, and
    all six from the sixth heartbeat on; for the count zero nothing is
    rendered.  A negative count is not zero: the indicator is rendered, and
    the emojis are dropped from the end of the list. *)
Theorem working_indicator_emojis (heartbeatCount : Z) :
  ((0 < heartbeatCount)%Z ->
   option_map Messages.emojiDisplay (Messages.WorkingIndicator heartbeatCount)
   = Some (join (lit " ") (firstn (Z.to_nat heartbeatCount) Messages.workEmojis)))
  /\ ((6 <= heartbeatCount)%Z ->
      Messages.WorkingIndicator heartbeatCount = Messages.WorkingIndicator 6)
  /\ (Messages.WorkingIndicator heartbeatCount = None <-> heartbeatCount = 0%Z)
  /\ ((heartbeatCount < 0)%Z ->
      option_map Messages.emojiDisplay (Messages.WorkingIndicator heartbeatCount)
      = Some (join (lit " ")
                (firstn (Z.to_nat (6 + heartbeatCount)) Messages.workEmojis))).
Proof.
  unfold Messages.WorkingIndicator, Messages.slice_to.
  change (Z.of_nat (length Messages.workEmojis)) with 6%Z.
  split; [|split; [|split]].
  - intros H. destruct (heartbeatCount =? 0)%Z eqn:E0; [lia|]. cbn [option_map Messages.emojiDisplay].
    destruct (Z.min heartbeatCount 6 <? 0)%Z eqn:En; [lia|].
    destruct (Z_lt_le_dec heartbeatCount 6) as [Hl|Hl].
    + now replace (Z.min (Z.min heartbeatCount 6) 6) with heartbeatCount by lia.
    + replace (Z.min (Z.min heartbeatCount 6) 6) with 6%Z by lia.
      rewrite (firstn_all2 (n := Z.to_nat heartbeatCount)); [reflexivity|].
      change (length Messages.workEmojis) with 6%nat. lia.
  - intros H. destruct (heartbeatCount =? 0)%Z eqn:E0; [lia|].
    now replace (Z.min heartbeatCount 6) with 6%Z by lia.
  - destruct (heartbeatCount =? 0)%Z eqn:E0.
    + apply Z.eqb_eq in E0. now split.
    + apply Z.eqb_neq in E0. split; [discriminate|contradiction].
  - intros H. destruct (heartbeatCount =? 0)%Z eqn:E0; [lia|]. cbn [option_map Messages.emojiDisplay].
    replace (Z.min heartbeatCount 6) with heartbeatCount by lia.
    destruct (heartbeatCount <? 0)%Z eqn:En; [|lia].
    destruct (Z_lt_le_dec (6 + heartbeatCount) 0) as [Hl|Hl].
    + replace (Z.max (6 + heartbeatCount) 0) with 0%Z by lia.
      now replace (Z.to_nat (6 + heartbeatCount)) with 0%nat by lia.
    + now replace (Z.max (6 + heartbeatCount) 0) with (6 + heartbeatCount)%Z by lia.
Qed.

Section MessagesFacts.
Variable p : Messages.MessagesProps.
Variable hooks : Messages.UseMessages.

Lemma map_indexed_keys (items : list Messages.UIMessage) (index : nat) :
  map Messages.key (Messages.map_indexed (Messages.preview p hooks) index items)
  = map Messages.ui_id items
  /\ map Messages.message (Messages.map_indexed (Messages.preview p hooks) index items)
     = items.
Proof.
  revert index; induction items as [|m items IH]; intros index; [now split|].
  cbn [Messages.map_indexed map]. destruct (IH (S index)) as (-> & ->). now split.
Qed.

Lemma map_indexed_marks (items : list Messages.UIMessage) (index : nat) :
  (index + length items = length (Messages.messages p))%nat ->
  map Messages.isLoading (Messages.map_indexed (Messages.preview p hooks) index items)
  = match items with
    | [] => []
    | _ => repeat false (length items - 1)
             ++ [str_eqb (Messages.status p) (lit "streaming")]
    end
  /\ map Messages.requiresScrollPadding
       (Messages.map_indexed (Messages.preview p hooks) index items)
     = match items with
       | [] => []
       | _ => repeat false (length items - 1) ++ [Messages.hasSentMessage hooks]
       end.
Proof.
  revert index; induction items as [|m items IH]; intros index Hn; [now split|].
  cbn [Messages.map_indexed map]. cbn [length] in Hn.
  destruct (IH (S index)) as (-> & ->); [lia|].
  unfold Messages.preview. cbn [Messages.isLoading Messages.requiresScrollPadding].
  destruct items as [|m' items].
  - cbn [length] in *.
    replace (Z.of_nat (length (Messages.messages p)) - 1 =? Z.of_nat index)%Z with true
      by (symmetry; apply Z.eqb_eq; lia).
    replace (Z.of_nat index =? Z.of_nat (length (Messages.messages p)) - 1)%Z with true
      by (symmetry; apply Z.eqb_eq; lia).
    now rewrite !andb_true_r.
  - cbn [length] in *.
    replace (Z.of_nat (length (Messages.messages p)) - 1 =? Z.of_nat index)%Z with false
      by (symmetry; apply Z.eqb_neq; lia).
    replace (Z.of_nat index =? Z.of_nat (length (Messages.messages p)) - 1)%Z with false
      by (symmetry; apply Z.eqb_neq; lia).
    rewrite !andb_false_r. cbn [Nat.sub repeat app]. now rewrite Nat.sub_0_r.
Qed.

End MessagesFacts.

(** X22: each message is rendered once, in order, under its id as key; only
    the last one can be marked as loading, which it is exactly while the
    status is streaming, and only the last one can be given the scroll
    padding, which it is exactly when the hook reports a sent message. *)
Theorem only_the_last_message_is_marked (p : Messages.MessagesProps)
  (hooks : Messages.UseMessages) :
  let previews := Messages.map_indexed (Messages.preview p hooks) 0 (Messages.messages p) in
  map Messages.key previews = map Messages.ui_id (Messages.messages p)
  /\ map Messages.message previews = Messages.messages p
  /\ map Messages.isLoading previews
     = match Messages.messages p with
       | [] => []
       | _ => repeat false (length (Messages.messages p) - 1)
                ++ [str_eqb (Messages.status p) (lit "streaming")]
       end
  /\ map Messages.requiresScrollPadding previews
     = match Messages.messages p with
       | [] => []
       | _ => repeat false (length (Messages.messages p) - 1)
                ++ [Messages.hasSentMessage hooks]
       end.
Proof.
  cbv zeta.
  destruct (map_indexed_keys p hooks (Messages.messages p) 0) as (H1 & H2).
  destruct (map_indexed_marks p hooks (Messages.messages p) 0 eq_refl) as (H3 & H4).
  now repeat split.
Qed.

(** X23: the vote handed to a message is the first of the votes recorded for
    its id, and none when there is no such vote or the votes are not
    there. *)
Theorem vote_of_a_message (p : Messages.MessagesProps) (hooks : Messages.UseMessages)
  (m : Messages.UIMessage) (index : nat) :
  (forall v,
      Messages.vote (Messages.preview p hooks m index) = Some v
      <-> exists before after,
            Messages.votes p = Some (before ++ v :: after)
            /\ Messages.messageId v = Messages.ui_id m
            /\ Forall (fun w => Messages.messageId w <> Messages.ui_id m) before)
  /\ (Messages.vote (Messages.preview p hooks m index) = None
      <-> match Messages.votes p with
          | Some vs => Forall (fun w => Messages.messageId w <> Messages.ui_id m) vs
          | None => True
          end).
Proof.
  cbn [Messages.vote Messages.preview].
  assert (Hfind : forall vs,
             match find (fun v => str_eqb (Messages.messageId v) (Messages.ui_id m)) vs with
             | Some v =>
                 exists before after,
                   vs = before ++ v :: after
                   /\ Messages.messageId v = Messages.ui_id m
                   /\ Forall (fun w => Messages.messageId w <> Messages.ui_id m) before
             | None => Forall (fun w => Messages.messageId w <> Messages.ui_id m) vs
             end).
  { induction vs as [|w vs IH]; [constructor|]. cbn [find].
    destruct (str_eqb (Messages.messageId w) (Messages.ui_id m)) eqn:E.
    - apply str_eqb_eq in E. exists [], vs. now repeat split.
    - apply str_eqb_neq in E.
      destruct (find _ vs) as [v|].
      + destruct IH as (before & after & -> & Hv & Hb).
        exists (w :: before), after. repeat split; auto.
      + now constructor. }
  assert (Hfirst : forall before v v' after after' before',
             before ++ v :: after = before' ++ v' :: after' ->
             Messages.messageId v = Messages.ui_id m ->
             Messages.messageId v' = Messages.ui_id m ->
             Forall (fun w => Messages.messageId w <> Messages.ui_id m) before ->
             Forall (fun w => Messages.messageId w <> Messages.ui_id m) before' ->
             v = v').
  { induction before as [|x before IH]; intros v v' after after' before' E Hv Hv' Hb Hb'.
    - destruct before' as [|y before']; [now injection E|].
      injection E as -> _. inversion Hb'; subst. contradiction.
    - destruct before' as [|y before'].
      + injection E as -> _. inversion Hb; subst. contradiction.
      + injection E as -> E. inversion Hb; inversion Hb'; subst.
        exact (IH _ _ _ _ _ E Hv Hv' H2 H6). }
  destruct (Messages.votes p) as [vs|].
  - specialize (Hfind vs). split.
    + intros v. split.
      * intros E. rewrite E in Hfind.
        destruct Hfind as (before & after & -> & Hv & Hb). now exists before, after.
      * intros (before & after & [= ->] & Hv & Hb).
        destruct (find _ _) as [v'|].
        -- destruct Hfind as (before' & after' & E & Hv' & Hb').
           f_equal. symmetry. exact (Hfirst _ _ _ _ _ _ E Hv Hv' Hb Hb').
        -- apply Forall_app in Hfind as (_ & Hfind). inversion Hfind; subst. contradiction.
    + split.
      * intros E. now rewrite E in Hfind.
      * intros F. destruct (find _ _) as [v|]; [|reflexivity].
        destruct Hfind as (before & after & -> & Hv & _).
        apply Forall_app in F as (_ & F). inversion F; subst. contradiction.
  - split; [intros v; split; [discriminate|intros (? & ? & E & _); discriminate E]|].
    now split.
Qed.

Lemma existsb_false_Forall {A} (f : A -> bool) (l : list A) :
  existsb f l = false <-> Forall (fun x => f x = false) l.
Proof.
  induction l as [|x l IH]; [split; [constructor|reflexivity]|]. cbn [existsb]. split.
  - intros E. apply orb_false_iff in E as (E1 & E2).
    constructor; [exact E1|exact (proj1 IH E2)].
  - intros F. inversion F as [|? ? F1 F2]; subst. apply orb_false_iff.
    split; [exact F1|exact (proj2 IH F2)].
Qed.

(** X24: what stands around the messages: the greeting exactly when there is no
    message; the thinking indicator exactly when the status is submitted
    and no part of any message answers an approval; the working indicator
    exactly while the status is streaming, with the heartbeat count of the
    props; so the two indicators are never rendered together. *)
Theorem indicators_around_the_messages (p : Messages.MessagesProps)
  (hooks : Messages.UseMessages) :
  let children := fst (Messages.PureMessages p hooks) in
  (In Messages.Greeting children <-> Messages.messages p = [])
  /\ (In Messages.ThinkingMessage children
      <-> Messages.status p = lit "submitted"
          /\ Forall (fun msg => Messages.has_approval_response msg = false)
               (Messages.messages p))
  /\ (forall rendered,
         In (Messages.Working rendered) children
         <-> Messages.status p = lit "streaming"
             /\ rendered = Messages.WorkingIndicator (Messages.heartbeatCount p))
  /\ ~ (In Messages.ThinkingMessage children
        /\ exists rendered, In (Messages.Working rendered) children).
Proof.
  cbv zeta. unfold Messages.PureMessages. cbn [fst].
  assert (Hprev : forall e,
             In e (map Messages.PreviewMessage
                     (Messages.map_indexed (Messages.preview p hooks) 0 (Messages.messages p))) ->
             exists props, e = Messages.PreviewMessage props).
  { intros e I. apply in_map_iff in I as (props & <- & _). now exists props. }
  assert (Hsome : existsb Messages.has_approval_response (Messages.messages p) = false
                  <-> Forall (fun msg => Messages.has_approval_response msg = false)
                        (Messages.messages p))
    by apply existsb_false_Forall.
  assert (Hthink : In Messages.ThinkingMessage
                     ((if (length (Messages.messages p) =? 0)%nat then [Messages.Greeting] else [])
                        ++ map Messages.PreviewMessage
                             (Messages.map_indexed (Messages.preview p hooks) 0
                                (Messages.messages p))
                        ++ (if str_eqb (Messages.status p) (lit "submitted")
                               && negb (existsb Messages.has_approval_response
                                          (Messages.messages p))
                            then [Messages.ThinkingMessage] else [])
                        ++ (if str_eqb (Messages.status p) (lit "streaming")
                            then [Messages.Working
                                    (Messages.WorkingIndicator (Messages.heartbeatCount p))]
                            else []))
                   <-> Messages.status p = lit "submitted"
                       /\ Forall (fun msg => Messages.has_approval_response msg = false)
                            (Messages.messages p)).
  { split.
    - intros I. apply in_app_or in I as [I|I].
      { destruct (length _ =? 0)%nat; [destruct I as [E|[]]; discriminate E|destruct I]. }
      apply in_app_or in I as [I|I]; [apply Hprev in I as (? & E); discriminate E|].
      apply in_app_or in I as [I|I].
      + destruct (str_eqb (Messages.status p) (lit "submitted")) eqn:Es; [|destruct I].
        destruct (existsb _ _) eqn:Ee; [destruct I|].
        split; [now apply str_eqb_eq|now apply Hsome].
      + destruct (str_eqb (Messages.status p) (lit "streaming"));
          [destruct I as [E|[]]; discriminate E|destruct I].
    - intros (Hs & Hf). apply Hsome in Hf. rewrite Hs, Hf.
      apply in_or_app. right. apply in_or_app. right. now left. }
  assert (Hwork : forall rendered,
             In (Messages.Working rendered)
               ((if (length (Messages.messages p) =? 0)%nat then [Messages.Greeting] else [])
                  ++ map Messages.PreviewMessage
                       (Messages.map_indexed (Messages.preview p hooks) 0
                          (Messages.messages p))
                  ++ (if str_eqb (Messages.status p) (lit "submitted")
                         && negb (existsb Messages.has_approval_response
                                    (Messages.messages p))
                      then [Messages.ThinkingMessage] else [])
                  ++ (if str_eqb (Messages.status p) (lit "streaming")
                      then [Messages.Working
                              (Messages.WorkingIndicator (Messages.heartbeatCount p))]
                      else []))
             <-> Messages.status p = lit "streaming"
                 /\ rendered = Messages.WorkingIndicator (Messages.heartbeatCount p)).
  { intros rendered. split.
    - intros I. apply in_app_or in I as [I|I].
      { destruct (length _ =? 0)%nat; [destruct I as [E|[]]; discriminate E|destruct I]. }
      apply in_app_or in I as [I|I]; [apply Hprev in I as (? & E); discriminate E|].
      apply in_app_or in I as [I|I].
      + destruct (_ && _); [destruct I as [E|[]]; discriminate E|destruct I].
      + destruct (str_eqb (Messages.status p) (lit "streaming")) eqn:Es; [|destruct I].
        destruct I as [[= <-]|[]]. split; [now apply str_eqb_eq|reflexivity].
    - intros (Hs & ->). rewrite Hs.
      apply in_or_app. right. apply in_or_app. right. apply in_or_app. right. now left. }
  split; [|split; [exact Hthink|split; [exact Hwork|]]].
  - split.
    + intros I. destruct (Messages.messages p) as [|m ms]; [reflexivity|]. exfalso.
      cbn [length Nat.eqb app] in I.
      apply in_app_or in I as [I|I]; [apply Hprev in I as (? & E); discriminate E|].
      apply in_app_or in I as [I|I].
      * destruct (_ && _); [destruct I as [E|[]]; discriminate E|destruct I].
      * destruct (str_eqb (Messages.status p) (lit "streaming"));
          [destruct I as [E|[]]; discriminate E|destruct I].
    + intros ->. now left.
  - intros (It & rendered & Iw). apply Hthink in It as (Hs & _).
    apply Hwork in Iw as (Hw & _). rewrite Hs in Hw. discriminate Hw.
Qed.

(** ** The text of a message *)

Lemma join_LF_nil (texts : list jsstring) :
  join [LF] texts = [] <-> texts = [] \/ texts = [[]].
Proof.
  split.
  - destruct texts as [|t [|t' texts]]; cbn [join].
    + now left.
    + intros ->. now right.
    + intros E. apply app_eq_nil in E as (_ & E). discriminate E.
  - now intros [-> | ->].
Qed.

(** X25: the text of a message is empty exactly when the message has no
    parts, or no text part, or one text part and that one empty.  Two text
    parts or more, even empty, give a text that holds a line feed, which is
    not empty. *)
Theorem message_text_is_empty_exactly_when (m : ChatMessage) :
  (extractMessageText m = []
   <-> match parts m with
       | None => True
       | Some ps =>
           filter is_text_part ps = []
           \/ exists p, filter is_text_part ps = [p] /\ part_text p = Some []
       end)
  /\ (forall ps, parts m = Some ps ->
                 (2 <= length (filter is_text_part ps))%nat -> In LF (extractMessageText m)).
Proof.
  unfold extractMessageText. split.
  - destruct (parts m) as [ps|]; [|now split].
    rewrite join_LF_nil. split.
    + intros [E|E].
      * left. now apply map_eq_nil in E.
      * right. destruct (filter is_text_part ps) as [|p [|p' l]] eqn:Ef; try discriminate E.
        exists p. split; [reflexivity|].
        assert (Hp : is_text_part p = true).
        { assert (I : In p (filter is_text_part ps)) by (rewrite Ef; now left).
          now apply filter_In in I. }
        unfold is_text_part in Hp. apply andb_true_iff in Hp as (_ & Hp).
        injection E as E. unfold text_of in E.
        destruct (part_text p); [now subst|discriminate Hp].
    + intros [-> | (p & -> & Hp)]; [now left|right].
      cbn [map]. unfold text_of. now rewrite Hp.
  - intros ps -> Hl.
    destruct (filter is_text_part ps) as [|p [|p' l]]; cbn [length] in Hl; try lia.
    cbn [map join]. apply in_or_app. right. now left.
Qed.

(** ** The earlier [start] and its consumer *)

Section ConsumerFacts.
Context {rt : Builtins}.

Lemma forward_against_thrown (cancel_at : option nat) (chunks : list (list byte))
  (c : Controller) (content : jsstring) :
  fold_left (legacy_forward_against cancel_at) chunks (c, content, true)
  = (c, content, true).
Proof. induction chunks as [|x chunks IH]; [reflexivity|exact IH]. Qed.

Lemma forward_against_step (cancel_at : option nat) (x : list byte) (c : Controller)
  (content : jsstring) :
  closed (consumer_acts cancel_at c) = false ->
  legacy_forward_against cancel_at (c, content, false) x
  = ({| written := written c ++ [Enqueue x]; closed := false |},
     content ++ captured x, false).
Proof.
  intros Hc. unfold legacy_forward_against, controller_enqueue, captured. rewrite Hc.
  assert (E : written (consumer_acts cancel_at c) = written c).
  { unfold consumer_acts. destruct cancel_at as [n|]; [|reflexivity].
    now destruct (n <=? length (written c))%nat. }
  rewrite E. destruct (Legacy.match_textDelta _); [reflexivity|]. now rewrite app_nil_r.
Qed.

Lemma open_controller (c : Controller) :
  closed c = false -> c = {| written := written c; closed := false |}.
Proof. destruct c as [w b]. cbn. now intros ->. Qed.

(** Against a consumer that stays, every chunk is enqueued. *)
Lemma forward_against_stays (chunks : list (list byte)) (c : Controller)
  (content : jsstring) :
  closed c = false ->
  fold_left (legacy_forward_against None) chunks (c, content, false)
  = ({| written := written c ++ map Enqueue chunks; closed := false |},
     content ++ concat (map captured chunks), false).
Proof.
  revert c content; induction chunks as [|x chunks IH]; intros c content Hc.
  - cbn. rewrite !app_nil_r. f_equal. f_equal. now apply open_controller.
  - cbn [fold_left]. rewrite forward_against_step by exact Hc.
    rewrite IH by reflexivity. cbn [written map concat]. now rewrite <- !app_assoc.
Qed.

(** Against a consumer that cancels after [k] chunks, the chunks are
    enqueued until [k] of them are written; the next [enqueue] throws. *)
Lemma forward_against_cancel (k : nat) (chunks : list (list byte)) (c : Controller)
  (content : jsstring) :
  closed c = false -> (length (written c) <= k)%nat ->
  fold_left (legacy_forward_against (Some k)) chunks (c, content, false)
  = if (length (written c) + length chunks <=? k)%nat then
      ({| written := written c ++ map Enqueue chunks; closed := false |},
       content ++ concat (map captured chunks), false)
    else
      ({| written := written c ++ map Enqueue (firstn (k - length (written c)) chunks);
          closed := true |},
       content ++ concat (map captured (firstn (k - length (written c)) chunks)), true).
Proof.
  revert c content; induction chunks as [|x chunks IH]; intros c content Hc Hk.
  - cbn [fold_left length]. rewrite Nat.add_0_r.
    destruct (Nat.leb_spec (length (written c)) k) as [_|Hlt]; [|lia].
    cbn. rewrite !app_nil_r. f_equal. f_equal. now apply open_controller.
  - cbn [fold_left length].
    destruct (Nat.eq_dec (length (written c)) k) as [He|Hne].
    + (* the consumer has cancelled: this [enqueue] throws *)
      assert (Ha : consumer_acts (Some k) c = controller_cancel c).
      { unfold consumer_acts. destruct (Nat.leb_spec k (length (written c))); [reflexivity|lia]. }
      unfold legacy_forward_against at 2. unfold controller_enqueue. rewrite Ha.
      cbn [controller_cancel closed]. rewrite forward_against_thrown.
      destruct (Nat.leb_spec (length (written c) + S (length chunks)) k) as [Hle|_]; [lia|].
      replace (k - length (written c))%nat with 0%nat by lia.
      cbn. now rewrite !app_nil_r.
    + assert (Ha : consumer_acts (Some k) c = c).
      { unfold consumer_acts. destruct (Nat.leb_spec k (length (written c))); [lia|reflexivity]. }
      rewrite forward_against_step by (rewrite Ha; exact Hc).
      rewrite IH; cbn [written closed]; [|reflexivity|rewrite length_app; cbn; lia].
      rewrite length_app. cbn [length].
      replace (length (written c) + 1 + length chunks)%nat
        with (length (written c) + S (length chunks))%nat by lia.
      destruct (length (written c) + S (length chunks) <=? k)%nat.
      * cbn [map concat]. now rewrite <- !app_assoc.
      * replace (k - length (written c))%nat
          with (S (k - (length (written c) + 1)))%nat by lia.
        cbn [firstn map concat]. now rewrite <- !app_assoc.
Qed.

End ConsumerFacts.

(** X26: the earlier [start], when the body is read to its end.  Against
    a consumer that stays, it is the [start] of the route: the consumer is
    handed the message-start frame, the chunks, the frame of the title if a
    title was asked for, and the close; the text captured in the chunks is
    stored when it is not empty, before the title frame is sent, and the
    title is updated after it.  Against a consumer that cancels before the
    last chunk is enqueued, the [enqueue] that follows throws, and nothing
    is stored, neither the answer nor the title, although the body was read
    to its end.  Against a consumer that cancels once the chunks are
    enqueued, the answer is stored and the title is not updated. *)
Theorem legacy_normal_completion {rt : Builtins} (env : Env) (chatId : jsstring)
  (titlePromise : option jsstring) (body : option Body) :
  snd (Legacy.transcoded body) = Returned ->
  let events := fst (Legacy.transcoded body) in
  let frames := legacy_frames_of (Legacy.message_start (generateUUID env 0) :: events) in
  let content := concat (map captured (fst (Legacy.transformBackendStream body))) in
  let saved :=
    if negb (str_eqb content []) then
      [SaveMessages [assistant_message chatId (generateUUID env 0) content]]
    else [] in
  legacy_start_against None env chatId titlePromise body
  = Legacy.start env chatId titlePromise body
  /\ Legacy.start env chatId titlePromise body
     = ({| written :=
             frames
               ++ legacy_frames_of
                    match titlePromise with
                    | Some title => [Legacy.data_chat_title title]
                    | None => []
                    end
               ++ [Close];
           closed := true |},
        saved
          ++ match titlePromise with
             | Some title => [UpdateChatTitle chatId title]
             | None => []
             end)
  /\ (forall k,
         (k <= length events)%nat ->
         legacy_start_against (Some k) env chatId titlePromise body
         = ({| written := firstn k frames; closed := true |}, []))
  /\ legacy_start_against (Some (S (length events))) env chatId titlePromise body
     = ({| written := frames; closed := true |}, saved).
Proof.
  intros H. cbv zeta.
  assert (Hstart : Legacy.start env chatId titlePromise body
                   = ({| written :=
                           legacy_frames_of
                             (Legacy.message_start (generateUUID env 0)
                                :: fst (Legacy.transcoded body))
                             ++ legacy_frames_of
                                  match titlePromise with
                                  | Some title => [Legacy.data_chat_title title]
                                  | None => []
                                  end
                             ++ [Close];
                         closed := true |},
                      (if negb (str_eqb
                                  (concat (map captured
                                             (fst (Legacy.transformBackendStream body))))
                                  [])
                       then
                         [SaveMessages
                            [assistant_message chatId (generateUUID env 0)
                               (concat (map captured
                                          (fst (Legacy.transformBackendStream body))))]]
                       else [])
                        ++ match titlePromise with
                           | Some title => [UpdateChatTitle chatId title]
                           | None => []
                           end)).
  { rewrite legacy_start_cases. cbv zeta. rewrite H.
    unfold Legacy.transformBackendStream, legacy_frames_of.
    destruct (Legacy.transcoded body) as [events completion]. cbn [fst].
    rewrite app_comm_cons, map_app, <- app_assoc. reflexivity. }
  unfold legacy_start_against, Legacy.transformBackendStream, legacy_frames_of in *.
  destruct (Legacy.transcoded body) as [events completion]. cbn [fst snd] in *.
  subst completion. rewrite map_cons.
  split; [|split; [exact Hstart|split]].
  - rewrite Hstart. cbn [consumer_acts]. unfold controller_enqueue at 1.
    cbn [closed Controller_new written app].
    rewrite forward_against_stays by reflexivity. cbn [written app].
    rewrite map_map.
    destruct titlePromise as [title|]; unfold controller_enqueue, controller_close;
      cbn [closed written map app]; rewrite <- ?app_assoc, ?app_nil_r; cbn [app];
      reflexivity.
  - intros k Hk. destruct k as [|k]; [reflexivity|].
    change (consumer_acts (Some (S k)) Controller_new) with Controller_new.
    unfold controller_enqueue at 1. cbn [closed Controller_new written app].
    rewrite forward_against_cancel; cbn [written closed length];
      [|reflexivity|lia].
    rewrite length_map.
    destruct (Nat.leb_spec (1 + length events) (S k)) as [Hle|_]; [lia|].
    unfold controller_error. cbn [closed firstn Nat.sub map app].
    rewrite Nat.sub_0_r, <- firstn_map, map_map. reflexivity.
  - change (consumer_acts (Some (S (length events))) Controller_new) with Controller_new.
    unfold controller_enqueue at 1. cbn [closed Controller_new written app].
    rewrite forward_against_cancel; cbn [written closed length]; [|reflexivity|lia].
    rewrite length_map.
    destruct (Nat.leb_spec (1 + length events) (S (length events))) as [_|Hlt]; [|lia].
    assert (Ha : forall w,
               consumer_acts (Some (S (length events)))
                 {| written :=
                      Enqueue w
                        :: map Enqueue
                             (map (fun e => TextEncoder_encode (Legacy.sse e)) events);
                    closed := false |}
               = {| written :=
                      Enqueue w
                        :: map Enqueue
                             (map (fun e => TextEncoder_encode (Legacy.sse e)) events);
                    closed := true |}).
    { intros w. unfold consumer_acts. cbn [written length]. rewrite !length_map.
      now rewrite Nat.leb_refl. }
    cbn [app]. rewrite !Ha.
    destruct titlePromise as [title|]; unfold controller_enqueue, controller_close,
      controller_error; cbn [closed map]; rewrite map_map; reflexivity.
Qed.

Lemma legacy_normal_completion_witness :
  Legacy.start (rt := Reference.runtime)
    (Sample.env_new_chat "Say hi" FetchRejected) (lit "chat-1") (Some (lit "Greeting"))
    (Some (Sample.trickle (Sample.output_frame "Hi" ++ Sample.done_frame) false))
  = ({| written :=
          legacy_frames_of (rt := Reference.runtime)
            [Legacy.message_start (lit "assistant-1"); Legacy.text_delta (lit "Hi");
             Legacy.finish; Legacy.data_chat_title (lit "Greeting")]
            ++ [Close];
        closed := true |},
     [SaveMessages [assistant_message (lit "chat-1") (lit "assistant-1") (lit "Hi")];
      UpdateChatTitle (lit "chat-1") (lit "Greeting")])
  /\ legacy_start_against (rt := Reference.runtime) (Some 2%nat)
       (Sample.env_new_chat "Say hi" FetchRejected) (lit "chat-1") (Some (lit "Greeting"))
       (Some (Sample.trickle (Sample.output_frame "Hi" ++ Sample.done_frame) false))
     = ({| written :=
             legacy_frames_of (rt := Reference.runtime)
               [Legacy.message_start (lit "assistant-1"); Legacy.text_delta (lit "Hi")];
           closed := true |}, []).
Proof.
  pose proof (@legacy_normal_completion Reference.runtime
                (Sample.env_new_chat "Say hi" FetchRejected) (lit "chat-1")
                (Some (lit "Greeting"))
                (Some (Sample.trickle (Sample.output_frame "Hi" ++ Sample.done_frame) false))
                ltac:(vm_compute; reflexivity))
    as (_ & Hstays & Hcancels & _).
  split.
  - rewrite Hstays. vm_compute. reflexivity.
  - rewrite (Hcancels 2%nat ltac:(vm_compute; repeat constructor)).
    vm_compute. reflexivity.
Defined.

(** ** Lines ended by a carriage return and a line feed *)

Lemma trimStart_snoc (c : N) (x : jsstring) :
  is_trimmed_unit c = true ->
  trimStart (x ++ [c]) = match trimStart x with [] => [] | y => y ++ [c] end.
Proof.
  intros Hc. induction x as [|a x IH]; cbn [app trimStart]; [now rewrite Hc|].
  destruct (is_trimmed_unit a); [exact IH|reflexivity].
Qed.

Lemma trimEnd_snoc (c : N) (y : jsstring) :
  is_trimmed_unit c = true -> trimEnd (y ++ [c]) = trimEnd y.
Proof.
  intros Hc. unfold trimEnd. rewrite rev_app_distr. cbn [rev app trimStart].
  now rewrite Hc.
Qed.

Lemma trim_snoc (c : N) (x : jsstring) :
  is_trimmed_unit c = true -> trim (x ++ [c]) = trim x.
Proof.
  intros Hc. unfold trim. rewrite (trimStart_snoc c x Hc).
  destruct (trimStart x) as [|a y]; [reflexivity|].
  now rewrite trimEnd_snoc.
Qed.

Lemma startsWith_snoc (p l : jsstring) (c : N) :
  ~ In c p -> startsWith p (l ++ [c]) = startsWith p l.
Proof.
  revert l; induction p as [|x p IH]; intros l Hn; [reflexivity|].
  destruct l as [|y l]; cbn [app startsWith].
  - assert (E : (x =? c) = false) by (apply N.eqb_neq; intros ->; apply Hn; now left).
    now rewrite E.
  - rewrite IH; [reflexivity|]. intros I. apply Hn. now right.
Qed.

Lemma startsWith_length (p l : jsstring) :
  startsWith p l = true -> (length p <= length l)%nat.
Proof.
  revert l; induction p as [|x p IH]; intros l; [cbn; lia|].
  destruct l as [|y l]; [discriminate|]. cbn [startsWith length].
  intros E. apply andb_true_iff in E as (_ & E). apply IH in E. lia.
Qed.

Lemma payload_CR (line : jsstring) : payload (line ++ [CR]) = payload line.
Proof.
  unfold payload. rewrite startsWith_snoc.
  - destruct (startsWith (lit "data: ") line) eqn:E; [|reflexivity].
    apply startsWith_length in E. unfold slice.
    rewrite skipn_app.
    replace (6 - length line)%nat with 0%nat by (cbn in E; lia).
    cbn [skipn]. now rewrite trim_snoc.
  - cbn. intros H. repeat (destruct H as [H|H]; [discriminate H|]). exact H.
Qed.

Lemma split_LF_with_CR (s : jsstring) :
  split_LF (with_CR s)
  = map (fun line => line ++ [CR]) (removelast (split_LF s)) ++ [last (split_LF s) []].
Proof.
  induction s as [|c s IH]; [reflexivity|].
  pose proof (split_LF_not_nil s) as Hn.
  unfold with_CR in *. cbn [flat_map]. rewrite split_LF_cons.
  destruct (c =? LF) eqn:Ec.
  - cbn [app].
    change (split_LF (CR :: LF :: flat_map (fun c => if c =? LF then [CR; LF] else [c]) s))
      with ([CR] :: split_LF (flat_map (fun c => if c =? LF then [CR; LF] else [c]) s)).
    rewrite IH, removelast_cons_not_nil, last_cons_not_nil by assumption.
    reflexivity.
  - cbn [app]. rewrite split_LF_cons, Ec, IH.
    destruct (split_LF s) as [|l1 [|l2 r]]; [contradiction|reflexivity|].
    change (removelast (l1 :: l2 :: r)) with (l1 :: removelast (l2 :: r)).
    change (removelast (onto_first c (l1 :: l2 :: r)))
      with ((c :: l1) :: removelast (l2 :: r)).
    reflexivity.
Qed.

Lemma payloads_with_CR (lines : list jsstring) :
  flat_map payload_list (map (fun line => line ++ [CR]) lines)
  = flat_map payload_list lines.
Proof.
  induction lines as [|l lines IH]; [reflexivity|].
  cbn [map flat_map]. rewrite IH. unfold payload_list. now rewrite payload_CR.
Qed.

(** X27: lines ended by a carriage return and a line feed are read like lines
    ended by a line feed alone: two bodies whose texts differ only by a
    carriage return before each line feed give the same payloads, and so
    the same events, in both versions of the generator. *)
Theorem carriage_returns_are_ignored {rt : Builtins} (textId : jsstring) (b1 b2 : Body) :
  snd (TextDecoder_decode TextDecoder_new (concat (chunks b2)))
  = with_CR (snd (TextDecoder_decode TextDecoder_new (concat (chunks b1)))) ->
  read_fails b2 = read_fails b1 ->
  decoded_payloads (chunks b2) = decoded_payloads (chunks b1)
  /\ transcoded textId (Some b2) = transcoded textId (Some b1)
  /\ Legacy.transcoded (Some b2) = Legacy.transcoded (Some b1).
Proof.
  intros Ht Hf.
  assert (H : decoded_payloads (chunks b2) = decoded_payloads (chunks b1)).
  { rewrite !decoded_payloads_lines. unfold complete_lines. rewrite Ht, split_LF_with_CR.
    rewrite removelast_last. apply payloads_with_CR. }
  split; [exact H|].
  rewrite !transcoded_by_payloads, !legacy_transcoded_by_payloads, H, Hf. now split.
Qed.

Lemma carriage_returns_are_ignored_witness :
  transcoded (rt := Reference.runtime) (lit "text-1")
    (Some (Sample.trickle
             (lit "data: {" ++ Sample.quoted "node" ++ lit ":" ++ Sample.quoted "agent"
                ++ lit "," ++ Sample.quoted "content" ++ lit ":" ++ Sample.quoted "4"
                ++ lit "}" ++ [CR; LF; CR; LF])
             false))
  = transcoded (rt := Reference.runtime) (lit "text-1")
      (Some (Sample.body_of (Sample.node_frame "agent" "4") false)).
Proof.
  apply (@carriage_returns_are_ignored Reference.runtime (lit "text-1")
           (Sample.body_of (Sample.node_frame "agent" "4") false)
           (Sample.trickle
              (lit "data: {" ++ Sample.quoted "node" ++ lit ":" ++ Sample.quoted "agent"
                 ++ lit "," ++ Sample.quoted "content" ++ lit ":" ++ Sample.quoted "4"
                 ++ lit "}" ++ [CR; LF; CR; LF])
              false)).
  - vm_compute. reflexivity.
  - vm_compute. reflexivity.
Defined.

(** ** What is stored, and under which id *)

(** X28: the answer is stored under the id announced to the client: when
    [start] hands an assistant message to [saveMessages], it is one
    message, of the chat of the request, with a text that is not empty, and
    its id is the message id of the start frame, the first frame written. *)
Theorem stored_answer_has_the_announced_id {rt : Builtins} (env : Env) (chatId : jsstring)
  (titlePromise : option jsstring) (body : option Body) (messages : list DBMessage) :
  In (SaveMessages messages) (snd (start env chatId titlePromise body)) ->
  exists content rest,
    messages = [assistant_message chatId (generateUUID env 0) content]
    /\ content <> []
    /\ written (fst (start env chatId titlePromise body))
       = Enqueue (TextEncoder_encode (sse (Start (generateUUID env 0)))) :: rest.
Proof.
  intros I. destruct (start_written env chatId titlePromise body) as (Hw & _).
  rewrite start_effects in I. cbv zeta in I.
  set (content := content_after _ _) in I.
  destruct (str_eqb content []) eqn:Ec; cbn [negb app] in I.
  - destruct titlePromise; sort_out; discriminate I.
  - apply str_eqb_neq in Ec.
    assert (E : SaveMessages [assistant_message chatId (generateUUID env 0) content]
                = SaveMessages messages).
    { destruct I as [E|I]; [exact E|]. destruct titlePromise; sort_out; discriminate I. }
    injection E as <-.
    exists content, (frames_of (tl (client_events env body)) ++ [Close]).
    split; [reflexivity|]. split; [exact Ec|].
    rewrite Hw. unfold client_events.
    destruct (transcoded (generateUUID env 1) body) as [events completion].
    reflexivity.
Qed.

Lemma stored_answer_has_the_announced_id_witness :
  exists content rest,
    [assistant_message (lit "chat-1") (lit "assistant-1") (lit "4")]
    = [assistant_message (lit "chat-1") (lit "assistant-1") content]
    /\ content <> []
    /\ written
         (fst (start (rt := Reference.runtime)
                 (Sample.env "What is 2+2?" FetchRejected) (lit "chat-1") None
                 (Some (Sample.body_of (Sample.node_frame "agent" "4") false))))
       = Enqueue (TextEncoder_encode
                    (sse (rt := Reference.runtime) (Start (lit "assistant-1")))) :: rest.
Proof.
  apply (@stored_answer_has_the_announced_id Reference.runtime
           (Sample.env "What is 2+2?" FetchRejected) (lit "chat-1") None
           (Some (Sample.body_of (Sample.node_frame "agent" "4") false))
           [assistant_message (lit "chat-1") (lit "assistant-1") (lit "4")]).
  vm_compute. left. reflexivity.
Defined.

(** X29: what is stored before the text is looked at stays stored whatever
    follows: for a request that passes the checks with a message of the
    user, the chat (when it did not exist, with the title asked for being
    generated) and the user's message are the first effects of the
    handler, be the answer a bad request, the backend offline, or a
    stream; in both versions of the route. *)
Theorem user_message_is_stored_whatever_follows {rt : Builtins} (env : Env)
  (rb : PostRequestBody) (user : User) (m : ChatMessage) :
  reaches_validation env rb user -> message rb = Some m -> role m = lit "user" ->
  (exists rest, snd (POST env) = stored_before_validation env rb user m ++ rest)
  /\ (exists rest, snd (Legacy.POST env) = stored_before_validation env rb user m ++ rest).
Proof.
  intros Hr Hm Hu.
  assert (He : effects_before_validation env rb user = stored_before_validation env rb user m).
  { unfold effects_before_validation. now rewrite Hm, Hu. }
  rewrite (POST_reached Hr), (Legacy_POST_reached Hr), He.
  destruct (str_eqb (messageText rb) []).
  { split; exists []; cbn [snd]; now rewrite app_nil_r. }
  destruct (fetch env) as [|status [b|]]; [split; now eexists| |];
    destruct (ok status); split; now eexists.
Qed.

Lemma user_message_is_stored_whatever_follows_witness :
  exists rest,
    snd (POST (rt := Reference.runtime) (Sample.env_new_chat "What is 2+2?" FetchRejected))
    = [SaveChat (lit "chat-1") (lit "user-1") (lit "New chat") (lit "private");
       GenerateTitle (Sample.question "What is 2+2?");
       SaveMessages [user_message (lit "chat-1") (Sample.question "What is 2+2?")]]
        ++ rest.
Proof.
  apply (proj1 (@user_message_is_stored_whatever_follows Reference.runtime
                  (Sample.env_new_chat "What is 2+2?" FetchRejected)
                  (Sample.request "What is 2+2?") Sample.someone
                  (Sample.question "What is 2+2?")
                  ltac:(repeat split; try (vm_compute; congruence); discriminate)
                  eq_refl eq_refl)).
Defined.
